(** * apigee-backup: a shallow embedding of [main.go] and its properties

    The program is a sequential orchestrator: it reads a list of project
    identifiers, and for each one resets a staging directory, probes the
    bucket for today's backup, runs the export tool, zips, uploads, notifies
    two webhooks and sweeps old archives.

    Layout of this development:
    - [GoString]   byte strings and the [strings] functions the program uses;
    - [FilePath]   [filepath.Base], [filepath.Clean], [filepath.Join] (Unix);
    - [GoTime]     [time.Parse], [Format], [AddDate], [Before] for the one
                   layout the program uses;
    - [Json]       [json.Unmarshal] into [map[string]interface{}];
    - [World]      the outside of the program (files, commands, clock, HTTP
                   sinks) as oracles over the history of events, and the
                   monad of computations that talk to it;
    - [Bufio]      [bufio.Scanner] reading lines;
    - [Backup]     the program itself, function by function;
    - [Spec]       the vocabulary of the specification;
    - [Examples]   concrete worlds and inputs;
    - [Traces]     the vocabulary for the parts of the program the
                   specification says little about: logging set-up, the
                   summary, the staging area, dates and names;
    - the properties, one module per component of the program. *)

From Stdlib Require Import String Ascii List ZArith Bool Lia Arith.
Import ListNotations.

Open Scope string_scope.
Open Scope Z_scope.

(* ------------------------------------------------------------------ *)
(** ** Go strings: sequences of bytes *)
(* ------------------------------------------------------------------ *)

Module GoString.

Definition byte_of (n : nat) : ascii := ascii_of_nat n.

Definition LF : ascii := byte_of 10.
Definition CR : ascii := byte_of 13.
Definition DQ : ascii := byte_of 34.

Definition code (c : ascii) : Z := Z.of_nat (nat_of_ascii c).

(** [len(s)]: the number of bytes, a Go [int]. *)
Definition len (s : string) : Z := Z.of_nat (String.length s).

Definition str1 (c : ascii) : string := String c EmptyString.

(** A string between double quotes, for writing JSON texts. *)
Definition quoted (s : string) : string := str1 DQ ++ s ++ str1 DQ.

Fixpoint rev_onto (s acc : string) : string :=
  match s with
  | EmptyString => acc
  | String c s' => rev_onto s' (String c acc)
  end.

Definition rev (s : string) : string := rev_onto s EmptyString.

Fixpoint drop_while (p : ascii -> bool) (s : string) : string :=
  match s with
  | EmptyString => EmptyString
  | String c s' => if p c then drop_while p s' else s
  end.

Fixpoint take_while (p : ascii -> bool) (s : string) : string :=
  match s with
  | EmptyString => EmptyString
  | String c s' => if p c then String c (take_while p s') else EmptyString
  end.

(** [strings.HasPrefix(s, p)]. *)
Fixpoint HasPrefix (s p : string) : bool :=
  match p, s with
  | EmptyString, _ => true
  | String a p', String b s' => Ascii.eqb a b && HasPrefix s' p'
  | String _ _, EmptyString => false
  end.

(** [strings.HasSuffix(s, p)]. *)
Definition HasSuffix (s p : string) : bool := HasPrefix (rev s) (rev p).

(** [strings.Contains(s, sub)]: [sub] occurs at some offset of [s]. *)
Fixpoint Contains (s sub : string) : bool :=
  HasPrefix s sub ||
  match s with
  | EmptyString => false
  | String _ s' => Contains s' sub
  end.

(** [strings.Split(s, sep)] for a one-byte separator: the pieces between
    separators, [n+1] pieces for [n] separators. *)
Fixpoint split_acc (sep : ascii) (s : string) (cur : string) : list string :=
  match s with
  | EmptyString => [rev cur]
  | String c s' =>
      if Ascii.eqb c sep then rev cur :: split_acc sep s' EmptyString
      else split_acc sep s' (String c cur)
  end.

Definition Split (s : string) (sep : ascii) : list string :=
  split_acc sep s EmptyString.

(** [strings.Join(elems, sep)]. *)
Fixpoint Join (elems : list string) (sep : string) : string :=
  match elems with
  | [] => EmptyString
  | [e] => e
  | e :: rest => e ++ sep ++ Join rest sep
  end.

(** The slice expression [s[lo:hi]]. Go panics unless
    [0 <= lo <= hi <= len(s)]; [None] stands for that run-time panic. *)
Definition slice (s : string) (lo hi : Z) : option string :=
  if (0 <=? lo) && (lo <=? hi) && (hi <=? len s)
  then Some (substring (Z.to_nat lo) (Z.to_nat (hi - lo)) s)
  else None.

Definition is_empty (s : string) : bool :=
  match s with EmptyString => true | _ => false end.

(** *** [strings.TrimSpace]

    White space is what [unicode.IsSpace] accepts: the six ASCII spaces,
    U+0085, U+00A0 and the Unicode space separators, which arrive here in
    their UTF-8 encodings. A byte that is not part of such an encoding is
    never white space (an invalid byte decodes to U+FFFD). *)
Definition ascii_space (c : ascii) : bool :=
  let n := code c in
  (n =? 9) || (n =? 10) || (n =? 11) || (n =? 12) || (n =? 13) || (n =? 32).

Definition b2 (a b : nat) : string := String (byte_of a) (str1 (byte_of b)).
Definition b3 (a b c : nat) : string := String (byte_of a) (b2 b c).

(** UTF-8 encodings of the non-ASCII code points in [White_Space]. *)
Definition unicode_spaces : list string :=
  [ b2 194 133;  b2 194 160;                       (* U+0085, U+00A0 *)
    b3 225 154 128;                                (* U+1680 *)
    b3 226 128 128; b3 226 128 129; b3 226 128 130; b3 226 128 131;
    b3 226 128 132; b3 226 128 133; b3 226 128 134; b3 226 128 135;
    b3 226 128 136; b3 226 128 137; b3 226 128 138;  (* U+2000..U+200A *)
    b3 226 128 168; b3 226 128 169;                (* U+2028, U+2029 *)
    b3 226 128 175;                                (* U+202F *)
    b3 226 129 159;                                (* U+205F *)
    b3 227 128 128 ].                              (* U+3000 *)

(** Number of bytes of the white-space rune [s] starts with, 0 if none. *)
Definition leading_space (s : string) : nat :=
  match s with
  | EmptyString => 0%nat
  | String c _ =>
      if ascii_space c then 1%nat
      else match find (HasPrefix s) unicode_spaces with
           | Some u => String.length u
           | None => 0%nat
           end
  end.

(** Same for the rune [s] ends with; [r] is [s] reversed. *)
Definition trailing_space (r : string) : nat :=
  match r with
  | EmptyString => 0%nat
  | String c _ =>
      if ascii_space c then 1%nat
      else match find (fun u => HasPrefix r (rev u)) unicode_spaces with
           | Some u => String.length u
           | None => 0%nat
           end
  end.

Fixpoint drop (n : nat) (s : string) : string :=
  match n, s with
  | O, _ => s
  | S n', String _ s' => drop n' s'
  | S _, EmptyString => EmptyString
  end.

(** Strip white-space runes from the front; [fuel] bounds the number of
    runes, and [String.length s] is always enough. *)
Fixpoint trim_left_fuel (fuel : nat) (s : string) : string :=
  match fuel with
  | O => s
  | S f =>
      match leading_space s with
      | O => s
      | k => trim_left_fuel f (drop k s)
      end
  end.

Fixpoint trim_right_fuel (fuel : nat) (r : string) : string :=
  match fuel with
  | O => r
  | S f =>
      match trailing_space r with
      | O => r
      | k => trim_right_fuel f (drop k r)
      end
  end.

Definition TrimLeftSpace (s : string) : string :=
  trim_left_fuel (String.length s) s.

Definition TrimRightSpace (s : string) : string :=
  rev (trim_right_fuel (String.length s) (rev s)).

Definition TrimSpace (s : string) : string :=
  TrimRightSpace (TrimLeftSpace s).

End GoString.

Import GoString.

(* ------------------------------------------------------------------ *)
(** ** [path/filepath] on Unix *)
(* ------------------------------------------------------------------ *)

Module FilePath.

Definition is_sep (c : ascii) : bool := Ascii.eqb c "/".

(** [filepath.Base]: strip trailing separators, keep what follows the last
    separator; [.] for the empty path, [/] for a path of separators only. *)
Definition Base (path : string) : string :=
  if is_empty path then "."
  else
    let r := drop_while is_sep (rev path) in
    let e := take_while (fun c => negb (is_sep c)) r in
    if is_empty e then "/" else rev e.

(** [filepath.Clean] works element by element: empty and [.] elements
    vanish, [..] removes the element before it (at the root it vanishes, at
    the start of a relative path it stays). [out] is the stack of elements
    kept so far, innermost first. *)
Fixpoint clean_elems (rooted : bool) (elems out : list string) : list string :=
  match elems with
  | [] => List.rev out
  | e :: rest =>
      if is_empty e || String.eqb e "." then clean_elems rooted rest out
      else if String.eqb e ".." then
        match out with
        | top :: out' =>
            if String.eqb top ".." then clean_elems rooted rest (e :: out)
            else clean_elems rooted rest out'
        | [] =>
            if rooted then clean_elems rooted rest out
            else clean_elems rooted rest (e :: out)
        end
      else clean_elems rooted rest (e :: out)
  end.

Definition Clean (path : string) : string :=
  match path with
  | EmptyString => "."
  | String c _ =>
      let rooted := is_sep c in
      let kept := Join (clean_elems rooted (Split path "/") []) "/" in
      if rooted then "/" ++ kept
      else if is_empty kept then "." else kept
  end.

(** [filepath.Join]: leading empty elements are ignored, the rest is joined
    with separators and cleaned; all empty gives the empty string. *)
Fixpoint Join (elems : list string) : string :=
  match elems with
  | [] => EmptyString
  | e :: rest =>
      if is_empty e then Join rest
      else Clean (GoString.Join elems "/")
  end.

End FilePath.

(* ------------------------------------------------------------------ *)
(** ** [time]: instants, the layout [2006-01-02], day arithmetic *)
(* ------------------------------------------------------------------ *)

Module GoTime.

(** A [time.Time] is an instant (seconds and nanoseconds since the Unix
    epoch) seen in a location. The location is a fixed offset east of UTC:
    the program runs unattended on a server clock, and a fixed offset is
    what makes [AddDate] by days a shift of whole days. Integers are exact;
    the limits of Go's 64-bit representation are outside this model. *)
Record Time : Type := mkTime { sec : Z; nsec : Z; offset : Z }.

(** Days since 1970-01-01 of a proleptic Gregorian date. A month outside
    [1..12] is first carried into the year, as [time.Date] does. *)
Definition days_from_civil (y m d : Z) : Z :=
  let y0 := y + (m - 1) / 12 in
  let m0 := (m - 1) mod 12 + 1 in
  let y1 := if m0 <=? 2 then y0 - 1 else y0 in
  let era := y1 / 400 in
  let yoe := y1 - era * 400 in
  let mp := if m0 <=? 2 then m0 + 9 else m0 - 3 in
  let doy := (153 * mp + 2) / 5 + d - 1 in
  let doe := yoe * 365 + yoe / 4 - yoe / 100 + doy in
  era * 146097 + doe - 719468.

(** The inverse: year, month, day of a day number. *)
Definition civil_from_days (z : Z) : Z * Z * Z :=
  let z0 := z + 719468 in
  let era := z0 / 146097 in
  let doe := z0 - era * 146097 in
  let yoe := (doe - doe / 1460 + doe / 36524 - doe / 146096) / 365 in
  let doy := doe - (365 * yoe + yoe / 4 - yoe / 100) in
  let mp := (5 * doy + 2) / 153 in
  let d := doy - (153 * mp + 2) / 5 + 1 in
  let m := if mp <? 10 then mp + 3 else mp - 9 in
  let y := yoe + era * 400 in
  ((if m <=? 2 then y + 1 else y), m, d).

Definition is_leap (y : Z) : bool :=
  (y mod 4 =? 0) && (negb (y mod 100 =? 0) || (y mod 400 =? 0)).

Definition days_in (m y : Z) : Z :=
  if m =? 2 then (if is_leap y then 29 else 28)
  else if (m =? 4) || (m =? 6) || (m =? 9) || (m =? 11) then 30
  else 31.

(** The local calendar date of an instant. *)
Definition Date_of (t : Time) : Z * Z * Z :=
  civil_from_days ((sec t + offset t) / 86400).

(** [time.Date(y, m, d, 0, 0, 0, 0, time.UTC)]. *)
Definition Date_utc (y m d : Z) : Time :=
  mkTime (days_from_civil y m d * 86400) 0 0.

(** [t.AddDate(years, months, days)]: the same wall-clock time on the
    shifted and normalised date, in the location of [t]. *)
Definition AddDate (t : Time) (years months days : Z) : Time :=
  let '(y, m, d) := Date_of t in
  let tod := (sec t + offset t) mod 86400 in
  mkTime (days_from_civil (y + years) (m + months) (d + days) * 86400
          + tod - offset t)
         (nsec t) (offset t).

(** [t.Before(u)]: the instant [t] is strictly earlier than [u]. *)
Definition Before (t u : Time) : bool :=
  (sec t <? sec u) || ((sec t =? sec u) && (nsec t <? nsec u)).

Definition is_digit (c : ascii) : bool :=
  (48 <=? code c) && (code c <=? 57).

Definition digit_val (c : ascii) : Z := code c - 48.

(** [time.Parse("2006-01-02", s)]: exactly four digits, a dash, two
    digits, a dash, two digits, and nothing else; the month within 1..12
    and the day within the month. The result is midnight UTC. *)
Definition Parse (s : string) : option Time :=
  match s with
  | String y1 (String y2 (String y3 (String y4 (String d1
    (String m1 (String m2 (String d2
    (String a1 (String a2 EmptyString))))))))) =>
      if is_digit y1 && is_digit y2 && is_digit y3 && is_digit y4
         && Ascii.eqb d1 "-" && is_digit m1 && is_digit m2
         && Ascii.eqb d2 "-" && is_digit a1 && is_digit a2
      then
        let y := digit_val y1 * 1000 + digit_val y2 * 100
                 + digit_val y3 * 10 + digit_val y4 in
        let m := digit_val m1 * 10 + digit_val m2 in
        let d := digit_val a1 * 10 + digit_val a2 in
        if (1 <=? m) && (m <=? 12) && (1 <=? d) && (d <=? days_in m y)
        then Some (Date_utc y m d)
        else None
      else None
  | _ => None
  end.

(** Decimal digits of a non-negative integer, most significant first. *)
Fixpoint digits_fuel (fuel : nat) (n : Z) (acc : string) : string :=
  match fuel with
  | O => acc
  | S f =>
      let acc' := String (ascii_of_nat (Z.to_nat (48 + n mod 10))) acc in
      if n <? 10 then acc' else digits_fuel f (n / 10) acc'
  end.

Definition digits (n : Z) : string :=
  digits_fuel (S (Z.to_nat (Z.log2 n))) n EmptyString.

Fixpoint zeros (k : nat) : string :=
  match k with O => EmptyString | S k' => String "0" (zeros k') end.

(** [appendInt(b, x, width)]: sign, then the digits padded with zeros. *)
Definition appendInt (x : Z) (width : nat) : string :=
  let ds := digits (Z.abs x) in
  (if x <? 0 then "-" else EmptyString)
  ++ zeros (width - String.length ds) ++ ds.

(** [t.Format("2006-01-02")]. *)
Definition Format (t : Time) : string :=
  let '(y, m, d) := Date_of t in
  appendInt y 4 ++ "-" ++ appendInt m 2 ++ "-" ++ appendInt d 2.

End GoTime.

(* ------------------------------------------------------------------ *)
(** ** [encoding/json]: decoding into [map[string]interface{}] *)
(* ------------------------------------------------------------------ *)

Module Json.

(** What [interface{}] holds after decoding. A number keeps its literal:
    the program never looks at one, only whether it fits a [float64]. An
    object keeps its members in the order of the text; a Go map keeps the
    last value stored under a key, which is how [lookup] reads it. *)
#[local] Unset Elimination Schemes.

Inductive value : Type :=
| Null
| Bool (b : bool)
| Number (literal : string)
| Str (s : string)
| Array (elems : list value)
| Object (members : list (string * value)).

#[local] Set Elimination Schemes.

Fixpoint lookup (key : string) (m : list (string * value)) : option value :=
  match m with
  | [] => None
  | (k, v) :: rest =>
      match lookup key rest with
      | Some v' => Some v'
      | None => if String.eqb k key then Some v else None
      end
  end.

(** *** The scanner: bytes to tokens *)

Inductive token : Type :=
| TLBrace | TRBrace | TLBracket | TRBracket | TColon | TComma
| TStr (raw : string)      (* the bytes between the quotes, escapes intact *)
| TNum (literal : string)
| TTrue | TFalse | TNull.

(** Where the scanner is inside a number literal. *)
Inductive numstate : Type :=
| NMinus | NZero | NInt | NDot | NFrac | NE | NESign | NExp.

Inductive mode : Type :=
| MDefault
| MStr (acc : string) (esc : nat)
    (* [acc]: raw bytes so far, reversed; [esc]: 0 plain, 1 after a
       backslash, [2+k] when [k+1] hex digits of a [\u] escape are due *)
| MNum (acc : string) (st : numstate)
| MLit (rest : string) (t : token).

Definition is_ws (c : ascii) : bool :=
  let n := code c in (n =? 32) || (n =? 9) || (n =? 13) || (n =? 10).

Definition is_digit (c : ascii) : bool := GoTime.is_digit c.

Definition is_hex (c : ascii) : bool :=
  let n := code c in
  is_digit c || ((97 <=? n) && (n <=? 102)) || ((65 <=? n) && (n <=? 70)).

Definition num_accepting (st : numstate) : bool :=
  match st with NZero | NInt | NFrac | NExp => true | _ => false end.

(** The next state of a number literal on byte [c], if [c] extends it. *)
Definition num_step (st : numstate) (c : ascii) : option numstate :=
  let n := code c in
  let e := (n =? 101) || (n =? 69) in
  match st with
  | NMinus => if n =? 48 then Some NZero
              else if is_digit c then Some NInt else None
  | NZero => if n =? 46 then Some NDot else if e then Some NE else None
  | NInt => if is_digit c then Some NInt
            else if n =? 46 then Some NDot else if e then Some NE else None
  | NDot => if is_digit c then Some NFrac else None
  | NFrac => if is_digit c then Some NFrac else if e then Some NE else None
  | NE => if (n =? 43) || (n =? 45) then Some NESign
          else if is_digit c then Some NExp else None
  | NESign => if is_digit c then Some NExp else None
  | NExp => if is_digit c then Some NExp else None
  end.

(** A byte met outside any literal. *)
Definition start_step (c : ascii) (out : list token)
  : option (mode * list token) :=
  let n := code c in
  if is_ws c then Some (MDefault, out)
  else if n =? 123 then Some (MDefault, TLBrace :: out)
  else if n =? 125 then Some (MDefault, TRBrace :: out)
  else if n =? 91 then Some (MDefault, TLBracket :: out)
  else if n =? 93 then Some (MDefault, TRBracket :: out)
  else if n =? 58 then Some (MDefault, TColon :: out)
  else if n =? 44 then Some (MDefault, TComma :: out)
  else if n =? 34 then Some (MStr EmptyString 0%nat, out)
  else if n =? 45 then Some (MNum (str1 c) NMinus, out)
  else if n =? 48 then Some (MNum (str1 c) NZero, out)
  else if is_digit c then Some (MNum (str1 c) NInt, out)
  else if n =? 116 then Some (MLit "rue" TTrue, out)
  else if n =? 102 then Some (MLit "alse" TFalse, out)
  else if n =? 110 then Some (MLit "ull" TNull, out)
  else None.

Definition is_simple_escape (c : ascii) : bool :=
  let n := code c in
  (n =? 98) || (n =? 102) || (n =? 110) || (n =? 114) || (n =? 116)
  || (n =? 92) || (n =? 47) || (n =? 34).

Definition scan_step (m : mode) (c : ascii) (out : list token)
  : option (mode * list token) :=
  match m with
  | MDefault => start_step c out
  | MStr acc O =>
      if code c =? 34 then Some (MDefault, TStr (rev acc) :: out)
      else if code c =? 92 then Some (MStr (String c acc) 1%nat, out)
      else if code c <? 32 then None
      else Some (MStr (String c acc) 0%nat, out)
  | MStr acc (S O) =>
      if is_simple_escape c then Some (MStr (String c acc) 0%nat, out)
      else if code c =? 117 then Some (MStr (String c acc) 5%nat, out)
      else None
  | MStr acc (S (S k)) =>
      if is_hex c
      then Some (MStr (String c acc) (match k with O => O | _ => S k end), out)
      else None
  | MNum acc st =>
      match num_step st c with
      | Some st' => Some (MNum (String c acc) st', out)
      | None =>
          if num_accepting st then start_step c (TNum (rev acc) :: out)
          else None
      end
  | MLit rest t =>
      match rest with
      | String e rest' =>
          if Ascii.eqb c e
          then match rest' with
               | EmptyString => Some (MDefault, t :: out)
               | _ => Some (MLit rest' t, out)
               end
          else None
      | EmptyString => None
      end
  end.

Fixpoint scan_from (m : mode) (s : string) (out : list token)
  : option (list token) :=
  match s with
  | EmptyString =>
      match m with
      | MDefault => Some (List.rev out)
      | MNum acc st =>
          if num_accepting st then Some (List.rev (TNum (rev acc) :: out))
          else None
      | _ => None
      end
  | String c s' =>
      match scan_step m c out with
      | Some (m', out') => scan_from m' s' out'
      | None => None
      end
  end.

Definition scan (s : string) : option (list token) :=
  scan_from MDefault s [].

(** *** String literals: [unquote] *)

Definition hex_val (c : ascii) : Z :=
  let n := code c in
  if is_digit c then n - 48
  else if 97 <=? n then n - 87 else n - 55.

Definition byteZ (z : Z) : ascii := ascii_of_nat (Z.to_nat z).

(** [utf8.EncodeRune] for a code point that is not a surrogate. *)
Definition encode_rune (r : Z) : string :=
  if r <? 128 then str1 (byteZ r)
  else if r <? 2048 then
    String (byteZ (192 + r / 64)) (str1 (byteZ (128 + r mod 64)))
  else if r <? 65536 then
    String (byteZ (224 + r / 4096))
      (String (byteZ (128 + (r / 64) mod 64)) (str1 (byteZ (128 + r mod 64))))
  else
    String (byteZ (240 + r / 262144))
      (String (byteZ (128 + (r / 4096) mod 64))
         (String (byteZ (128 + (r / 64) mod 64))
            (str1 (byteZ (128 + r mod 64))))).

Definition replacement : string := encode_rune 65533.

Definition is_surrogate (r : Z) : bool := (55296 <=? r) && (r <? 57344).

Definition in_range (c : ascii) (lo hi : Z) : bool :=
  (lo <=? code c) && (code c <=? hi).

(** Length of the well-formed UTF-8 sequence that starts with byte [c]
    followed by [rest]; 0 when [utf8.DecodeRune] reports an error. *)
Definition utf8_width (c : ascii) (rest : string) : nat :=
  let n := code c in
  let cont := fun x => in_range x 128 191 in
  match rest with
  | String c2 rest2 =>
      if (194 <=? n) && (n <=? 223) then (if cont c2 then 2 else 0)%nat
      else
        let ok2 :=
          if n =? 224 then in_range c2 160 191
          else if n =? 237 then in_range c2 128 159
          else if n =? 240 then in_range c2 144 191
          else if n =? 244 then in_range c2 128 143
          else cont c2 in
        match rest2 with
        | String c3 rest3 =>
            if (224 <=? n) && (n <=? 239)
            then (if ok2 && cont c3 then 3 else 0)%nat
            else if (240 <=? n) && (n <=? 244)
            then match rest3 with
                 | String c4 _ =>
                     (if ok2 && cont c3 && cont c4 then 4 else 0)%nat
                 | EmptyString => 0%nat
                 end
            else 0%nat
        | EmptyString => 0%nat
        end
  | EmptyString => 0%nat
  end.

Definition u4 (h1 h2 h3 h4 : ascii) : Z :=
  hex_val h1 * 4096 + hex_val h2 * 256 + hex_val h3 * 16 + hex_val h4.

(** The four hex digits of a [\u] escape at the head of [s], as [getu4]
    reads them; [-1] when [s] does not start with such an escape. *)
Definition getu4 (s : string) : Z :=
  match s with
  | String b (String u (String h1 (String h2 (String h3 (String h4 _))))) =>
      if (code b =? 92) && (code u =? 117)
         && is_hex h1 && is_hex h2 && is_hex h3 && is_hex h4
      then u4 h1 h2 h3 h4 else -1
  | _ => -1
  end.

(** The bytes a string literal stands for: escapes replaced, ill-formed
    UTF-8 coerced to U+FFFD byte by byte. [None] for an escape the scanner
    would not have let through. *)
Fixpoint unquote (s : string) : option string :=
  match s with
  | EmptyString => Some EmptyString
  | String c s1 =>
      let n := code c in
      if n =? 92 then
        match s1 with
        | String e s2 =>
            let k := code e in
            let plain := fun (b : ascii) =>
              option_map (String b) (unquote s2) in
            if (k =? 34) || (k =? 92) || (k =? 47) then plain e
            else if k =? 98 then plain (byte_of 8)
            else if k =? 102 then plain (byte_of 12)
            else if k =? 110 then plain (byte_of 10)
            else if k =? 114 then plain (byte_of 13)
            else if k =? 116 then plain (byte_of 9)
            else if k =? 117 then
              match s2 with
              | String h1 (String h2 (String h3 (String h4 s6))) =>
                  if is_hex h1 && is_hex h2 && is_hex h3 && is_hex h4 then
                    let r := u4 h1 h2 h3 h4 in
                    if is_surrogate r then
                      match s6 with
                      | String _ (String _ (String _ (String _
                          (String _ (String _ s12))))) =>
                          let r1 := getu4 s6 in
                          if (r <? 56320) && (56320 <=? r1) && (r1 <? 57344)
                          then option_map
                                 (append (encode_rune
                                    ((r - 55296) * 1024 + (r1 - 56320) + 65536)))
                                 (unquote s12)
                          else option_map (append replacement) (unquote s6)
                      | _ => option_map (append replacement) (unquote s6)
                      end
                    else option_map (append (encode_rune r)) (unquote s6)
                  else None
              | _ => None
              end
            else None
        | EmptyString => None
        end
      else if (n =? 34) || (n <? 32) then None
      else if n <? 128 then option_map (String c) (unquote s1)
      else
        match utf8_width c s1, s1 with
        | 2%nat, String c2 s2 =>
            option_map (fun t => String c (String c2 t)) (unquote s2)
        | 3%nat, String c2 (String c3 s3) =>
            option_map (fun t => String c (String c2 (String c3 t)))
                       (unquote s3)
        | 4%nat, String c2 (String c3 (String c4 s4)) =>
            option_map
              (fun t => String c (String c2 (String c3 (String c4 t))))
              (unquote s4)
        | _, _ => option_map (append replacement) (unquote s1)
        end
  end.

(** *** Numbers: does the literal fit a [float64]? *)

Fixpoint digits_val (s : string) (acc : Z) : Z :=
  match s with
  | EmptyString => acc
  | String c s' => digits_val s' (acc * 10 + (code c - 48))
  end.

(** Split a literal the scanner accepted into its integer digits, fraction
    digits and decimal exponent. *)
Definition number_parts (lit : string) : string * string * Z :=
  let body := match lit with
              | String c r => if code c =? 45 then r else lit
              | EmptyString => lit
              end in
  let ip := take_while is_digit body in
  let r1 := drop_while is_digit body in
  let '(fp, r2) :=
    match r1 with
    | String c r =>
        if code c =? 46
        then (take_while is_digit r, drop_while is_digit r)
        else (EmptyString, r1)
    | EmptyString => (EmptyString, r1)
    end in
  let ex :=
    match r2 with
    | String _ (String sg r) =>
        if code sg =? 45 then - digits_val r 0
        else if code sg =? 43 then digits_val r 0
        else digits_val (String sg r) 0
    | _ => 0
    end in
  (ip, fp, ex).

(** [strconv.ParseFloat(lit, 64)] reports a range error exactly when the
    magnitude rounds to infinity: at or above [2^1024 - 2^970], half way
    between the largest finite [float64] and [2^1024]. *)
Definition float64_overflows (lit : string) : bool :=
  let '(ip, fp, ex) := number_parts lit in
  let mant := digits_val (ip ++ fp) 0 in
  let e := ex - len fp in
  let limit := 2 ^ 1024 - 2 ^ 970 in
  if mant =? 0 then false
  else if 0 <=? e then limit <=? mant * 10 ^ e
  else limit * 10 ^ (- e) <=? mant.

(** *** The parser: tokens to a value *)

(** An open container: an array with the elements read so far, or an
    object with its members so far and the key whose value is awaited.
    Both lists are reversed. *)
Inductive ctx : Type :=
| CArr (done : list value)
| CObj (done : list (string * value)) (key : string).

Inductive pstate : Type :=
| PValue (stk : list ctx)
| PArrFirst (stk : list ctx)
| PAfterArr (done : list value) (stk : list ctx)
| PObjFirst (stk : list ctx)
| PAfterObj (done : list (string * value)) (stk : list ctx)
| PKey (done : list (string * value)) (stk : list ctx)
| PColon (done : list (string * value)) (key : string) (stk : list ctx)
| PDone (v : value).

Definition maxNestingDepth : Z := 10000.

Definition deliver (v : value) (stk : list ctx) : pstate :=
  match stk with
  | [] => PDone v
  | CArr done :: stk' => PAfterArr (v :: done) stk'
  | CObj done key :: stk' => PAfterObj ((key, v) :: done) stk'
  end.

Definition open_ok (stk : list ctx) : bool :=
  Z.of_nat (List.length stk) <? maxNestingDepth.

(** A token where a value is expected; [stk] receives the value. *)
Definition value_step (stk : list ctx) (t : token) : option pstate :=
  match t with
  | TNull => Some (deliver Null stk)
  | TTrue => Some (deliver (Bool true) stk)
  | TFalse => Some (deliver (Bool false) stk)
  | TNum lit => Some (deliver (Number lit) stk)
  | TStr raw => option_map (fun s => deliver (Str s) stk) (unquote raw)
  | TLBracket => if open_ok stk then Some (PArrFirst stk) else None
  | TLBrace => if open_ok stk then Some (PObjFirst stk) else None
  | _ => None
  end.

Definition key_step (done : list (string * value)) (stk : list ctx)
           (t : token) : option pstate :=
  match t with
  | TStr raw => option_map (fun k => PColon done k stk) (unquote raw)
  | _ => None
  end.

Definition parse_step (st : pstate) (t : token) : option pstate :=
  match st with
  | PValue stk => value_step stk t
  | PArrFirst stk =>
      match t with
      | TRBracket => Some (deliver (Array []) stk)
      | _ => value_step (CArr [] :: stk) t
      end
  | PAfterArr done stk =>
      match t with
      | TComma => Some (PValue (CArr done :: stk))
      | TRBracket => Some (deliver (Array (List.rev done)) stk)
      | _ => None
      end
  | PObjFirst stk =>
      match t with
      | TRBrace => Some (deliver (Object []) stk)
      | _ => key_step [] stk t
      end
  | PAfterObj done stk =>
      match t with
      | TComma => Some (PKey done stk)
      | TRBrace => Some (deliver (Object (List.rev done)) stk)
      | _ => None
      end
  | PKey done stk => key_step done stk t
  | PColon done key stk =>
      match t with
      | TColon => Some (PValue (CObj done key :: stk))
      | _ => None
      end
  | PDone _ => None
  end.

Fixpoint parse_from (st : pstate) (ts : list token) : option value :=
  match ts with
  | [] => match st with PDone v => Some v | _ => None end
  | t :: ts' =>
      match parse_step st t with
      | Some st' => parse_from st' ts'
      | None => None
      end
  end.

(** A whole JSON text. *)
Definition parse (s : string) : option value :=
  match scan s with
  | Some ts => parse_from (PValue []) ts
  | None => None
  end.

(** No number anywhere in the value is out of range for [float64]. *)
Fixpoint numbers_fit (v : value) : bool :=
  match v with
  | Number lit => negb (float64_overflows lit)
  | Array elems => forallb numbers_fit elems
  | Object members => forallb (fun kv => numbers_fit (snd kv)) members
  | _ => true
  end.

(** [json.Unmarshal(data, &m)] for a nil [m map[string]interface{}]:
    [Some m] when the error is nil. The text has to be valid JSON, its
    value an object or [null] (which leaves the map nil, read as empty),
    and every number in it has to fit a [float64]. *)
Definition Unmarshal (data : string) : option (list (string * value)) :=
  match parse data with
  | Some (Object members) =>
      if numbers_fit (Object members) then Some members else None
  | Some Null => Some []
  | _ => None
  end.

End Json.

(* ------------------------------------------------------------------ *)
(** ** The world outside the program *)
(* ------------------------------------------------------------------ *)

Module World.

Import GoTime.

(** A Go [error], by the text [%v] prints. *)
Definition error : Type := string.

(** [exec.Command(name, args...)] with its [Dir] (empty: the current one). *)
Record Cmd : Type := mkCmd {
  cmd_name : string;
  cmd_args : list string;
  cmd_dir : string
}.

(** What running a command gives back: the two captured streams and the
    error of [Run] (non-zero exit, or the command could not start). *)
Record CmdResult : Type := mkCmdResult {
  cmd_stdout : string;
  cmd_stderr : string;
  cmd_err : option error
}.

Inductive StatResult : Type :=
| StatOk (size : Z)
| StatNotExist
| StatErr (e : error).

(** Opening a file and reading it to the end: the open fails, or the reads
    deliver [data] and then end of file or a read error. *)
Inductive OpenResult : Type :=
| OpenErr (e : error)
| Opened (data : string) (read_err : option error).

Inductive HttpResult : Type :=
| HttpErr (e : error)
| HttpStatus (code : Z).

(** The message handed to [json.Marshal] and posted. Marshalling a map of
    strings and integers cannot fail, so the body is kept structured. *)
Inductive Payload : Type :=
| DiscordMessage (title description : string) (color : Z) (footer : string)
| WorkspaceMessage (text : string).

(** One interaction with the outside, with its answer. *)
Inductive Event : Type :=
| EStat (path : string) (r : StatResult)
| ERemoveAll (path : string) (r : option error)
| EMkdirAll (path : string) (r : option error)
| EOpenFile (path : string) (r : option error)
| ERename (old new : string) (r : option error)
| ERemove (path : string) (r : option error)
| EOpen (path : string) (r : OpenResult)
| EExec (c : Cmd) (r : CmdResult)
| EPost (url : string) (p : Payload) (r : HttpResult)
| ENow (t : Time)
| EPrint (msg : string)
| ELog (msg : string).

(** The outside is deterministic given everything that happened before:
    each answer is a function of the history and of the request. *)
Record World : Type := mkWorld {
  w_Stat : list Event -> string -> StatResult;
  w_RemoveAll : list Event -> string -> option error;
  w_MkdirAll : list Event -> string -> option error;
  w_OpenFile : list Event -> string -> option error;
  w_Rename : list Event -> string -> string -> option error;
  w_Remove : list Event -> string -> option error;
  w_Open : list Event -> string -> OpenResult;
  w_Exec : list Event -> Cmd -> CmdResult;
  w_Post : list Event -> string -> Payload -> HttpResult;
  w_Now : list Event -> Time
}.

(** How a computation ends: with a value, with a run-time panic that
    nothing recovers, or with [os.Exit]. *)
Inductive Outcome (A : Type) : Type :=
| Ret (a : A)
| Panic (msg : string)
| Exit (code : Z).

Arguments Ret {A} a.
Arguments Panic {A} msg.
Arguments Exit {A} code.

(** A computation reads the world and the history so far, and gives its
    outcome with the events it added, oldest first. *)
Definition M (A : Type) : Type :=
  World -> list Event -> Outcome A * list Event.

Definition ret {A} (a : A) : M A := fun _ _ => (Ret a, []).

Definition bind {A B} (m : M A) (f : A -> M B) : M B :=
  fun w h =>
    match m w h with
    | (Ret a, es) =>
        let '(r, es') := f a w (h ++ es)%list in (r, (es ++ es')%list)
    | (Panic msg, es) => (Panic msg, es)
    | (Exit code, es) => (Exit code, es)
    end.

Definition panic {A} (msg : string) : M A := fun _ _ => (Panic msg, []).
Definition exit {A} (code : Z) : M A := fun _ _ => (Exit code, []).

Definition ask {A} (q : World -> list Event -> A) (ev : A -> Event) : M A :=
  fun w h => let r := q w h in (Ret r, [ev r]).

Definition tell (e : Event) : M unit := fun _ _ => (Ret tt, [e]).

Definition os_Stat (path : string) : M StatResult :=
  ask (fun w h => w_Stat w h path) (EStat path).
Definition os_RemoveAll (path : string) : M (option error) :=
  ask (fun w h => w_RemoveAll w h path) (ERemoveAll path).
Definition os_MkdirAll (path : string) : M (option error) :=
  ask (fun w h => w_MkdirAll w h path) (EMkdirAll path).
Definition os_OpenFile (path : string) : M (option error) :=
  ask (fun w h => w_OpenFile w h path) (EOpenFile path).
Definition os_Rename (old new : string) : M (option error) :=
  ask (fun w h => w_Rename w h old new) (ERename old new).
Definition os_Remove (path : string) : M (option error) :=
  ask (fun w h => w_Remove w h path) (ERemove path).
Definition os_Open (path : string) : M OpenResult :=
  ask (fun w h => w_Open w h path) (EOpen path).
Definition exec_Run (c : Cmd) : M CmdResult :=
  ask (fun w h => w_Exec w h c) (EExec c).
Definition http_Post (url : string) (p : Payload) : M HttpResult :=
  ask (fun w h => w_Post w h url p) (EPost url p).
Definition time_Now : M Time :=
  ask (fun w h => w_Now w h) ENow.
Definition fmt_Print (msg : string) : M unit := tell (EPrint msg).
Definition log_Printf (msg : string) : M unit := tell (ELog msg).

End World.

Import World.

Declare Scope go_scope.
Delimit Scope go_scope with go.

Notation "x <- m ;; k" := (bind m (fun x => k))
  (at level 61, m at next level, right associativity) : go_scope.
Notation "m ;; k" := (bind m (fun _ => k))
  (at level 61, right associativity) : go_scope.

Open Scope go_scope.

(* ------------------------------------------------------------------ *)
(** ** [bufio.Scanner] with [ScanLines] *)
(* ------------------------------------------------------------------ *)

Module Bufio.

Definition MaxScanTokenSize : Z := 64 * 1024.

Definition ErrTooLong : error := "bufio.Scanner: token too long".

(** [dropCR]: a line loses one trailing carriage return. *)
Definition dropCR (s : string) : string :=
  match rev s with
  | String c r => if Ascii.eqb c CR then rev r else s
  | EmptyString => s
  end.

(** The tokens successive calls of [Scan] hand out, and what [Err] says
    once [Scan] has returned false. [pieces] are the stretches of the input
    between newlines, the last one being what follows the last newline.
    A stretch that fills the whole buffer without a newline stops the
    scanner with [ErrTooLong]; an empty last stretch is no line; a read
    error still lets the bytes read so far through as lines. *)
Fixpoint scan_lines (pieces : list string) (read_err : option error)
  : list string * option error :=
  match pieces with
  | [] => ([], read_err)
  | p :: rest =>
      if MaxScanTokenSize <=? len p then ([], Some ErrTooLong)
      else
        match rest with
        | [] => (if is_empty p then [] else [dropCR p], read_err)
        | _ =>
            let '(ts, e) := scan_lines rest read_err in
            (dropCR p :: ts, e)
        end
  end.

Definition Scanner (data : string) (read_err : option error)
  : list string * option error :=
  scan_lines (Split data LF) read_err.

End Bufio.

(* ------------------------------------------------------------------ *)
(** ** The program *)
(* ------------------------------------------------------------------ *)

Module Backup.

Import GoTime.

Definition nl : string := str1 LF.

Definition apigeeBackupDir : string := "/tmp/apigee_backup".
Definition defaultRetentionDays : Z := 7.
Definition logFilePath : string := "/var/log/apigee.log".
Definition maxLogFileSize : Z := 10 * 1024 * 1024.

(** The package-level variables, set once by [main] before anything reads
    them; the functions that read them take them as an argument here. *)
Record Globals : Type := mkGlobals {
  webhookURL : string;
  tagIDs : list string;
  workspaceWebhookURL : string
}.

Record ProjectStatus : Type := mkProjectStatus {
  Project : string;
  Status : string;
  Reason : string
}.

(** The command-line flags after [flag.Parse]. *)
Record Flags : Type := mkFlags {
  projectFile : string;
  gcsBucket : string;
  token : string;
  retentionDays : Z;
  webhook : string;
  tagid : string;
  workspaceWebhook : string
}.

(** Go's [int] is 64 bits wide; negation wraps at the lower end. *)
Definition wrap64 (z : Z) : Z := (z + 2 ^ 63) mod 2 ^ 64 - 2 ^ 63.
Definition neg64 (z : Z) : Z := wrap64 (- z).

(** [%d]. *)
Definition itoa (z : Z) : string := appendInt z 0.

Definition IsNotExist (r : StatResult) : bool :=
  match r with StatNotExist => true | _ => false end.

Definition simple_cmd (name : string) (args : list string) : Cmd :=
  mkCmd name args EmptyString.

(** *** [readProjectFile] *)

Fixpoint read_loop (tokens : list string) (projects : list string)
  : list string :=
  match tokens with
  | [] => projects
  | t :: rest =>
      let project := TrimSpace t in
      if negb (is_empty project)
      then read_loop rest (projects ++ [project])%list
      else read_loop rest projects
  end.

Definition readProjectFile (filePath : string)
  : M (list string * option error) :=
  file <- os_Open filePath ;;
  match file with
  | OpenErr err => ret ([], Some err)
  | Opened data read_err =>
      let '(tokens, scan_err) := Bufio.Scanner data read_err in
      let projects := read_loop tokens [] in
      match scan_err with
      | Some err => ret ([], Some err)
      | None => ret (projects, None)
      end
  end.

(** *** [parseError] *)

Definition as_object (v : option Json.value)
  : option (list (string * Json.value)) :=
  match v with Some (Json.Object m) => Some m | _ => None end.

Definition as_string (v : option Json.value) : option string :=
  match v with Some (Json.Str s) => Some s | _ => None end.

Definition unauthorized : string :=
  "Unauthorized - the client must authenticate itself".

Definition precondition_message : string :=
  "FAILED_PRECONDITION - Continuing without interrupting the process".

(** The two early returns inside the [err == nil] block; [None] when
    control falls out of the block. *)
Definition parseError_structured (stderr : string) : option string :=
  match Json.Unmarshal stderr with
  | Some parsedError =>
      match as_object (Json.lookup "error" parsedError) with
      | Some errorInfo =>
          if match as_string (Json.lookup "status" errorInfo) with
             | Some status => String.eqb status "FAILED_PRECONDITION"
             | None => false
             end
          then Some precondition_message
          else as_string (Json.lookup "message" errorInfo)
      | None => None
      end
  | None => None
  end.

Definition parseError (stderr : string) : string :=
  match parseError_structured stderr with
  | Some message => message
  | None =>
      if Contains stderr unauthorized then unauthorized else stderr
  end.

(** *** Notifications *)

Definition default_reason (reason : string) : string :=
  if is_empty reason then "no issue" else reason.

(** The embed [sendDiscordNotification] builds once [reason] is settled. *)
Definition discord_message (g : Globals)
           (project date status reason : string) : Payload :=
  let content :=
    "**" ++ project ++ "** (`apigee-" ++ project ++ "`) - " ++ status in
  let content :=
    if negb (is_empty reason)
    then content ++ nl ++ "Reason: " ++ reason else content in
  let content :=
    match tagIDs g with
    | [] => content
    | _ =>
        let tags := map (fun id => "<@" ++ id ++ ">") (tagIDs g) in
        content ++ nl ++ nl ++ Join tags " "
    end in
  DiscordMessage ("Apigee Backup Notification " ++ date) content
                 16711680 "Note : Project - Apigee - Status".

Definition sendDiscordNotification (g : Globals)
           (project date status reason : string) : M unit :=
  if is_empty (webhookURL g) then ret tt
  else
    let reason := default_reason reason in
    let message := discord_message g project date status reason in
    resp <- http_Post (webhookURL g) message ;;
    match resp with
    | HttpErr err =>
        log_Printf ("Failed to send Discord notification: " ++ err ++ nl)
    | HttpStatus code =>
        if negb (code =? 204)
        then log_Printf
               ("Failed to send Discord notification, received status code: "
                ++ itoa code ++ nl)
        else ret tt
    end.

(** The text [sendWorkspaceNotification] builds at time [now]. *)
Definition workspace_message (now : Time)
           (project dataset status reason : string) : Payload :=
  WorkspaceMessage
    ("*Apigee Daily Backup " ++ Format now ++ "*" ++ nl ++ nl
     ++ "*| `Project` | `Apigee-Orgs` | `Status` | `Reason` |*" ++ nl
     ++ "|---|---|---|" ++ nl
     ++ "| `" ++ project ++ "` | `" ++ dataset ++ "` | `" ++ status
     ++ "` | `" ++ reason ++ "` |").

Definition sendWorkspaceNotification (g : Globals)
           (project dataset status reason : string) : M unit :=
  if is_empty (workspaceWebhookURL g) then ret tt
  else
    let reason := default_reason reason in
    now <- time_Now ;;
    let message := workspace_message now project dataset status reason in
    resp <- http_Post (workspaceWebhookURL g) message ;;
    match resp with
    | HttpErr err =>
        log_Printf
          ("Failed to send Google Workspace notification: " ++ err ++ nl)
    | HttpStatus code =>
        if negb (code =? 200)
        then log_Printf
               ("Failed to send Google Workspace notification, received status code: "
                ++ itoa code ++ nl)
        else ret tt
    end.

Definition discord_summary_line (content : string) (status : ProjectStatus)
  : string :=
  content ++ nl ++ "* **" ++ Project status ++ "** - " ++ Status status
  ++ " (`" ++ Reason status ++ "`)".

Definition workspace_summary_line (content : string) (status : ProjectStatus)
  : string :=
  content ++ "| `" ++ Project status ++ "` | `" ++ Status status
  ++ "` | `" ++ Reason status ++ "` |" ++ nl.

(** The Workspace half of [sendFinalNotification]. *)
Definition sendFinalWorkspace (g : Globals) (date : string)
           (statuses : list ProjectStatus) : M unit :=
  if negb (is_empty (workspaceWebhookURL g)) then
    let content :=
      fold_left workspace_summary_line statuses
        ("*Apigee Daily Backup Summary " ++ date ++ "*" ++ nl ++ nl
         ++ "*| `Project` | `Status` | `Reason` |*" ++ nl
         ++ "|---|---|---|" ++ nl) in
    resp <- http_Post (workspaceWebhookURL g) (WorkspaceMessage content) ;;
    match resp with
    | HttpErr err =>
        log_Printf
          ("Failed to send final Google Workspace notification: "
           ++ err ++ nl)
    | HttpStatus code =>
        if negb (code =? 200)
        then log_Printf
               ("Failed to send final Google Workspace notification, received status code: "
                ++ itoa code ++ nl)
        else ret tt
    end
  else ret tt.

(** A failed Discord post returns from the whole function: the Workspace
    summary is then not sent. *)
Definition sendFinalNotification (g : Globals)
           (statuses : list ProjectStatus) : M unit :=
  now <- time_Now ;;
  let date := Format now in
  if negb (is_empty (webhookURL g)) then
    let content :=
      fold_left discord_summary_line statuses
        ("**Apigee Backup Summary " ++ date ++ "**") in
    let message :=
      DiscordMessage ("Apigee Backup Summary " ++ date) content
                     65280 "Note : Project - Status - Reason" in
    resp <- http_Post (webhookURL g) message ;;
    match resp with
    | HttpErr err =>
        log_Printf
          ("Failed to send final Discord notification: " ++ err ++ nl)
    | HttpStatus code =>
        (if negb (code =? 204)
         then log_Printf
                ("Failed to send final Discord notification, received status code: "
                 ++ itoa code ++ nl)
         else ret tt) ;;
        sendFinalWorkspace g date statuses
    end
  else sendFinalWorkspace g date statuses.

(** *** Logging set-up *)

Definition rotated_log (i : Z) : string :=
  "/var/log/apigee" ++ itoa i ++ ".zip".

(** The loop of [rotateLogs], for [i] from 9 down to 1. *)
Fixpoint rotate_from (i : nat) : M unit :=
  match i with
  | O => ret tt
  | S i' =>
      let oldLog := rotated_log (Z.of_nat i) in
      let newLog := rotated_log (Z.of_nat i + 1) in
      st <- os_Stat oldLog ;;
      (match st with
       | StatOk _ => _ <- os_Rename oldLog newLog ;; ret tt
       | _ => ret tt
       end) ;;
      rotate_from i'
  end.

Definition rotateLogs : M unit :=
  rotate_from 9 ;;
  _ <- exec_Run (simple_cmd "zip" ["-r"; "/var/log/apigee1.zip"; logFilePath]) ;;
  _ <- os_Remove logFilePath ;;
  ret tt.

Definition setupLogging : M unit :=
  opened <- os_OpenFile logFilePath ;;
  match opened with
  | Some err =>
      fmt_Print ("Failed to open log file: " ++ err ++ nl) ;;
      exit 1
  | None =>
      stat <- os_Stat logFilePath ;;
      match stat with
      | StatOk size =>
          if maxLogFileSize <=? size then rotateLogs else ret tt
      | _ => ret tt
      end
  end.

(** *** The bucket: probe, upload, retention *)

(** The commands, as [exec.Command] receives them. *)
Definition probe_cmd (gcsBucket date env : string) : Cmd :=
  simple_cmd "gsutil"
    ["ls"; "gs://" ++ gcsBucket ++ "/" ++ env ++ "/" ++ date ++ "/"].

Definition upload_dest (gcsBucket sourceFile env : string) : string :=
  "gs://" ++ gcsBucket ++ "/" ++ env ++ "/" ++ FilePath.Base sourceFile.

Definition upload_cmd (gcsBucket sourceFile env : string) : Cmd :=
  simple_cmd "gsutil"
    ["cp"; sourceFile; upload_dest gcsBucket sourceFile env].

Definition listing_cmd (gcsBucket env : string) : Cmd :=
  simple_cmd "gsutil" ["ls"; "gs://" ++ gcsBucket ++ "/" ++ env ++ "/"].

Definition delete_cmd (line : string) : Cmd :=
  simple_cmd "gsutil" ["rm"; line].

Definition zip_cmd (sourceDir zipFile : string) : Cmd :=
  mkCmd "zip" ["-r"; zipFile; "."; "-i"; "*"] sourceDir.

Definition backupExistsInGCS (gcsBucket date env : string) : M bool :=
  r <- exec_Run (probe_cmd gcsBucket date env) ;;
  ret (match cmd_err r with None => true | Some _ => false end).

Definition uploadToGCS (gcsBucket sourceFile env : string)
  : M (option error) :=
  r <- exec_Run (upload_cmd gcsBucket sourceFile env) ;;
  ret (cmd_err r).

Definition zipFolder (sourceDir zipFile : string) : M (option error) :=
  r <- exec_Run (zip_cmd sourceDir zipFile) ;;
  ret (cmd_err r).

(** The text of the [*time.ParseError]; what follows the quoted value (which
    element of the layout did not match) is left out. *)
Definition parse_error (value : string) : error :=
  "parsing time " ++ quoted value.

(** The slice bounds are computed from lengths alone; when the base name is
    shorter than prefix plus suffix the slice expression panics. *)
Definition isOlderThanRetention (gcsPath : string) (cutoffDate : Time)
           (env : string) : M bool :=
  let base := FilePath.Base gcsPath in
  match slice base (len ("backup_" ++ env ++ "_")) (len base - len ".zip") with
  | None => panic "slice bounds out of range"
  | Some dateStr =>
      match Parse dateStr with
      | None =>
          log_Printf ("Failed to parse date from path " ++ gcsPath ++ ": "
                      ++ parse_error dateStr ++ nl) ;;
          ret false
      | Some backupDate => ret (Before backupDate cutoffDate)
      end
  end.

(** The loop of [cleanupOldBackups] over the lines of the listing. *)
Fixpoint cleanup_loop (lines : list string) (cutoffDate : Time)
         (env : string) : M unit :=
  match lines with
  | [] => ret tt
  | line :: rest =>
      (if is_empty line then ret tt
       else
         old <- isOlderThanRetention line cutoffDate env ;;
         if old then
           r <- exec_Run (delete_cmd line) ;;
           match cmd_err r with
           | Some err =>
               log_Printf ("Failed to delete old backup " ++ line ++ ": "
                           ++ err ++ nl)
           | None => log_Printf ("Deleted old backup " ++ line ++ nl)
           end
         else ret tt) ;;
      cleanup_loop rest cutoffDate env
  end.

Definition cleanupOldBackups (gcsBucket : string) (retentionDays : Z)
           (env : string) : M (option error) :=
  r <- exec_Run (listing_cmd gcsBucket env) ;;
  match cmd_err r with
  | Some err => ret (Some ("failed to list GCS bucket: " ++ err))
  | None =>
      now <- time_Now ;;
      let cutoffDate := AddDate now 0 0 (neg64 retentionDays) in
      let lines := Split (cmd_stdout r) LF in
      cleanup_loop lines cutoffDate env ;;
      ret None
  end.

(** *** [backupProject] *)

Definition failed (status : ProjectStatus) (reason : string)
  : ProjectStatus :=
  mkProjectStatus (Project status) "Failed" reason.

(** A failing step that is logged and ends the project without any
    notification. *)
Definition fail_with (status : ProjectStatus) (what err : string)
  : M ProjectStatus :=
  log_Printf (what ++ ": " ++ err ++ nl) ;;
  ret (failed status (what ++ ": " ++ err)).

(** From the zip step to the end of [backupProject]. *)
Definition archive_upload_sweep (g : Globals) (status : ProjectStatus)
           (project gcsBucket : string) (retentionDays : Z)
           (today dateFolder exportFolder : string) : M ProjectStatus :=
  let ENV := project in
  let zipFile :=
    FilePath.Join [dateFolder; "backup_" ++ ENV ++ "_" ++ today ++ ".zip"] in
  zerr <- zipFolder exportFolder zipFile ;;
  match zerr with
  | Some err => fail_with status "Failed to zip folder" err
  | None =>
      uerr <- uploadToGCS gcsBucket zipFile ENV ;;
      match uerr with
      | Some err => fail_with status "Failed to upload backup to GCS" err
      | None =>
          sendDiscordNotification g project today "Complete" "no issue" ;;
          sendWorkspaceNotification g project ("apigee-" ++ project)
                                    "Complete" "no issue" ;;
          cerr <- cleanupOldBackups gcsBucket retentionDays ENV ;;
          match cerr with
          | Some err => fail_with status "Failed to clean up old backups" err
          | None => ret status
          end
      end
  end.

Definition export_cmd (exportFolder project token : string) : Cmd :=
  simple_cmd "bash"
    ["-c"; "cd " ++ exportFolder ++ " && apigeecli organizations export --all -o "
           ++ project ++ " -t " ++ token].

(** From the creation of the date folder to the end of [backupProject]. *)
Definition export_and_after (g : Globals) (status : ProjectStatus)
           (project gcsBucket token : string) (retentionDays : Z)
           (today : string) : M ProjectStatus :=
  let dateFolder := FilePath.Join [apigeeBackupDir; today] in
  derr <- os_MkdirAll dateFolder ;;
  match derr with
  | Some err => fail_with status "Failed to create date folder" err
  | None =>
  let exportFolder := FilePath.Join [apigeeBackupDir; "export"] in
  eerr <- os_MkdirAll exportFolder ;;
  match eerr with
  | Some err => fail_with status "Failed to create export folder" err
  | None =>
  r <- exec_Run (export_cmd exportFolder project token) ;;
  match cmd_err r with
  | Some err =>
      log_Printf ("Failed to execute apigeecli command: " ++ err ++ nl) ;;
      let errorMessage := parseError (cmd_stderr r) in
      if negb (Contains errorMessage "FAILED_PRECONDITION") then
        sendDiscordNotification g project today "Failed" errorMessage ;;
        sendWorkspaceNotification g project ("apigee-" ++ project)
                                  "Failed" errorMessage ;;
        ret (failed status errorMessage)
      else
        log_Printf ("Continuing despite FAILED_PRECONDITION error: "
                    ++ errorMessage ++ nl) ;;
        archive_upload_sweep g status project gcsBucket retentionDays
                             today dateFolder exportFolder
  | None =>
      archive_upload_sweep g status project gcsBucket retentionDays
                           today dateFolder exportFolder
  end
  end end.

Definition backupProject (g : Globals) (project gcsBucket token : string)
           (retentionDays : Z) : M ProjectStatus :=
  let status := mkProjectStatus project "Complete" "no issue" in
  let ENV := project in
  st <- os_Stat apigeeBackupDir ;;
  rerr <- (if negb (IsNotExist st) then os_RemoveAll apigeeBackupDir
           else ret None) ;;
  match rerr with
  | Some err =>
      fail_with status "Failed to delete existing backup directory" err
  | None =>
  merr <- os_MkdirAll apigeeBackupDir ;;
  match merr with
  | Some err => fail_with status "Failed to create backup directory" err
  | None =>
  now <- time_Now ;;
  let today := Format now in
  found <- backupExistsInGCS gcsBucket today ENV ;;
  if found then
    log_Printf ("Backup for " ++ today
                ++ " already exists in GCS. Skipping new backup." ++ nl) ;;
    ret status
  else
    export_and_after g status project gcsBucket token retentionDays today
  end end.

(** *** [main] *)

(** The loop of [main] over the projects. *)
Fixpoint main_loop (g : Globals) (projects : list string)
         (gcsBucket token : string) (retentionDays : Z)
         (statuses : list ProjectStatus) : M (list ProjectStatus) :=
  match projects with
  | [] => ret statuses
  | project :: rest =>
      status <- backupProject g project gcsBucket token retentionDays ;;
      main_loop g rest gcsBucket token retentionDays
                (statuses ++ [status])%list
  end.

Definition usage : string :=
  "Usage: ./apigee_backup -f PROJECT_FILE --gcs=GCS_BUCKET --token=AUTH_TOKEN --retention=RETENTION_DAYS [--webhook=WEBHOOK_URL] [--tagid=TAG_IDS] [--workspace=WORKSPACE_WEBHOOK_URL]".

(** [main] after [flag.Parse]; the result is the list of statuses the
    summary was built from. *)
Definition main (f : Flags) : M (list ProjectStatus) :=
  if is_empty (projectFile f) || is_empty (gcsBucket f) || is_empty (token f)
  then fmt_Print (usage ++ nl) ;; exit 1
  else
    let g := mkGlobals (webhook f)
               (if negb (is_empty (tagid f)) then Split (tagid f) "," else [])
               (workspaceWebhook f) in
    setupLogging ;;
    read <- readProjectFile (projectFile f) ;;
    match snd read with
    | Some err =>
        log_Printf ("Failed to read project file: " ++ err ++ nl) ;;
        exit 1
    | None =>
        statuses <- main_loop g (fst read) (gcsBucket f) (token f)
                              (retentionDays f) [] ;;
        sendFinalNotification g statuses ;;
        ret statuses
    end.

End Backup.

(* ------------------------------------------------------------------ *)
(** ** Vocabulary of the specification *)
(* ------------------------------------------------------------------ *)

Module Spec.

Import GoTime Backup.

(** The byte string [u] holds no carriage return. *)
Fixpoint has_no_CR (u : string) : bool :=
  match u with
  | EmptyString => true
  | String a u' => negb (Ascii.eqb a CR) && has_no_CR u'
  end.

(** The byte string holds a path separator. *)
Fixpoint has_sep (s : string) : bool :=
  match s with
  | EmptyString => false
  | String c s' => FilePath.is_sep c || has_sep s'
  end.

(** *** Computations *)

(** Every event a computation adds satisfies [P], whatever the world. *)
Definition emits {A} (P : Event -> Prop) (m : M A) : Prop :=
  forall w h, Forall P (snd (m w h)).

(** *** Project list *)

(** The lines of a file are the stretches between its newlines. The list
    the specification asks for: every line trimmed, the blank ones left out,
    in the order of the file. *)
Definition trimmed_nonblank_lines (data : string) : list string :=
  filter (fun l => negb (is_empty l)) (map TrimSpace (Split data LF)).

Definition short_line (l : string) : Prop := len l < Bufio.MaxScanTokenSize.

(** The file cannot be opened, or reading it fails. *)
Definition unreadable (r : OpenResult) : Prop :=
  match r with
  | OpenErr _ => True
  | Opened _ (Some _) => True
  | Opened _ None => False
  end.

(** Some line of the file does not fit the scanner's buffer. *)
Definition has_long_line (r : OpenResult) : Prop :=
  match r with
  | OpenErr _ => False
  | Opened data _ =>
      Exists (fun l => Bufio.MaxScanTokenSize <= len l) (Split data LF)
  end.

(** *** Error classifier *)

Definition sentinel : string := "FAILED_PRECONDITION".

(** The text parses as a structured error object: a JSON object whose
    [error] member is itself an object, the one returned here. *)
Definition structured_error (stderr : string)
  : option (list (string * Json.value)) :=
  match Json.Unmarshal stderr with
  | Some parsed => as_object (Json.lookup "error" parsed)
  | None => None
  end.

(** A field of the error object that holds a string. *)
Definition field (info : list (string * Json.value)) (name : string)
  : option string :=
  as_string (Json.lookup name info).

(** Neither of the first two cases of the classifier applies. *)
Definition no_structured_message (stderr : string) : Prop :=
  forall info,
    structured_error stderr = Some info ->
    field info "status" <> Some sentinel /\ field info "message" = None.

(** *** What a run did, read off its events *)

Definition runs (name : string) (e : Event) : bool :=
  match e with
  | EExec c _ => String.eqb (cmd_name c) name
  | _ => false
  end.

Definition runs_gsutil (verb : string) (e : Event) : bool :=
  match e with
  | EExec c _ =>
      String.eqb (cmd_name c) "gsutil"
      && match cmd_args c with
         | v :: _ => String.eqb v verb
         | [] => false
         end
  | _ => false
  end.

(** The export tool is the only thing run through [bash], the archiver is
    [zip], uploads are [gsutil cp], deletions [gsutil rm]. *)
Definition is_export : Event -> bool := runs "bash".
Definition is_archive : Event -> bool := runs "zip".
Definition is_upload : Event -> bool := runs_gsutil "cp".
Definition is_delete : Event -> bool := runs_gsutil "rm".

Definition is_post (e : Event) : bool :=
  match e with EPost _ _ _ => true | _ => false end.

(** *** Retention *)

(** The base name of [line] is long enough to hold the prefix
    [backup_<env>_] and the suffix [.zip]: the slice bounds are in order. *)
Definition long_enough (env line : string) : bool :=
  len ("backup_" ++ env ++ "_") <=? len (FilePath.Base line) - len ".zip".

(** The date [isOlderThanRetention] reads from a listed line: the bytes of
    the base name between the prefix length and the last four, parsed. *)
Definition embedded_date (env line : string) : option Time :=
  let base := FilePath.Base line in
  match slice base (len ("backup_" ++ env ++ "_")) (len base - len ".zip") with
  | Some dateStr => Parse dateStr
  | None => None
  end.

(** The embedded date parses and is strictly before the cut-off. *)
Definition expired (env : string) (cutoff : Time) (line : string) : bool :=
  match embedded_date env line with
  | Some t => Before t cutoff
  | None => false
  end.

(** *** The shapes a run of [backupProject] can take

    Each shape lists the events of one path through the function and the
    outcome that path ends with. Log texts are left open. *)

Definition reset_event (e : Event) : Prop :=
  match e with
  | EStat _ _ | ERemoveAll _ _ | EMkdirAll _ _ => True
  | _ => False
  end.

(** Events of the retention loop: deletions and log lines. *)
Definition sweep_event (e : Event) : Prop :=
  match e with
  | EExec c _ => exists line, c = delete_cmd line
  | ELog _ => True
  | _ => False
  end.

(** Events of the notification functions: a post goes to a configured sink
    only. *)
Definition notify_event (g : Globals) (e : Event) : Prop :=
  match e with
  | EPost url _ _ =>
      is_empty url = false
      /\ (url = webhookURL g \/ url = workspaceWebhookURL g)
  | ENow _ | ELog _ => True
  | _ => False
  end.

(** The events [n] are those of one per-project notification: each
    configured sink was posted the message for [status] and [reason]. *)
Definition notified (g : Globals) (project today status reason : string)
           (n : list Event) : Prop :=
  Forall (notify_event g) n
  /\ (is_empty (webhookURL g) = false ->
      exists resp,
        In (EPost (webhookURL g)
                  (discord_message g project today status
                                   (default_reason reason)) resp) n)
  /\ (is_empty (workspaceWebhookURL g) = false ->
      exists now resp,
        In (EPost (workspaceWebhookURL g)
                  (workspace_message now project ("apigee-" ++ project)
                                     status (default_reason reason)) resp) n).

(** What [cleanupOldBackups] may emit: its listing, the clock, and the
    events of the sweep. *)
Definition cleanup_event (gcsBucket env : string) (e : Event) : Prop :=
  match e with
  | EExec c _ =>
      c = listing_cmd gcsBucket env \/ exists line, c = delete_cmd line
  | ENow _ | ELog _ => True
  | _ => False
  end.

Definition staging_export : string :=
  FilePath.Join [apigeeBackupDir; "export"].

Definition staging_date (today : string) : string :=
  FilePath.Join [apigeeBackupDir; today].

Definition archive_path (project today : string) : string :=
  FilePath.Join [staging_date today;
                 "backup_" ++ project ++ "_" ++ today ++ ".zip"].

Definition slice_panic : string := "slice bounds out of range".

Section Shapes.

Variable g : Globals.
Variables project gcsBucket token : string.

Let status : ProjectStatus := mkProjectStatus project "Complete" "no issue".

(** Step 7, the retention sweep, to the end of the function. *)
Inductive retention_shape : Outcome ProjectStatus -> list Event -> Prop :=
| retention_listing_failed (lr : CmdResult) (e : error) (msg : string) :
    cmd_err lr = Some e ->
    retention_shape
      (Ret (failed status ("Failed to clean up old backups: "
                           ++ "failed to list GCS bucket: " ++ e)))
      [EExec (listing_cmd gcsBucket project) lr; ELog msg]
| retention_swept (lr : CmdResult) (now : Time) (sweep : list Event) :
    cmd_err lr = None ->
    Forall sweep_event sweep ->
    retention_shape (Ret status)
      (EExec (listing_cmd gcsBucket project) lr :: ENow now :: sweep)
| retention_panicked (lr : CmdResult) (now : Time) (sweep : list Event) :
    cmd_err lr = None ->
    Forall sweep_event sweep ->
    retention_shape (Panic slice_panic)
      (EExec (listing_cmd gcsBucket project) lr :: ENow now :: sweep).

(** Steps 4 to 7: archive, upload, success notification, retention. *)
Inductive archive_shape (today : string)
  : Outcome ProjectStatus -> list Event -> Prop :=
| archive_failed (zr : CmdResult) (err : error) (msg : string) :
    cmd_err zr = Some err ->
    archive_shape today
      (Ret (failed status ("Failed to zip folder: " ++ err)))
      [EExec (zip_cmd staging_export (archive_path project today)) zr;
       ELog msg]
| upload_failed (zr ur : CmdResult) (err : error) (msg : string) :
    cmd_err zr = None ->
    cmd_err ur = Some err ->
    archive_shape today
      (Ret (failed status ("Failed to upload backup to GCS: " ++ err)))
      [EExec (zip_cmd staging_export (archive_path project today)) zr;
       EExec (upload_cmd gcsBucket (archive_path project today) project) ur;
       ELog msg]
| uploaded (zr ur : CmdResult) (n cl : list Event)
           (out : Outcome ProjectStatus) :
    cmd_err zr = None ->
    cmd_err ur = None ->
    notified g project today "Complete" "no issue" n ->
    retention_shape out cl ->
    archive_shape today out
      (EExec (zip_cmd staging_export (archive_path project today)) zr
       :: EExec (upload_cmd gcsBucket (archive_path project today) project) ur
       :: n ++ cl)%list.

(** Step 3, the export, and what follows it. *)
Inductive export_shape (today : string)
  : Outcome ProjectStatus -> list Event -> Prop :=
| date_folder_failed (err : error) (msg : string) :
    export_shape today
      (Ret (failed status ("Failed to create date folder: " ++ err)))
      [EMkdirAll (staging_date today) (Some err); ELog msg]
| export_folder_failed (err : error) (msg : string) :
    export_shape today
      (Ret (failed status ("Failed to create export folder: " ++ err)))
      [EMkdirAll (staging_date today) None;
       EMkdirAll staging_export (Some err); ELog msg]
| export_succeeded (r : CmdResult) (out : Outcome ProjectStatus)
                   (rest : list Event) :
    cmd_err r = None ->
    archive_shape today out rest ->
    export_shape today out
      (EMkdirAll (staging_date today) None
       :: EMkdirAll staging_export None
       :: EExec (export_cmd staging_export project token) r
       :: rest)
| export_failed (r : CmdResult) (err : error) (msg : string)
                (n : list Event) :
    cmd_err r = Some err ->
    Contains (parseError (cmd_stderr r)) "FAILED_PRECONDITION" = false ->
    notified g project today "Failed" (parseError (cmd_stderr r)) n ->
    export_shape today
      (Ret (failed status (parseError (cmd_stderr r))))
      (EMkdirAll (staging_date today) None
       :: EMkdirAll staging_export None
       :: EExec (export_cmd staging_export project token) r
       :: ELog msg :: n)
| export_precondition (r : CmdResult) (err : error) (msg1 msg2 : string)
                      (out : Outcome ProjectStatus) (rest : list Event) :
    cmd_err r = Some err ->
    Contains (parseError (cmd_stderr r)) "FAILED_PRECONDITION" = true ->
    archive_shape today out rest ->
    export_shape today out
      (EMkdirAll (staging_date today) None
       :: EMkdirAll staging_export None
       :: EExec (export_cmd staging_export project token) r
       :: ELog msg1 :: ELog msg2 :: rest).

(** The whole function: workspace reset, duplicate check, and the rest. *)
Inductive run_shape : Outcome ProjectStatus -> list Event -> Prop :=
| reset_failed (pre : list Event) (reason msg : string) :
    Forall reset_event pre ->
    run_shape (Ret (failed status reason)) (pre ++ [ELog msg])%list
| skipped (pre : list Event) (now : Time) (r : CmdResult) (msg : string) :
    Forall reset_event pre ->
    cmd_err r = None ->
    run_shape (Ret status)
      (pre ++ [ENow now;
               EExec (probe_cmd gcsBucket (Format now) project) r;
               ELog msg])%list
| attempted (pre : list Event) (now : Time) (r : CmdResult) (err : error)
            (out : Outcome ProjectStatus) (rest : list Event) :
    Forall reset_event pre ->
    cmd_err r = Some err ->
    export_shape (Format now) out rest ->
    run_shape out
      (pre ++ ENow now
           :: EExec (probe_cmd gcsBucket (Format now) project) r
           :: rest)%list.

End Shapes.

(** *** What the specification says about the events of a run *)

(** No export, no archive, no upload and no post. *)
Definition idle_event (e : Event) : Prop :=
  is_export e = false /\ is_archive e = false
  /\ is_upload e = false /\ is_post e = false.

(** Processing went on to the archive and upload steps: the archiver was
    run, and where it succeeded the upload was run. *)
Definition continues_to_archive (es : list Event) : Prop :=
  (exists e, In e es /\ is_archive e = true)
  /\ (forall c r,
         In (EExec c r) es -> cmd_name c = "zip" -> cmd_err r = None ->
         exists e, In e es /\ is_upload e = true).

(** Both configured sinks were posted the message for [status] and
    [reason] of [project]. *)
Definition posted_to_sinks (g : Globals) (project status reason : string)
           (es : list Event) : Prop :=
  (is_empty (webhookURL g) = false ->
   exists today resp,
     In (EPost (webhookURL g)
               (discord_message g project today status
                                (default_reason reason)) resp) es)
  /\ (is_empty (workspaceWebhookURL g) = false ->
      exists now resp,
        In (EPost (workspaceWebhookURL g)
                  (workspace_message now project ("apigee-" ++ project)
                                     status (default_reason reason)) resp) es).

(** No event is the probe of some date. *)
Definition no_probe (gcsBucket env : string) (e : Event) : Prop :=
  forall date r, e <> EExec (probe_cmd gcsBucket date env) r.

(** The run ends with the failed listing [r] of the sweep and a log line,
    after both sinks were posted [Complete]; the outcome is [Failed] with
    the listing error as reason. *)
Definition downgraded (g : Globals) (project gcsBucket : string)
           (r : CmdResult) (e : error)
           (out : Outcome ProjectStatus) (es : list Event) : Prop :=
  out = Ret (mkProjectStatus project "Failed"
               ("Failed to clean up old backups: "
                ++ "failed to list GCS bucket: " ++ e))
  /\ exists before msg,
       es = (before ++ [EExec (listing_cmd gcsBucket project) r; ELog msg])%list
       /\ posted_to_sinks g project "Complete" "no issue" before.

(** The lines a run asked the storage tool to delete, in order. *)
Fixpoint deleted (es : list Event) : list string :=
  match es with
  | [] => []
  | EExec (mkCmd name [verb; line] _) _ :: rest =>
      if String.eqb name "gsutil" && String.eqb verb "rm"
      then line :: deleted rest else deleted rest
  | _ :: rest => deleted rest
  end.

End Spec.

(* ------------------------------------------------------------------ *)
(** ** Concrete worlds for the examples *)
(* ------------------------------------------------------------------ *)

Module Examples.

Import GoTime Backup.

Fixpoint replicate (n : nat) (c : ascii) : string :=
  match n with
  | O => EmptyString
  | S n' => String c (replicate n' c)
  end.

Definition succeeded : CmdResult := mkCmdResult EmptyString EmptyString None.

Definition exit_status_1 (stderr : string) : CmdResult :=
  mkCmdResult EmptyString stderr (Some "exit status 1").

(** A world with an empty staging area where directories can be made, the
    project file holds [file], commands answer by [exec], both sinks accept
    every post, and the clock stands at [now]. *)
Definition still_world (file : OpenResult)
           (exec : list Event -> Cmd -> CmdResult) (now : Time) : World :=
  mkWorld (fun _ _ => StatNotExist)
          (fun _ _ => None) (fun _ _ => None) (fun _ _ => None)
          (fun _ _ _ => None) (fun _ _ => None)
          (fun _ _ => file)
          exec
          (fun _ url _ => HttpStatus (if HasPrefix url "https://discord" then 204 else 200))
          (fun _ => now).

(** Noon UTC on 2024-03-01. *)
Definition noon_2024_03_01 : Time := mkTime 1709294400 0 0.

(** A project file with a line of 65536 bytes. *)
Definition long_line : string := replicate (Z.to_nat 65536) "a".

Definition two_projects : string :=
  "  proj-a " ++ str1 CR ++ str1 LF ++ str1 LF ++ "proj-b" ++ str1 LF
  ++ "proj-a".

(** Commands answer as on a bucket [b] whose folder [p/] lists as
    [listing] and holds no folder for any date: the probe finds nothing,
    the listing of the sweep succeeds, everything else succeeds silently. *)
Definition listing_exec (listing : string) : list Event -> Cmd -> CmdResult :=
  fun _ c =>
    match cmd_args c with
    | [verb; url] =>
        if String.eqb verb "ls" then
          if String.eqb url "gs://b/p/"
          then mkCmdResult listing EmptyString None
          else exit_status_1
                 "CommandException: One or more URLs matched no objects."
        else succeeded
    | _ => succeeded
    end.

(** The folder [p/] holds its own placeholder object (what creating a
    folder in the console leaves behind) and a backup from 2020. *)
Definition placeholder_listing : string :=
  "gs://b/p/" ++ str1 LF ++ "gs://b/p/backup_p_2020-01-01.zip" ++ str1 LF.

Definition placeholder_world : World :=
  still_world (Opened ("p" ++ str1 LF ++ "q" ++ str1 LF) None)
              (listing_exec placeholder_listing) noon_2024_03_01.

Definition no_sinks : Globals := mkGlobals EmptyString [] EmptyString.

Definition both_sinks : Globals :=
  mkGlobals "https://discord.example/hook" ["42"] "https://chat.example/hook".

(** The export tool fails with [stderr]; the bucket is as in
    [listing_exec] with nothing listed. *)
Definition export_fails_exec (stderr : string)
  : list Event -> Cmd -> CmdResult :=
  fun h c =>
    if String.eqb (cmd_name c) "bash" then exit_status_1 stderr
    else listing_exec EmptyString h c.

(** Every listing fails: the probe finds nothing and the sweep cannot list. *)
Definition no_listing_exec : list Event -> Cmd -> CmdResult :=
  fun _ c =>
    match cmd_args c with
    | verb :: _ =>
        if String.eqb verb "ls" then exit_status_1 "AccessDeniedException: 403"
        else succeeded
    | [] => succeeded
    end.

Definition one_project : OpenResult := Opened ("p" ++ str1 LF) None.

(** The scenario of two projects: [proj-a] already has a folder for today,
    [proj-b] has not and its folder lists nothing. *)
Definition two_project_exec : list Event -> Cmd -> CmdResult :=
  fun _ c =>
    match cmd_args c with
    | [verb; url] =>
        if String.eqb verb "ls" then
          if String.eqb url "gs://b/proj-a/2024-03-01/"
             || String.eqb url "gs://b/proj-b/"
          then succeeded
          else exit_status_1
                 "CommandException: One or more URLs matched no objects."
        else succeeded
    | _ => succeeded
    end.

Definition two_project_world : World :=
  still_world (Opened ("proj-a" ++ str1 LF ++ "proj-b" ++ str1 LF) None)
              two_project_exec noon_2024_03_01.

(** The retention scenario: one archive two months old, one ten days old,
    one whose name holds no date. *)
Definition retention_listing : string :=
  "gs://b/proj-a/backup_proj-a_2024-01-01.zip" ++ str1 LF
  ++ "gs://b/proj-a/backup_proj-a_2024-02-20.zip" ++ str1 LF
  ++ "gs://b/proj-a/backup_proj-a_notadate1.zip" ++ str1 LF.

Definition retention_world : World :=
  still_world one_project
              (fun _ _ => mkCmdResult retention_listing EmptyString None)
              noon_2024_03_01.

(** Today's folder is found by the probe. *)
Definition found_world : World :=
  still_world one_project (fun _ _ => succeeded) noon_2024_03_01.

Definition export_fails_world (stderr : string) : World :=
  still_world one_project (export_fails_exec stderr) noon_2024_03_01.

Definition no_listing_world : World :=
  still_world one_project no_listing_exec noon_2024_03_01.

Definition the_export : Cmd :=
  export_cmd "/tmp/apigee_backup/export" "p" "token".

Definition flags : Flags :=
  mkFlags "projects.txt" "b" "token" 30 EmptyString EmptyString EmptyString.

(** *** A bucket that remembers what was uploaded

    The store is the list of object URLs. It starts as [init]; a successful
    [gsutil cp src dst] adds [dst], a successful [gsutil rm url] removes
    [url]. [gsutil ls url] lists the objects whose URL starts with [url] and
    fails when there is none. *)
Definition bucket_step (objs : list string) (e : Event) : list string :=
  match e with
  | EExec c r =>
      match cmd_err r with
      | Some _ => objs
      | None =>
          if String.eqb (cmd_name c) "gsutil" then
            match cmd_args c with
            | [verb; _; dst] =>
                if String.eqb verb "cp" then (objs ++ [dst])%list else objs
            | [verb; url] =>
                if String.eqb verb "rm"
                then filter (fun o => negb (String.eqb o url)) objs
                else objs
            | _ => objs
            end
          else objs
      end
  | _ => objs
  end.

Definition objects_after (init : list string) (h : list Event) : list string :=
  fold_left bucket_step h init.

Definition gsutil_ls (objs : list string) (url : string) : CmdResult :=
  match filter (fun o => HasPrefix o url) objs with
  | [] => exit_status_1
            "CommandException: One or more URLs matched no objects."
  | found =>
      mkCmdResult (fold_right (fun o out => o ++ str1 LF ++ out)
                              EmptyString found)
                  EmptyString None
  end.

Definition bucket_exec (init : list string) : list Event -> Cmd -> CmdResult :=
  fun h c =>
    if String.eqb (cmd_name c) "gsutil" then
      match cmd_args c with
      | [verb; url] =>
          if String.eqb verb "ls" then gsutil_ls (objects_after init h) url
          else succeeded
      | _ => succeeded
      end
    else succeeded.

(** An empty bucket [b], the clock at noon on 2024-03-01. *)
Definition empty_bucket_world : World :=
  still_world one_project (bucket_exec []) noon_2024_03_01.

(** Error streams of the export tool. *)
Definition precondition_payload : string :=
  "{" ++ quoted "error" ++ ":{" ++ quoted "status" ++ ":"
  ++ quoted "FAILED_PRECONDITION" ++ "}}".

Definition quota_payload : string :=
  "{" ++ quoted "error" ++ ":{" ++ quoted "message" ++ ":"
  ++ quoted "quota exceeded" ++ "}}".

Definition unauthorized_text : string :=
  "Error: Unauthorized - the client must authenticate itself (401)".

(** A structured error whose message is a number. *)
Definition numeric_message_payload : string :=
  "{" ++ quoted "error" ++ ":{" ++ quoted "message" ++ ":42}}".

Definition raw_precondition_text : string :=
  "Error: FAILED_PRECONDITION: nothing to export".

(** Plain text that names the sentinel and the unauthorized phrase. *)
Definition mixed_text : string :=
  "FAILED_PRECONDITION: Unauthorized - the client must authenticate itself".

End Examples.

(* ------------------------------------------------------------------ *)
(** ** Vocabulary for the rest of the program *)
(* ------------------------------------------------------------------ *)

Module Traces.

Import GoTime Backup Spec.

(** *** Dates *)

(** The decimal digit [k] as a byte. *)
Definition dig (k : Z) : ascii := ascii_of_nat (Z.to_nat (48 + k)).

(** The local year of [t] has four digits, so that the layout
    [2006-01-02] prints it in ten bytes. *)
Definition four_digit_year (t : Time) : bool :=
  let '(y, _, _) := Date_of t in (0 <=? y) && (y <=? 9999).

(** Midnight UTC of the local calendar day of [t]. *)
Definition day_start (t : Time) : Time :=
  mkTime ((sec t + offset t) / 86400 * 86400) 0 0.

(** The instant [days] times 24 hours before [t], in the location of [t]. *)
Definition days_before (days : Z) (t : Time) : Time :=
  mkTime (sec t - days * 86400) (nsec t) (offset t).

(** *** Exports *)

(** The commands run through [bash], in the order they were run. *)
Definition exported (es : list Event) : list Cmd :=
  flat_map (fun e => match e with
                     | EExec c _ => if is_export e then [c] else []
                     | _ => []
                     end) es.

(** [s] is [l] with some elements left out. *)
Inductive in_order {A : Type} : list A -> list A -> Prop :=
| in_order_nil : in_order [] []
| in_order_skip (x : A) (s l : list A) :
    in_order s l -> in_order s (x :: l)
| in_order_take (x : A) (s l : list A) :
    in_order s l -> in_order (x :: s) (x :: l).

(** *** Project identifiers *)

(** The byte string holds a line feed. *)
Fixpoint has_LF (s : string) : bool :=
  match s with
  | EmptyString => false
  | String c s' => Ascii.eqb c LF || has_LF s'
  end.

(** A project identifier as the reader hands it out: not empty, without
    line feed, and with no white-space rune at either end. *)
Definition clean_identifier (p : string) : Prop :=
  p <> EmptyString
  /\ has_LF p = false
  /\ leading_space p = 0%nat
  /\ trailing_space (rev p) = 0%nat.

(** *** Path elements *)

(** A path element [filepath.Clean] leaves alone: not empty, not [.], not
    [..], and without separator. *)
Definition plain_elem (e : string) : bool :=
  negb (is_empty e) && negb (String.eqb e ".") && negb (String.eqb e "..")
  && negb (has_sep e).

(** The name of the archive of [project] made on the day [today]. *)
Definition archive_name (project today : string) : string :=
  "backup_" ++ project ++ "_" ++ today ++ ".zip".

(** The lines of a listing that are due for deletion at [cutoff]. *)
Definition due (env : string) (cutoff : Time) (lines : list string)
  : list string :=
  filter (fun l => negb (is_empty l) && expired env cutoff l) lines.

(** A non-empty line whose base name cannot hold prefix and suffix. *)
Definition short_name (env line : string) : Prop :=
  is_empty line = false /\ long_enough env line = false.

(** *** Log rotation *)

Definition zip_log_cmd : Cmd :=
  simple_cmd "zip" ["-r"; "/var/log/apigee1.zip"; logFilePath].

(** The events of the loop of [rotateLogs] from archive [i] down to
    archive 1: each archive is looked at once, highest first, and renamed to
    the next index when [os.Stat] finds it; the answer of the rename is not
    looked at. *)
Inductive rotation : nat -> list Event -> Prop :=
| rotation_done : rotation O []
| rotation_moved (i : nat) (size : Z) (r : option error) (rest : list Event) :
    rotation i rest ->
    rotation (S i)
      (EStat (rotated_log (Z.of_nat (S i))) (StatOk size)
       :: ERename (rotated_log (Z.of_nat (S i)))
                  (rotated_log (Z.of_nat (S i) + 1)) r
       :: rest)
| rotation_kept (i : nat) (st : StatResult) (rest : list Event) :
    (forall size, st <> StatOk size) ->
    rotation i rest ->
    rotation (S i) (EStat (rotated_log (Z.of_nat (S i))) st :: rest).

(** What setting up the log may do: open and look at the live log, look at
    and rename archives, zip the live log and remove it. *)
Definition housekeeping_event (e : Event) : Prop :=
  match e with
  | EOpenFile _ _ | EStat _ _ | ERename _ _ _ | ERemove _ _ => True
  | EExec c _ => c = zip_log_cmd
  | _ => False
  end.

(** *** Notifications *)

Definition is_log (e : Event) : bool :=
  match e with ELog _ => true | _ => false end.

(** Log lines only. *)
Definition log_only (es : list Event) : Prop :=
  Forall (fun e => is_log e = true) es.

(** A post goes to one of the two sinks, and that sink is configured. *)
Definition sink_post (discord workspace : string) (e : Event) : Prop :=
  match e with
  | EPost url _ _ =>
      is_empty url = false /\ (url = discord \/ url = workspace)
  | _ => True
  end.

(** The texts of a list, one after the other. *)
Definition rows {A} (row : A -> string) (l : list A) : string :=
  fold_right append EmptyString (map row l).

Definition discord_row (status : ProjectStatus) : string :=
  nl ++ "* **" ++ Project status ++ "** - " ++ Status status
  ++ " (`" ++ Reason status ++ "`)".

Definition workspace_row (status : ProjectStatus) : string :=
  "| `" ++ Project status ++ "` | `" ++ Status status
  ++ "` | `" ++ Reason status ++ "` |" ++ nl.

Definition discord_summary (date : string) (statuses : list ProjectStatus)
  : Payload :=
  DiscordMessage ("Apigee Backup Summary " ++ date)
                 ("**Apigee Backup Summary " ++ date ++ "**"
                  ++ rows discord_row statuses)
                 65280 "Note : Project - Status - Reason".

Definition workspace_summary (date : string) (statuses : list ProjectStatus)
  : Payload :=
  WorkspaceMessage
    ("*Apigee Daily Backup Summary " ++ date ++ "*" ++ nl ++ nl
     ++ "*| `Project` | `Status` | `Reason` |*" ++ nl
     ++ "|---|---|---|" ++ nl
     ++ rows workspace_row statuses).

(** The Discord summary was refused at the transport level. *)
Definition discord_summary_undelivered (es : list Event) : Prop :=
  exists url title description color footer e,
    In (EPost url (DiscordMessage title description color footer) (HttpErr e))
       es.

(** *** The staging area *)

(** The error of a step on the staging area, if it failed. *)
Definition staging_error (e : Event) : option error :=
  match e with
  | ERemoveAll _ r | EMkdirAll _ r => r
  | _ => None
  end.

(** A look at the staging area, or a step on it that succeeded. *)
Definition staging_ok_event (e : Event) : Prop :=
  match e with
  | EStat _ _ | ERemoveAll _ None | EMkdirAll _ None => True
  | _ => False
  end.

(** The step [e] on the staging area failed with [err]; [what] is the text
    the program reports it with. *)
Definition staging_failure (e : Event) (what : string) (err : error) : Prop :=
  (e = ERemoveAll apigeeBackupDir (Some err)
   /\ what = "Failed to delete existing backup directory")
  \/ (e = EMkdirAll apigeeBackupDir (Some err)
      /\ what = "Failed to create backup directory")
  \/ ((exists today, e = EMkdirAll (staging_date today) (Some err))
      /\ what = "Failed to create date folder")
  \/ (e = EMkdirAll staging_export (Some err)
      /\ what = "Failed to create export folder").

Section Staging.

Variable g : Globals.
Variables project gcsBucket token : string.

Let status : ProjectStatus := mkProjectStatus project "Complete" "no issue".

(** The shapes of a run of [backupProject] again, with the answers of the
    steps on the staging area. *)
Inductive staged_shape : Outcome ProjectStatus -> list Event -> Prop :=
| staging_failed (pre : list Event) (e : Event) (what : string) (err : error)
                 (msg : string) :
    Forall staging_ok_event pre ->
    staging_failure e what err ->
    staged_shape (Ret (failed status (what ++ ": " ++ err)))
                 (pre ++ [e; ELog msg])%list
| staged_skipped (pre : list Event) (now : Time) (r : CmdResult)
                 (msg : string) :
    Forall staging_ok_event pre ->
    cmd_err r = None ->
    staged_shape (Ret status)
      (pre ++ [ENow now;
               EExec (probe_cmd gcsBucket (Format now) project) r;
               ELog msg])%list
| staged_attempted (pre : list Event) (now : Time) (r : CmdResult)
                   (err : error) (out : Outcome ProjectStatus)
                   (rest : list Event) :
    Forall staging_ok_event pre ->
    cmd_err r = Some err ->
    export_shape g project gcsBucket token (Format now) out rest ->
    staged_shape out
      (pre ++ ENow now
           :: EExec (probe_cmd gcsBucket (Format now) project) r
           :: rest)%list.

End Staging.

(** No post, no deletion and no listing of the project's folder. *)
Definition silent_event (gcsBucket project : string) (e : Event) : Prop :=
  is_post e = false /\ is_delete e = false
  /\ forall r, e <> EExec (listing_cmd gcsBucket project) r.

(** Not the listing of the project's folder. *)
Definition no_listing (gcsBucket project : string) (e : Event) : Prop :=
  forall r, e <> EExec (listing_cmd gcsBucket project) r.

(** The probe of a run found today's backup. *)
Definition probe_found (gcsBucket project : string) (es : list Event) : Prop :=
  exists date r,
    In (EExec (probe_cmd gcsBucket date project) r) es /\ cmd_err r = None.

(** The listing of the sweep succeeded. *)
Definition listing_succeeded (gcsBucket project : string) (es : list Event)
  : Prop :=
  exists r, In (EExec (listing_cmd gcsBucket project) r) es /\ cmd_err r = None.

(** *** The entry point *)

(** Nothing that touches a project: no export, no storage command, no
    post. *)
Definition untouched_event (e : Event) : Prop :=
  is_export e = false /\ runs "gsutil" e = false /\ is_post e = false.

(** A required flag is missing. *)
Definition missing_flag (f : Flags) : bool :=
  is_empty (projectFile f) || is_empty (gcsBucket f) || is_empty (token f).

(** The package-level variables as [main] sets them from the flags. *)
Definition globals_of (f : Flags) : Globals :=
  mkGlobals (webhook f)
            (if negb (is_empty (tagid f)) then Split (tagid f) "," else [])
            (workspaceWebhook f).

(** The two values a status can have. *)
Definition wellformed_status (st : ProjectStatus) : Prop :=
  (Status st = "Complete" /\ Reason st = "no issue") \/ Status st = "Failed".

End Traces.

Module MoreExamples.

Import GoTime Backup.

(** Both sinks are unreachable. *)
Definition sinks_down_world : World :=
  mkWorld (fun _ _ => StatNotExist)
          (fun _ _ => None) (fun _ _ => None) (fun _ _ => None)
          (fun _ _ _ => None) (fun _ _ => None)
          (fun _ _ => Examples.one_project)
          (fun _ _ => Examples.succeeded)
          (fun _ _ _ => HttpErr "dial tcp: connection refused")
          (fun _ => Examples.noon_2024_03_01).

(** The project file does not exist. *)
Definition no_file_world : World :=
  Examples.still_world (OpenErr "open projects.txt: no such file or directory")
                       (fun _ _ => Examples.succeeded)
                       Examples.noon_2024_03_01.

(** Nothing can be created under [/tmp]. *)
Definition readonly_tmp_world : World :=
  mkWorld (fun _ _ => StatNotExist)
          (fun _ _ => None)
          (fun _ _ => Some "mkdir /tmp/apigee_backup: permission denied")
          (fun _ _ => None)
          (fun _ _ _ => None) (fun _ _ => None)
          (fun _ _ => Examples.one_project)
          (fun _ _ => Examples.succeeded)
          (fun _ _ _ => HttpStatus 204)
          (fun _ => Examples.noon_2024_03_01).

(** The archiver fails; the bucket is empty. *)
Definition zip_fails_world : World :=
  Examples.still_world Examples.one_project
    (fun h c =>
       if String.eqb (cmd_name c) "zip"
       then Examples.exit_status_1 "zip I/O error: No space left on device"
       else Examples.listing_exec EmptyString h c)
    Examples.noon_2024_03_01.

Definition the_archive : Cmd :=
  zip_cmd "/tmp/apigee_backup/export"
          "/tmp/apigee_backup/2024-03-01/backup_p_2024-03-01.zip".

End MoreExamples.
(* ================================================================== *)
(** * Properties *)
(* ================================================================== *)

(** ** The library models on known inputs *)

Module ModelChecks.

Import GoTime.

Example Base_of_object :
  FilePath.Base "gs://b/p/backup_p_2024-01-01.zip" = "backup_p_2024-01-01.zip".
Proof. reflexivity. Qed.

Example Base_of_folder : FilePath.Base "gs://b/p/" = "p".
Proof. reflexivity. Qed.

Example Base_of_nothing :
  FilePath.Base EmptyString = "." /\ FilePath.Base "///" = "/".
Proof. split; reflexivity. Qed.

Example Join_staging :
  FilePath.Join ["/tmp/apigee_backup"; "2024-03-01"]
  = "/tmp/apigee_backup/2024-03-01".
Proof. reflexivity. Qed.

Example Join_cleans :
  FilePath.Join ["/tmp/apigee_backup/2024-03-01"; "backup_a/../b_x.zip"]
  = "/tmp/apigee_backup/2024-03-01/b_x.zip"
  /\ FilePath.Clean "a/../../b/./c//" = "../b/c"
  /\ FilePath.Clean "/../a" = "/a".
Proof. repeat split; reflexivity. Qed.

Example Split_keeps_empty_pieces :
  Split "a,b,,c," "," = ["a"; "b"; EmptyString; "c"; EmptyString].
Proof. reflexivity. Qed.

Example TrimSpace_ascii_and_unicode :
  TrimSpace ("  a b " ++ b2 194 160 ++ " ") = "a b"
  /\ TrimSpace (b3 227 128 128 ++ " x" ++ str1 CR) = "x"
  /\ TrimSpace (str1 (byte_of 9) ++ str1 LF) = EmptyString.
Proof. repeat split; vm_compute; reflexivity. Qed.

Example slice_in_and_out_of_range :
  slice "abcdef" 2 5 = Some "cde"
  /\ slice "abcdef" 2 1 = None
  /\ slice "p" 9 (-3) = None.
Proof. repeat split; reflexivity. Qed.

Example Parse_dates :
  Parse "2024-01-01" = Some (mkTime 1704067200 0 0)
  /\ Parse "1970-01-01" = Some (mkTime 0 0 0)
  /\ Parse "2024-02-29" = Some (mkTime 1709164800 0 0)
  /\ Parse "2023-02-29" = None
  /\ Parse "2024-13-01" = None
  /\ Parse "2024-1-01" = None
  /\ Parse "2024-01-01x" = None.
Proof. repeat split; vm_compute; reflexivity. Qed.

Example Format_dates :
  Format (mkTime 1709294400 0 0) = "2024-03-01"
  /\ Format (mkTime (-1) 0 0) = "1969-12-31"
  /\ Format (mkTime 1709337600 0 3600) = "2024-03-02".
Proof. repeat split; vm_compute; reflexivity. Qed.

Example AddDate_days :
  Format (AddDate (mkTime 1709294400 0 0) 0 0 (-30)) = "2024-01-31"
  /\ AddDate (mkTime 1709294400 5 0) 0 0 (-30)
     = mkTime (1709294400 - 30 * 86400) 5 0.
Proof. split; vm_compute; reflexivity. Qed.

Example Scanner_lines :
  Bufio.Scanner ("a" ++ str1 CR ++ str1 LF ++ str1 LF ++ "b") None
  = (["a"; EmptyString; "b"], None)
  /\ Bufio.Scanner ("a" ++ str1 LF) None = (["a"], None)
  /\ Bufio.Scanner ("a" ++ str1 LF ++ "b") (Some "input/output error")
     = (["a"; "b"], Some "input/output error").
Proof. repeat split; vm_compute; reflexivity. Qed.

Example Unmarshal_object :
  Json.Unmarshal
    ("{" ++ quoted "a" ++ ": [1, -2.5e+3, true, null, {}], "
     ++ quoted "a\u0041\n" ++ ":" ++ quoted "x" ++ "}")
  = Some [("a", Json.Array [Json.Number "1"; Json.Number "-2.5e+3";
                            Json.Bool true; Json.Null; Json.Object []]);
          ("aA" ++ str1 LF, Json.Str "x")].
Proof. vm_compute. reflexivity. Qed.

Example Unmarshal_last_key_wins :
  option_map (Json.lookup "k")
    (Json.Unmarshal ("{" ++ quoted "k" ++ ":1," ++ quoted "k" ++ ":2}"))
  = Some (Some (Json.Number "2")).
Proof. vm_compute. reflexivity. Qed.

Example Unmarshal_rejects :
  Json.Unmarshal "[1]" = None
  /\ Json.Unmarshal "{,}" = None
  /\ Json.Unmarshal ("{" ++ quoted "a" ++ ":01}") = None
  /\ Json.Unmarshal ("{" ++ quoted "a" ++ ":1e309}") = None
  /\ Json.Unmarshal ("{" ++ quoted "a" ++ ":1}}") = None
  /\ Json.Unmarshal "plain text" = None
  /\ Json.Unmarshal EmptyString = None.
Proof. repeat split; vm_compute; reflexivity. Qed.

Example Unmarshal_accepts :
  Json.Unmarshal "null" = Some []
  /\ Json.Unmarshal " {} " = Some []
  /\ Json.Unmarshal ("{" ++ quoted "a" ++ ":1e308}")
     = Some [("a", Json.Number "1e308")].
Proof. repeat split; vm_compute; reflexivity. Qed.

End ModelChecks.

(** ** Strings *)

Module StringFacts.

Lemma append_nil_r (s : string) : s ++ EmptyString = s.
Proof. induction s as [|c s IH]; simpl; [reflexivity | now rewrite IH]. Qed.

Lemma append_assoc (a b c : string) : (a ++ b) ++ c = a ++ (b ++ c).
Proof. induction a as [|x a IH]; simpl; [reflexivity | now rewrite IH]. Qed.

Lemma length_append (a b : string) :
  String.length (a ++ b) = (String.length a + String.length b)%nat.
Proof. induction a as [|x a IH]; simpl; [reflexivity | now rewrite IH]. Qed.

Lemma append_inv_head (a b c : string) : a ++ b = a ++ c -> b = c.
Proof.
  induction a as [|x a IH]; simpl; intros H; [exact H |].
  injection H as H. now apply IH.
Qed.

Lemma rev_onto_spec (s acc : string) : rev_onto s acc = rev s ++ acc.
Proof.
  unfold rev. revert acc.
  induction s as [|c s IH]; intros acc; simpl; [reflexivity |].
  rewrite IH, (IH (String c EmptyString)), append_assoc. reflexivity.
Qed.

Lemma rev_cons (c : ascii) (s : string) : rev (String c s) = rev s ++ str1 c.
Proof. unfold rev at 1. simpl. apply rev_onto_spec. Qed.

Lemma rev_append (a b : string) : rev (a ++ b) = rev b ++ rev a.
Proof.
  induction a as [|x a IH]; simpl.
  - now rewrite append_nil_r.
  - now rewrite !rev_cons, IH, append_assoc.
Qed.

Lemma rev_snoc (s : string) (c : ascii) : rev (s ++ str1 c) = String c (rev s).
Proof. now rewrite rev_append. Qed.

Lemma rev_involutive (s : string) : rev (rev s) = s.
Proof.
  induction s as [|c s IH]; [reflexivity |].
  now rewrite rev_cons, rev_snoc, IH.
Qed.

Lemma is_empty_true (s : string) : is_empty s = true -> s = EmptyString.
Proof. destruct s; [reflexivity | discriminate]. Qed.

Lemma HasPrefix_length (s p : string) :
  HasPrefix s p = true -> (String.length p <= String.length s)%nat.
Proof.
  revert s. induction p as [|a p IH]; intros s H; simpl; [lia |].
  destruct s as [|b s]; simpl in H; [discriminate |].
  apply andb_prop in H. destruct H as [_ H]. apply IH in H. simpl. lia.
Qed.

Lemma drop_append (k : nat) (a b : string) :
  (k <= String.length a)%nat -> drop k (a ++ b) = drop k a ++ b.
Proof.
  revert a. induction k as [|k IH]; intros a H; [reflexivity |].
  destruct a as [|x a]; simpl in *; [lia |]. apply IH. lia.
Qed.

Lemma length_drop (k : nat) (s : string) :
  String.length (drop k s) = (String.length s - k)%nat.
Proof.
  revert s. induction k as [|k IH]; intros s; simpl; [lia |].
  destruct s as [|x s]; simpl; [reflexivity | apply IH].
Qed.

End StringFacts.

(** ** Trimming and the carriage return the scanner drops *)

Module TrimFacts.

Import StringFacts Spec.

Lemma HasPrefix_snoc_CR (u q : string) :
  has_no_CR u = true ->
  HasPrefix (q ++ str1 CR) u = HasPrefix q u.
Proof.
  revert q.
  induction u as [|a u IH]; intros q H; [now destruct q |].
  cbn [has_no_CR] in H. apply andb_prop in H. destruct H as [Ha Hu].
  destruct q as [|b q]; cbn [append str1 HasPrefix].
  - apply negb_true_iff in Ha. now rewrite Ha.
  - now rewrite IH.
Qed.

Lemma unicode_spaces_no_CR :
  forallb has_no_CR unicode_spaces = true.
Proof. vm_compute. reflexivity. Qed.

Lemma find_ext {A} (f g : A -> bool) (l : list A) :
  (forall x, In x l -> f x = g x) -> find f l = find g l.
Proof.
  induction l as [|x l IH]; intros H; simpl; [reflexivity |].
  rewrite (H x (or_introl eq_refl)).
  destruct (g x); [reflexivity |].
  apply IH. intros y Hy. apply H. now right.
Qed.

Lemma leading_space_snoc_CR (c : ascii) (q : string) :
  leading_space (String c q ++ str1 CR) = leading_space (String c q).
Proof.
  cbn [append leading_space].
  destruct (ascii_space c); [reflexivity |].
  change (String c (q ++ str1 CR)) with (String c q ++ str1 CR).
  rewrite (find_ext (HasPrefix (String c q ++ str1 CR))
                    (HasPrefix (String c q)) unicode_spaces);
    [reflexivity |].
  intros u Hu. apply HasPrefix_snoc_CR.
  pose proof unicode_spaces_no_CR as Hall.
  rewrite forallb_forall in Hall. now apply Hall.
Qed.

Lemma leading_space_le (s : string) :
  (leading_space s <= String.length s)%nat.
Proof.
  destruct s as [|c s]; [simpl; lia |].
  unfold leading_space.
  destruct (ascii_space c); [simpl; lia |].
  destruct (find (HasPrefix (String c s)) unicode_spaces) as [u|] eqn:Hf;
    [| lia].
  apply find_some in Hf. destruct Hf as [_ Hf].
  now apply HasPrefix_length.
Qed.

Lemma trim_left_snoc_CR (fuel : nat) (q : string) :
  (String.length q <= fuel)%nat ->
  trim_left_fuel (S fuel) (q ++ str1 CR)
  = if is_empty (trim_left_fuel fuel q) then EmptyString
    else trim_left_fuel fuel q ++ str1 CR.
Proof.
  revert q. induction fuel as [|fuel IH]; intros q Hlen.
  - destruct q; [reflexivity | simpl in Hlen; lia].
  - destruct q as [|c q]; [reflexivity |].
    cbn [trim_left_fuel].
    rewrite leading_space_snoc_CR.
    pose proof (leading_space_le (String c q)) as Hle.
    destruct (leading_space (String c q)) as [|k] eqn:Hk.
    + reflexivity.
    + rewrite drop_append by exact Hle.
      fold (trim_left_fuel (S fuel) (drop (S k) (String c q) ++ str1 CR)).
      apply IH. rewrite length_drop. simpl in *. lia.
Qed.

Lemma TrimRightSpace_snoc_CR (t : string) :
  TrimRightSpace (t ++ str1 CR) = TrimRightSpace t.
Proof.
  unfold TrimRightSpace.
  rewrite length_append, rev_snoc. simpl String.length.
  replace (String.length t + 1)%nat with (S (String.length t)) by lia.
  reflexivity.
Qed.

Lemma TrimSpace_snoc_CR (q : string) :
  TrimSpace (q ++ str1 CR) = TrimSpace q.
Proof.
  unfold TrimSpace, TrimLeftSpace.
  rewrite length_append. simpl String.length.
  replace (String.length q + 1)%nat with (S (String.length q)) by lia.
  rewrite trim_left_snoc_CR by lia.
  destruct (is_empty (trim_left_fuel (String.length q) q)) eqn:He.
  - apply is_empty_true in He. now rewrite He.
  - apply TrimRightSpace_snoc_CR.
Qed.

(** The carriage return the scanner drops would have been trimmed anyway. *)
Lemma TrimSpace_dropCR (p : string) :
  TrimSpace (Bufio.dropCR p) = TrimSpace p.
Proof.
  unfold Bufio.dropCR.
  destruct (rev p) as [|c r] eqn:Hr; [reflexivity |].
  destruct (Ascii.eqb_spec c CR) as [-> | _]; [| reflexivity].
  assert (Hp : p = rev r ++ str1 CR).
  { rewrite <- (rev_involutive p), Hr, rev_cons. reflexivity. }
  rewrite Hp. now rewrite TrimSpace_snoc_CR.
Qed.

End TrimFacts.

(** ** Project List Reader *)

Module ReaderProps.

Import StringFacts TrimFacts Spec Backup.

(** The loop appends the trimmed non-blank tokens to what it has. *)
Lemma read_loop_spec (tokens acc : list string) :
  read_loop tokens acc
  = (acc ++ filter (fun l => negb (is_empty l)) (map TrimSpace tokens))%list.
Proof.
  revert acc. induction tokens as [|t ts IH]; intros acc; simpl.
  - now rewrite app_nil_r.
  - destruct (is_empty (TrimSpace t)); simpl; rewrite IH.
    + reflexivity.
    + now rewrite <- app_assoc.
Qed.

(** With every line short and no read error the scanner ends without error,
    and its tokens trim to the same list as the lines. *)
Lemma scan_lines_short (pieces : list string) :
  Forall short_line pieces ->
  exists tokens,
    Bufio.scan_lines pieces None = (tokens, None)
    /\ filter (fun l => negb (is_empty l)) (map TrimSpace tokens)
       = filter (fun l => negb (is_empty l)) (map TrimSpace pieces).
Proof.
  induction 1 as [|p rest Hp Hrest IH].
  - exists []. split; reflexivity.
  - destruct IH as [ts [Hts Heq]].
    cbn [Bufio.scan_lines].
    unfold short_line in Hp.
    destruct (Bufio.MaxScanTokenSize <=? len p) eqn:Hlong;
      [apply Z.leb_le in Hlong; lia |].
    destruct rest as [|q rest'].
    + destruct (is_empty p) eqn:He.
      * apply is_empty_true in He. subst p. exists []. split; reflexivity.
      * exists [Bufio.dropCR p]. split; [reflexivity |].
        simpl. now rewrite TrimSpace_dropCR.
    + rewrite Hts. exists (Bufio.dropCR p :: ts). split; [reflexivity |].
      cbn [map filter]. rewrite TrimSpace_dropCR, Heq. reflexivity.
Qed.

(** A line too long for the buffer makes the scanner report an error. *)
Lemma scan_lines_long (pieces : list string) (read_err : option error) :
  Exists (fun l => Bufio.MaxScanTokenSize <= len l) pieces ->
  exists tokens e, Bufio.scan_lines pieces read_err = (tokens, Some e).
Proof.
  induction pieces as [|p rest IH]; intros H; [inversion H |].
  cbn [Bufio.scan_lines].
  destruct (Bufio.MaxScanTokenSize <=? len p) eqn:Hlong; [now eexists _, _ |].
  apply Z.leb_gt in Hlong.
  inversion H as [? ? Hp | ? ? Hr]; subst; [lia |].
  destruct (IH Hr) as [ts [e He]]. rewrite He.
  destruct rest; [inversion Hr | now eexists _, _].
Qed.

(** The scanner's error is the read error unless a line was too long. *)
Lemma scan_lines_err (pieces : list string) (read_err : option error) :
  snd (Bufio.scan_lines pieces read_err) = read_err
  \/ Exists (fun l => Bufio.MaxScanTokenSize <= len l) pieces.
Proof.
  induction pieces as [|p rest IH]; [now left |].
  cbn [Bufio.scan_lines].
  destruct (Bufio.MaxScanTokenSize <=? len p) eqn:Hlong.
  - right. apply Exists_cons_hd. now apply Z.leb_le.
  - destruct rest as [|q rest']; [now left |].
    destruct IH as [IH | IH]; [| right; now apply Exists_cons_tl].
    left. destruct (Bufio.scan_lines (q :: rest') read_err). exact IH.
Qed.

(** C9, as the code has it: for a file that opens, reads to its end and has
    no line of 65536 bytes or more, the reader returns exactly the trimmed
    non-blank lines in file order, duplicates kept. It returns an error
    exactly when the file cannot be opened or read, or has such a long line;
    and it always returns. *)
Theorem readProjectFile_spec (w : World) (h : list Event) (filePath : string) :
  (forall data,
      w_Open w h filePath = Opened data None ->
      Forall short_line (Split data LF) ->
      readProjectFile filePath w h
      = (Ret (trimmed_nonblank_lines data, None),
         [EOpen filePath (Opened data None)]))
  /\ ((exists e, fst (readProjectFile filePath w h) = Ret ([], Some e))
      <-> unreadable (w_Open w h filePath)
          \/ has_long_line (w_Open w h filePath))
  /\ (exists res, fst (readProjectFile filePath w h) = Ret res).
Proof.
  unfold readProjectFile, bind, os_Open, ask, ret, Bufio.Scanner.
  split; [| split].
  - intros data Hopen Hshort. rewrite Hopen.
    destruct (scan_lines_short _ Hshort) as [ts [Hts Heq]].
    rewrite Hts. cbn. rewrite read_loop_spec. cbn.
    unfold trimmed_nonblank_lines. now rewrite Heq.
  - destruct (w_Open w h filePath) as [e | data read_err] eqn:Hopen.
    + cbn. split; [intros _; now left | intros _; now exists e].
    + cbn [unreadable has_long_line].
      pose proof (scan_lines_err (Split data LF) read_err) as Herr.
      destruct (Bufio.scan_lines (Split data LF) read_err) as [ts se] eqn:Hs.
      cbn [snd] in Herr. split.
      * intros [e He]. destruct se as [e'|]; cbn in He; [| discriminate].
        destruct Herr as [<- | Hl]; [now left | now right].
      * intros [Hun | Hl].
        -- destruct read_err as [e'|]; [| contradiction].
           destruct Herr as [-> | Hl].
           ++ now exists e'.
           ++ destruct (scan_lines_long _ (Some e') Hl) as [ts' [e Hse]].
              rewrite Hse in Hs. injection Hs as _ <-. now exists e.
        -- destruct (scan_lines_long _ read_err Hl) as [ts' [e Hse]].
           rewrite Hse in Hs. injection Hs as _ <-. now exists e.
  - destruct (w_Open w h filePath) as [e | data read_err].
    + now eexists.
    + destruct (Bufio.scan_lines (Split data LF) read_err) as [ts [e|]];
        now eexists.
Qed.

(** The reader on a small file: carriage returns, blanks and a duplicate. *)
Lemma readProjectFile_spec_witness :
  readProjectFile "projects.txt"
    (Examples.still_world (Opened Examples.two_projects None)
                          (fun _ _ => Examples.succeeded)
                          Examples.noon_2024_03_01) []
  = (Ret (["proj-a"; "proj-b"; "proj-a"], None),
     [EOpen "projects.txt" (Opened Examples.two_projects None)]).
Proof.
  apply (proj1 (readProjectFile_spec _ [] "projects.txt")
               Examples.two_projects).
  - reflexivity.
  - repeat constructor; vm_compute; reflexivity.
Defined.

(** C9 as stated fails on a readable file with one line of 65536 bytes: the
    file opens and reads to its end without error, the list of its trimmed
    non-blank lines has that one line, and the reader returns the scanner's
    [ErrTooLong] instead. *)
Lemma readProjectFile_long_line_counterexample :
  let w := Examples.still_world (Opened Examples.long_line None)
             (fun _ _ => Examples.succeeded) Examples.noon_2024_03_01 in
  w_Open w [] "projects.txt" = Opened Examples.long_line None
  /\ List.length (trimmed_nonblank_lines Examples.long_line) = 1%nat
  /\ fst (readProjectFile "projects.txt" w [])
     = Ret ([], Some Bufio.ErrTooLong).
Proof.
  cbv zeta. split; [reflexivity |]. split; vm_compute; reflexivity.
Qed.

End ReaderProps.

(** ** Error Classifier *)

Module ClassifierProps.

Import Spec Backup.

(** C7: the classifier is a function of the captured text alone, with four
    cases in this order: a structured error whose [status] is the sentinel
    gives the canonical precondition message; otherwise a structured error
    with a [message] gives that message; otherwise a text containing the
    unauthorized phrase gives the canonical phrase; otherwise the text comes
    back unchanged. *)
Theorem parseError_cases (stderr : string) :
  (forall info,
      structured_error stderr = Some info ->
      field info "status" = Some sentinel ->
      parseError stderr = precondition_message)
  /\ (forall info message,
         structured_error stderr = Some info ->
         field info "status" <> Some sentinel ->
         field info "message" = Some message ->
         parseError stderr = message)
  /\ (no_structured_message stderr ->
      Contains stderr unauthorized = true ->
      parseError stderr = unauthorized)
  /\ (no_structured_message stderr ->
      Contains stderr unauthorized = false ->
      parseError stderr = stderr).
Proof.
  unfold parseError, parseError_structured, no_structured_message,
    structured_error, field, sentinel.
  destruct (Json.Unmarshal stderr) as [parsed|];
    [destruct (as_object (Json.lookup "error" parsed)) as [info|] |].
  - repeat split.
    + intros ? [= <-] Hs. now rewrite Hs.
    + intros ? message [= <-] Hs Hm. rewrite Hm.
      destruct (as_string (Json.lookup "status" info)) as [s|];
        [| reflexivity].
      destruct (String.eqb_spec s "FAILED_PRECONDITION") as [-> | _];
        [now elim Hs | reflexivity].
    + intros H Hc. destruct (H info eq_refl) as [Hs Hm]. rewrite Hm, Hc.
      destruct (as_string (Json.lookup "status" info)) as [s|];
        [| reflexivity].
      destruct (String.eqb_spec s "FAILED_PRECONDITION") as [-> | _];
        [now elim Hs | reflexivity].
    + intros H Hc. destruct (H info eq_refl) as [Hs Hm]. rewrite Hm, Hc.
      destruct (as_string (Json.lookup "status" info)) as [s|];
        [| reflexivity].
      destruct (String.eqb_spec s "FAILED_PRECONDITION") as [-> | _];
        [now elim Hs | reflexivity].
  - repeat split; try discriminate; intros _ Hc; now rewrite Hc.
  - repeat split; try discriminate; intros _ Hc; now rewrite Hc.
Qed.

(** The four cases on the error streams of the specification's scenarios. *)
Lemma parseError_cases_witness :
  parseError Examples.precondition_payload = precondition_message
  /\ parseError Examples.quota_payload = "quota exceeded"
  /\ parseError Examples.unauthorized_text = unauthorized
  /\ parseError "connection refused" = "connection refused".
Proof.
  split; [| split; [| split]].
  - apply (proj1 (parseError_cases Examples.precondition_payload)
                 [("status", Json.Str "FAILED_PRECONDITION")]);
      vm_compute; reflexivity.
  - apply (proj1 (proj2 (parseError_cases Examples.quota_payload))
                 [("message", Json.Str "quota exceeded")]);
      vm_compute; [reflexivity | discriminate | reflexivity].
  - apply (proj1 (proj2 (proj2
             (parseError_cases Examples.unauthorized_text))));
      [intros info H; vm_compute in H; discriminate | vm_compute; reflexivity].
  - apply (proj2 (proj2 (proj2 (parseError_cases "connection refused"))));
      [intros info H; vm_compute in H; discriminate | vm_compute; reflexivity].
Defined.

(** A [message] that is not a string is no message to the classifier: the
    text comes back as it is. *)
Example parseError_numeric_message :
  structured_error Examples.numeric_message_payload
  = Some [("message", Json.Number "42")]
  /\ parseError Examples.numeric_message_payload
     = Examples.numeric_message_payload.
Proof. split; vm_compute; reflexivity. Qed.

End ClassifierProps.

(** ** Runs and their events *)

Module RunFacts.

Import Spec.

Lemma emits_ret {A} (P : Event -> Prop) (a : A) : emits P (ret a).
Proof. intros w h. constructor. Qed.

Lemma emits_panic {A} (P : Event -> Prop) (msg : string) :
  emits P (@panic A msg).
Proof. intros w h. constructor. Qed.

Lemma emits_exit {A} (P : Event -> Prop) (code : Z) : emits P (@exit A code).
Proof. intros w h. constructor. Qed.

Lemma emits_ask {A} (P : Event -> Prop) (q : World -> list Event -> A)
      (ev : A -> Event) :
  (forall r, P (ev r)) -> emits P (ask q ev).
Proof. intros H w h. constructor; [apply H | constructor]. Qed.

Lemma emits_tell (P : Event -> Prop) (e : Event) : P e -> emits P (tell e).
Proof. intros H w h. constructor; [exact H | constructor]. Qed.

Lemma emits_bind {A B} (P : Event -> Prop) (m : M A) (f : A -> M B) :
  emits P m -> (forall a, emits P (f a)) -> emits P (bind m f).
Proof.
  intros Hm Hf w h. unfold bind.
  specialize (Hm w h).
  destruct (m w h) as [[a | msg | code] es]; cbn [snd] in *; try exact Hm.
  specialize (Hf a w (h ++ es)%list).
  destruct (f a w (h ++ es)%list) as [r es']. cbn [snd] in *.
  apply Forall_app. now split.
Qed.

Lemma emits_weaken {A} (P Q : Event -> Prop) (m : M A) :
  (forall e, P e -> Q e) -> emits P m -> emits Q m.
Proof.
  intros HPQ Hm w h. eapply Forall_impl; [exact HPQ | apply Hm].
Qed.

End RunFacts.

Ltac unfold_calls :=
  unfold os_Stat, os_RemoveAll, os_MkdirAll, os_OpenFile, os_Rename,
    os_Remove, os_Open, exec_Run, http_Post, time_Now, fmt_Print,
    log_Printf in *.

(** Break a computation down along its binds, for [emits]. *)
Ltac walk :=
  repeat first
    [ apply RunFacts.emits_ret | apply RunFacts.emits_panic
    | apply RunFacts.emits_exit
    | apply RunFacts.emits_tell | apply RunFacts.emits_ask; intros
    | apply RunFacts.emits_bind; [| intros]
    | match goal with
      | |- Spec.emits _ (match ?x with _ => _ end) => destruct x
      end ].

(** ** Retention Manager *)

Module RetentionProps.

Import GoTime Spec Backup RunFacts.

Lemma len_nonneg (s : string) : 0 <= len s.
Proof. unfold len. lia. Qed.

(** The slice of [isOlderThanRetention] is in range exactly when the base
    name is long enough. *)
Lemma slice_long_enough (env line : string) :
  let base := FilePath.Base line in
  slice base (len ("backup_" ++ env ++ "_")) (len base - len ".zip") = None
  <-> long_enough env line = false.
Proof.
  cbv zeta. unfold slice, long_enough.
  pose proof (len_nonneg ("backup_" ++ env ++ "_")) as H0.
  pose proof (len_nonneg (FilePath.Base line)) as H1.
  change (len ".zip") with 4.
  destruct (0 <=? len ("backup_" ++ env ++ "_")) eqn:Ha;
    [| apply Z.leb_gt in Ha; lia].
  destruct (len ("backup_" ++ env ++ "_") <=? len (FilePath.Base line) - 4)
    eqn:Hb; cbn [andb].
  - destruct (len (FilePath.Base line) - 4 <=? len (FilePath.Base line))
      eqn:Hc; [| apply Z.leb_gt in Hc; lia].
    split; discriminate.
  - split; reflexivity.
Qed.

(** On a base name too short for prefix and suffix the function panics:
    nothing is logged and nothing is returned. *)
Lemma isOlderThanRetention_short (line env : string) (cutoff : Time)
      (w : World) (h : list Event) :
  long_enough env line = false ->
  isOlderThanRetention line cutoff env w h
  = (Panic "slice bounds out of range", []).
Proof.
  intros H. apply slice_long_enough in H. cbv zeta in H.
  unfold isOlderThanRetention. now rewrite H.
Qed.

(** On a long enough base name it answers whether the embedded date has
    expired, and logs when that date does not parse. *)
Lemma isOlderThanRetention_long (line env : string) (cutoff : Time)
      (w : World) (h : list Event) :
  long_enough env line = true ->
  isOlderThanRetention line cutoff env w h
  = (Ret (expired env cutoff line),
     match embedded_date env line with
     | Some _ => []
     | None =>
         [ELog ("Failed to parse date from path " ++ line ++ ": "
                ++ parse_error
                     (substring
                        (Z.to_nat (len ("backup_" ++ env ++ "_")))
                        (Z.to_nat (len (FilePath.Base line) - len ".zip"
                                   - len ("backup_" ++ env ++ "_")))
                        (FilePath.Base line))
                ++ nl)]
     end).
Proof.
  intros H.
  unfold isOlderThanRetention, expired, embedded_date.
  destruct (slice (FilePath.Base line) (len ("backup_" ++ env ++ "_"))
                  (len (FilePath.Base line) - len ".zip")) as [d|] eqn:Hs.
  - unfold slice in Hs.
    destruct ((0 <=? len ("backup_" ++ env ++ "_")) &&
              (len ("backup_" ++ env ++ "_")
               <=? len (FilePath.Base line) - len ".zip") &&
              (len (FilePath.Base line) - len ".zip"
               <=? len (FilePath.Base line))); [| discriminate].
    injection Hs as <-.
    destruct (Parse _); reflexivity.
  - apply slice_long_enough in Hs. congruence.
Qed.

Lemma isOlderThanRetention_emits (line env : string) (cutoff : Time) :
  emits sweep_event (isOlderThanRetention line cutoff env).
Proof.
  unfold isOlderThanRetention, log_Printf.
  destruct (slice _ _ _); [destruct (Parse _) |]; walk; exact I.
Qed.

Lemma cleanup_loop_emits (lines : list string) (cutoff : Time) (env : string) :
  emits sweep_event (cleanup_loop lines cutoff env).
Proof.
  induction lines as [|line rest IH]; cbn [cleanup_loop]; [walk |].
  apply emits_bind; [| intros; exact IH].
  destruct (is_empty line); [walk |].
  apply emits_bind; [apply isOlderThanRetention_emits |].
  intros [|]; unfold_calls; walk; cbn; eauto.
Qed.

(** When every listed line is empty or long enough, the sweep runs to its
    end and asks for the deletion of exactly the non-empty lines whose
    embedded date has expired, in listing order. *)
Lemma cleanup_loop_wellformed (lines : list string) (cutoff : Time)
      (env : string) (w : World) (h : list Event) :
  Forall (fun l => is_empty l = true \/ long_enough env l = true) lines ->
  exists es,
    cleanup_loop lines cutoff env w h = (Ret tt, es)
    /\ deleted es
       = filter (fun l => negb (is_empty l) && expired env cutoff l) lines.
Proof.
  intros Hall. revert h.
  induction Hall as [|line rest Hline Hrest IH]; intros h;
    [now exists [] |].
  cbn [cleanup_loop filter]. unfold bind.
  destruct (is_empty line) eqn:He.
  - cbn [ret negb andb app].
    destruct (IH (h ++ [])%list) as [es [-> Hd]]. now exists es.
  - destruct Hline as [Hline | Hline]; [discriminate |].
    rewrite (isOlderThanRetention_long _ _ _ _ _ Hline).
    set (plog := match embedded_date env line with
                 | Some _ => [] | None => _ end).
    assert (Hplog : forall l, deleted (plog ++ l)%list = deleted l).
    { intros l. subst plog. now destruct (embedded_date env line). }
    cbn [negb andb].
    destruct (expired env cutoff line) eqn:Hexp.
    + unfold_calls. unfold ask.
      set (r := w_Exec w (h ++ plog)%list (delete_cmd line)).
      destruct (cmd_err r) as [err|]; unfold tell;
        match goal with
        | |- context [cleanup_loop rest cutoff env w ?h'] =>
            destruct (IH h') as [es [-> Hd]]
        end;
        eexists; (split; [reflexivity |]);
        rewrite <- app_assoc, Hplog; cbn; now rewrite Hd.
    + cbn [ret app].
      match goal with
      | |- context [cleanup_loop rest cutoff env w ?h'] =>
          destruct (IH h') as [es [-> Hd]]
      end.
      eexists. split; [reflexivity |].
      rewrite app_nil_r, Hplog. exact Hd.
Qed.

(** A failed listing ends the sweep at once with the wrapped error. *)
Lemma cleanupOldBackups_listing_fails (gcsBucket env : string)
      (retentionDays : Z) (w : World) (h : list Event) (e : error) :
  cmd_err (w_Exec w h (listing_cmd gcsBucket env)) = Some e ->
  cleanupOldBackups gcsBucket retentionDays env w h
  = (Ret (Some ("failed to list GCS bucket: " ++ e)),
     [EExec (listing_cmd gcsBucket env)
            (w_Exec w h (listing_cmd gcsBucket env))]).
Proof.
  intros H. unfold cleanupOldBackups, bind, exec_Run, ask. now rewrite H.
Qed.

Lemma cleanupOldBackups_emits (gcsBucket env : string) (retentionDays : Z) :
  emits (cleanup_event gcsBucket env)
        (cleanupOldBackups gcsBucket retentionDays env).
Proof.
  unfold cleanupOldBackups. unfold_calls.
  apply emits_bind; [walk; cbn; now left |].
  intros r. destruct (cmd_err r); [walk |].
  apply emits_bind; [walk; exact I |]. intros now.
  apply emits_bind; [| walk].
  eapply emits_weaken; [| apply cleanup_loop_emits].
  intros [] He; cbn in *; auto.
Qed.

(** With a listing that succeeds and holds only empty or long enough lines,
    the sweep deletes exactly the lines whose embedded date is strictly
    before now minus [retentionDays], and reports success. *)
Lemma cleanupOldBackups_wellformed (gcsBucket env : string)
      (retentionDays : Z) (w : World) (h : list Event) :
  let r := w_Exec w h (listing_cmd gcsBucket env) in
  let now := w_Now w (h ++ [EExec (listing_cmd gcsBucket env) r])%list in
  let cutoff := AddDate now 0 0 (neg64 retentionDays) in
  cmd_err r = None ->
  Forall (fun l => is_empty l = true \/ long_enough env l = true)
         (Split (cmd_stdout r) LF) ->
  exists es,
    cleanupOldBackups gcsBucket retentionDays env w h = (Ret None, es)
    /\ deleted es
       = filter (fun l => negb (is_empty l) && expired env cutoff l)
                (Split (cmd_stdout r) LF).
Proof.
  cbv zeta. intros Hr Hall.
  unfold cleanupOldBackups, bind, exec_Run, time_Now, ask. rewrite Hr.
  match goal with
  | |- context [cleanup_loop ?ls ?c env w ?h'] =>
      destruct (cleanup_loop_wellformed ls c env w h' Hall) as [es [-> Hd]]
  end.
  eexists. split; [reflexivity |]. cbn. rewrite app_nil_r. exact Hd.
Qed.

(** C6 at its failing input, for any line of that kind: a non-empty listed
    line whose base name is too short for [backup_<env>_] and [.zip] is
    neither logged nor skipped. The slice panics, and the sweep stops there
    whatever lines follow. *)
Theorem cleanup_loop_short_name_panics (line env : string)
        (rest : list string) (cutoff : Time) (w : World) (h : list Event) :
  is_empty line = false ->
  long_enough env line = false ->
  isOlderThanRetention line cutoff env w h
  = (Panic "slice bounds out of range", [])
  /\ cleanup_loop (line :: rest) cutoff env w h
     = (Panic "slice bounds out of range", []).
Proof.
  intros Hne Hshort. split.
  - now apply isOlderThanRetention_short.
  - cbn [cleanup_loop]. unfold bind. rewrite Hne.
    now rewrite (isOlderThanRetention_short _ _ _ _ _ Hshort).
Qed.

(** The folder placeholder [gs://b/p/] in the listing of project [p]. *)
Lemma cleanup_loop_short_name_panics_witness :
  isOlderThanRetention "gs://b/p/" Examples.noon_2024_03_01 "p"
                       Examples.placeholder_world []
  = (Panic "slice bounds out of range", [])
  /\ cleanup_loop ["gs://b/p/"; "gs://b/p/backup_p_2020-01-01.zip"]
                  Examples.noon_2024_03_01 "p" Examples.placeholder_world []
     = (Panic "slice bounds out of range", []).
Proof.
  apply cleanup_loop_short_name_panics; vm_compute; reflexivity.
Defined.

(** C5 at its failing input: the listing of project [p] holds the folder
    placeholder and, after it, a backup from 2020; now is 2024-03-01 and
    retention is 30 days. The backup's date parses and is before the
    cut-off, yet the sweep panics on the placeholder and deletes nothing. *)
Theorem cleanupOldBackups_misses_expired_backup :
  let w := Examples.placeholder_world in
  let cutoff := AddDate Examples.noon_2024_03_01 0 0 (neg64 30) in
  In "gs://b/p/backup_p_2020-01-01.zip"
     (Split (cmd_stdout (w_Exec w [] (listing_cmd "b" "p"))) LF)
  /\ expired "p" cutoff "gs://b/p/backup_p_2020-01-01.zip" = true
  /\ fst (cleanupOldBackups "b" 30 "p" w [])
     = Panic "slice bounds out of range"
  /\ deleted (snd (cleanupOldBackups "b" 30 "p" w [])) = [].
Proof.
  cbv zeta. split; [vm_compute; auto |].
  split; [| split]; vm_compute; reflexivity.
Qed.

End RetentionProps.

(** ** The shapes of a run of [backupProject] *)

Module ShapeFacts.

Import GoTime Spec Backup RunFacts StringFacts RetentionProps.

(** The sweep ends normally or with the panic of the slice. *)
Lemma cleanup_loop_outcome (lines : list string) (cutoff : Time)
      (env : string) (w : World) (h : list Event) :
  fst (cleanup_loop lines cutoff env w h) = Ret tt
  \/ fst (cleanup_loop lines cutoff env w h) = Panic slice_panic.
Proof.
  revert h. induction lines as [|line rest IH]; intros h; [now left |].
  cbn [cleanup_loop]. unfold bind.
  destruct (is_empty line).
  - cbn [ret]. specialize (IH (h ++ [])%list).
    destruct (cleanup_loop rest cutoff env w (h ++ [])%list). exact IH.
  - destruct (long_enough env line) eqn:Hl.
    + rewrite (isOlderThanRetention_long _ _ _ _ _ Hl).
      destruct (expired env cutoff line).
      * unfold_calls. unfold ask.
        match goal with
        | |- context [cmd_err ?r] => destruct (cmd_err r)
        end; unfold tell;
        match goal with
        | |- context [cleanup_loop rest cutoff env w ?h'] =>
            specialize (IH h'); destruct (cleanup_loop rest cutoff env w h')
        end; exact IH.
      * cbn [ret].
        match goal with
        | |- context [cleanup_loop rest cutoff env w ?h'] =>
            specialize (IH h'); destruct (cleanup_loop rest cutoff env w h')
        end; exact IH.
    + rewrite (isOlderThanRetention_short _ _ _ _ _ Hl). now right.
Qed.

Ltac notify_events Hu :=
  cbn [app];
  repeat match goal with
         | |- Forall _ [] => constructor
         | |- Forall _ (_ :: _) => constructor
         | |- notify_event _ (EPost _ _ _) => split; [exact Hu | auto]
         | |- notify_event _ _ => exact I
         end.

(** A notification always returns; it posts when its sink is configured. *)
Lemma discord_run (g : Globals) (project date status reason : string)
      (w : World) (h : list Event) :
  exists n,
    sendDiscordNotification g project date status reason w h = (Ret tt, n)
    /\ Forall (notify_event g) n
    /\ (is_empty (webhookURL g) = false ->
        exists resp,
          In (EPost (webhookURL g)
                    (discord_message g project date status
                                     (default_reason reason)) resp) n).
Proof.
  unfold sendDiscordNotification.
  destruct (is_empty (webhookURL g)) eqn:Hu.
  - exists []. repeat split; [constructor | discriminate].
  - unfold bind, http_Post, log_Printf, ask, tell, ret.
    match goal with
    | |- context [w_Post w h ?u ?p] =>
        destruct (w_Post w h u p) as [e | sc] eqn:Hp
    end;
      [| destruct (negb (sc =? 204)%Z)];
      (eexists; split; [reflexivity |]; split;
       [notify_events Hu | intros _; eexists; cbn [app]; left; reflexivity]).
Qed.

Lemma workspace_run (g : Globals) (project dataset status reason : string)
      (w : World) (h : list Event) :
  exists n,
    sendWorkspaceNotification g project dataset status reason w h = (Ret tt, n)
    /\ Forall (notify_event g) n
    /\ (is_empty (workspaceWebhookURL g) = false ->
        exists now resp,
          In (EPost (workspaceWebhookURL g)
                    (workspace_message now project dataset status
                                       (default_reason reason)) resp) n).
Proof.
  unfold sendWorkspaceNotification.
  destruct (is_empty (workspaceWebhookURL g)) eqn:Hu.
  - exists []. repeat split; [constructor | discriminate].
  - unfold bind, http_Post, time_Now, log_Printf, ask, tell, ret.
    match goal with
    | |- context [w_Post w ?h' ?u ?p] =>
        destruct (w_Post w h' u p) as [e | sc] eqn:Hp
    end;
      [| destruct (negb (sc =? 200)%Z)];
      (eexists; split; [reflexivity |]; split;
       [notify_events Hu
       | intros _; eexists _, _; cbn [app]; right; left; reflexivity]).
Qed.

(** The pair of notifications of one project. *)
Lemma notified_run (g : Globals) (project today status reason : string)
      (w : World) (h : list Event) :
  exists n1 n2,
    sendDiscordNotification g project today status reason w h = (Ret tt, n1)
    /\ sendWorkspaceNotification g project ("apigee-" ++ project) status reason
         w (h ++ n1)%list = (Ret tt, n2)
    /\ notified g project today status reason (n1 ++ n2)%list.
Proof.
  destruct (discord_run g project today status reason w h)
    as [n1 [H1 [F1 P1]]].
  destruct (workspace_run g project ("apigee-" ++ project) status reason
                          w (h ++ n1)%list)
    as [n2 [H2 [F2 P2]]].
  exists n1, n2. split; [exact H1 |]. split; [exact H2 |].
  split; [apply Forall_app; now split |]. split.
  - intros Hu. destruct (P1 Hu) as [resp Hin].
    exists resp. apply in_or_app. now left.
  - intros Hu. destruct (P2 Hu) as [now [resp Hin]].
    exists now, resp. apply in_or_app. now right.
Qed.

(** The run of a bind whose head returns. *)
Lemma run_bind_ret {A B} (m : M A) (f : A -> M B) (w : World)
      (h : list Event) (a : A) (es : list Event) :
  m w h = (Ret a, es) ->
  bind m f w h
  = (fst (f a w (h ++ es)%list), (es ++ snd (f a w (h ++ es)%list))%list).
Proof.
  intros H. unfold bind. rewrite H.
  now destruct (f a w (h ++ es)%list).
Qed.

(** One step of a run: the head of a bind is an oracle call, a log line, a
    return, or a computation whose run is known. *)
Ltac step :=
  erewrite run_bind_ret by (first [eassumption | reflexivity]);
  cbn [fst snd].

Section Archive.
Variables (g : Globals) (project gcsBucket token : string) (retentionDays : Z).
Let status := mkProjectStatus project "Complete" "no issue".

(** The runs of the three tails of [backupProject] have their shapes. *)
Lemma retention_run (w : World) (h : list Event) :
  let m := (cerr <- cleanupOldBackups gcsBucket retentionDays project ;;
            match cerr with
            | Some err => fail_with status "Failed to clean up old backups" err
            | None => ret status
            end) in
  retention_shape project gcsBucket (fst (m w h)) (snd (m w h)).
Proof.
  cbv zeta.
  unfold cleanupOldBackups, fail_with, bind, exec_Run, time_Now, log_Printf,
    ask, tell, ret.
  destruct (cmd_err (w_Exec w h (listing_cmd gcsBucket project)))
    as [e|] eqn:He.
  - cbn. now apply retention_listing_failed with (e := e).
  - match goal with
    | |- context [cleanup_loop ?ls ?c project w ?h'] =>
        pose proof (cleanup_loop_outcome ls c project w h') as Ho;
        pose proof (cleanup_loop_emits ls c project w h') as Hs;
        destruct (cleanup_loop ls c project w h') as [o es]
    end.
    cbn [fst snd] in Ho, Hs.
    destruct Ho as [-> | ->]; cbn [fst snd app].
    + rewrite !app_nil_r. now apply retention_swept.
    + rewrite ?app_nil_r. now apply retention_panicked.
Qed.

Lemma archive_run (today : string) (w : World) (h : list Event) :
  let m := archive_upload_sweep g status project gcsBucket retentionDays
             today (staging_date today) staging_export in
  archive_shape g project gcsBucket today (fst (m w h)) (snd (m w h)).
Proof.
  cbv zeta.
  unfold archive_upload_sweep, zipFolder, uploadToGCS, fail_with.
  unfold_calls. fold (archive_path project today).
  step.
  match goal with
  | |- context [cmd_err ?r] => destruct (cmd_err r) as [err|] eqn:Hz
  end.
  - step. cbn [fst snd ret app]. now apply archive_failed with (err := err).
  - step.
    match goal with
    | |- context [match cmd_err ?r with _ => _ end] =>
        destruct (cmd_err r) as [err|] eqn:Hu
    end.
    + step. cbn [fst snd ret app].
      now apply upload_failed with (err := err).
    + cbn [app].
      match goal with
      | |- context [bind (sendDiscordNotification g project today ?st ?rs)
                         _ w ?h'] =>
          destruct (notified_run g project today st rs w h')
            as [n1 [n2 [H1 [H2 Hn]]]]
      end.
      step. step. cbn [app].
      rewrite (app_assoc n1 n2).
      apply uploaded; try assumption.
      apply retention_run.
Qed.

End Archive.

Lemma app_cons_assoc {A} (pre : list A) (a : A) (l : list A) :
  (pre ++ a :: l = (pre ++ [a]) ++ l)%list.
Proof. now rewrite <- app_assoc. Qed.

Section Orchestrator.
Variables (g : Globals) (project gcsBucket token : string) (retentionDays : Z).
Let status := mkProjectStatus project "Complete" "no issue".

Lemma export_run (today : string) (w : World) (h : list Event) :
  let m := export_and_after g status project gcsBucket token retentionDays
                            today in
  export_shape g project gcsBucket token today (fst (m w h)) (snd (m w h)).
Proof.
  cbv zeta. unfold export_and_after, fail_with. unfold_calls.
  fold (staging_date today). fold staging_export.
  step.
  match goal with
  | |- context [w_MkdirAll w h ?p] => destruct (w_MkdirAll w h p) as [err|]
  end.
  { step. cbn [fst snd ret app]. apply date_folder_failed. }
  step.
  match goal with
  | |- context [match w_MkdirAll w ?h' ?p with _ => _ end] =>
      destruct (w_MkdirAll w h' p) as [err|]
  end.
  { step. cbn [fst snd ret app]. apply export_folder_failed. }
  step.
  match goal with
  | |- context [match cmd_err ?r with _ => _ end] =>
      destruct (cmd_err r) as [err|] eqn:He
  end.
  - step.
    match goal with
    | |- context [Contains ?m ?t] => destruct (Contains m t) eqn:Hc
    end; cbn [negb].
    + step. cbn [app]. eapply export_precondition; eauto.
      apply archive_run.
    + cbn [app].
      match goal with
      | |- context [bind (sendDiscordNotification g project today ?st ?rs)
                         _ w ?h'] =>
          destruct (notified_run g project today st rs w h')
            as [n1 [n2 [H1 [H2 Hn]]]]
      end.
      step. step. cbn [app ret fst snd]. rewrite app_nil_r.
      eapply export_failed; eauto.
  - cbn [app]. apply export_succeeded; [exact He |]. apply archive_run.
Qed.

(** Every run of [backupProject] has one of the shapes. *)
Lemma backupProject_shape (w : World) (h : list Event) :
  run_shape g project gcsBucket token
            (fst (backupProject g project gcsBucket token retentionDays w h))
            (snd (backupProject g project gcsBucket token retentionDays w h)).
Proof.
  unfold backupProject, backupExistsInGCS, fail_with. unfold_calls.
  step.
  assert (Hrest :
    forall pre h',
      Forall reset_event pre ->
      let m :=
        (merr <- ask (fun w h => w_MkdirAll w h apigeeBackupDir)
                     (EMkdirAll apigeeBackupDir) ;;
         match merr with
         | Some err =>
             tell (ELog ("Failed to create backup directory" ++ ": "
                         ++ err ++ nl)) ;;
             ret (failed status
                    ("Failed to create backup directory" ++ ": " ++ err))
         | None =>
             now <- ask (fun w h => w_Now w h) ENow ;;
             found <- (r <- ask (fun w h =>
                                   w_Exec w h
                                     (probe_cmd gcsBucket (GoTime.Format now)
                                                project))
                                (EExec (probe_cmd gcsBucket
                                          (GoTime.Format now) project)) ;;
                       ret match cmd_err r with
                           | Some _ => false
                           | None => true
                           end) ;;
             (if found
              then tell (ELog ("Backup for " ++ GoTime.Format now
                               ++ " already exists in GCS. Skipping new backup."
                               ++ nl)) ;;
                   ret status
              else export_and_after g status project gcsBucket token
                                    retentionDays (GoTime.Format now))
         end) in
      run_shape g project gcsBucket token (fst (m w h'))
                (pre ++ snd (m w h'))%list).
  { intros pre h' Hpre. cbv zeta. step.
    destruct (w_MkdirAll w h' apigeeBackupDir) as [err|] eqn:Hm.
    - step. cbn [fst snd ret app].
      rewrite (app_cons_assoc pre). apply reset_failed.
      apply Forall_app. split; [exact Hpre | repeat constructor].
    - step. step.
      match goal with
      | |- context [match cmd_err ?r with _ => _ end] =>
          destruct (cmd_err r) as [err|] eqn:Hp
      end.
      + cbn [app].
        rewrite (app_cons_assoc pre).
        eapply attempted; [| exact Hp | apply export_run].
        apply Forall_app. split; [exact Hpre | repeat constructor].
      + step. cbn [fst snd ret app].
        rewrite (app_cons_assoc pre).
        apply skipped; [| exact Hp].
        apply Forall_app. split; [exact Hpre | repeat constructor]. }
  destruct (negb (IsNotExist (w_Stat w h apigeeBackupDir))).
  - step.
    match goal with
    | |- context [match w_RemoveAll w ?h' ?p with _ => _ end] =>
        destruct (w_RemoveAll w h' p) as [err|]
    end.
    + step. cbn [fst snd ret app].
      apply (reset_failed g project gcsBucket token [_; _]).
      repeat constructor.
    + cbn [app].
      match goal with
      | |- run_shape _ _ _ _ (fst (_ w ?h')) (?a :: ?b :: _) =>
          apply (Hrest [a; b] h')
      end.
      repeat constructor.
  - step. cbn [app].
    match goal with
    | |- run_shape _ _ _ _ (fst (_ w ?h')) (?a :: _) =>
        apply (Hrest [a] h')
    end.
    repeat constructor.
Qed.

End Orchestrator.

End ShapeFacts.

(** ** Backup Orchestrator *)

Module OrchestratorProps.

Import GoTime Spec Backup RunFacts StringFacts RetentionProps ShapeFacts.

(** The listing of the sweep is never the probe of some date. *)
Lemma listing_is_no_probe (gcsBucket env date : string) :
  listing_cmd gcsBucket env <> probe_cmd gcsBucket date env.
Proof.
  unfold listing_cmd, probe_cmd, simple_cmd. intros H.
  injection H as H.
  apply append_inv_head in H. cbn [append] in H.
  injection H as H. apply append_inv_head in H.
  injection H as H. destruct date; discriminate.
Qed.

Ltac event_cases :=
  repeat match goal with
         | H : Forall _ (_ :: _) |- _ => inversion H; subst; clear H
         | H : Forall _ (_ ++ _) |- _ => apply Forall_app in H; destruct H
         | |- Forall _ (_ :: _) => constructor
         | |- Forall _ (_ ++ _) => apply Forall_app; split
         | |- Forall _ [] => constructor
         end.

Lemma sweep_event_class (e : Event) :
  sweep_event e ->
  is_export e = false /\ is_archive e = false /\ is_upload e = false
  /\ is_post e = false
  /\ (forall b p, no_probe b p e)
  /\ (forall b p r, e <> EExec (listing_cmd b p) r).
Proof.
  destruct e; cbn; try contradiction; intros H.
  - destruct H as [line ->]. repeat split; intros; discriminate.
  - repeat split; intros; discriminate.
Qed.

Lemma notify_event_class (g : Globals) (e : Event) :
  notify_event g e ->
  is_export e = false /\ is_archive e = false /\ is_upload e = false
  /\ (forall c r, e <> EExec c r).
Proof.
  destruct e; cbn; try contradiction; intros H;
    repeat split; intros; discriminate.
Qed.

Lemma reset_event_class (e : Event) :
  reset_event e -> idle_event e /\ (forall c r, e <> EExec c r).
Proof.
  destruct e; cbn; try contradiction; intros _;
    repeat split; intros; discriminate.
Qed.

Ltac in_cases H :=
  repeat match type of H with
         | In _ (_ ++ _)%list => apply in_app_or in H; destruct H as [H | H]
         | In _ (_ :: _) => destruct H as [H | H]
         | In _ [] => destruct H
         end.

(** An event that is a command cannot sit among events of a class that
    holds no such command. *)
Ltac not_among H :=
  match type of H with
  | In ?e ?l =>
      match goal with
      | F : Forall reset_event l |- _ =>
          rewrite Forall_forall in F; apply F in H;
          apply reset_event_class in H; destruct H as [_ H];
          exfalso; eapply H; reflexivity
      | F : Forall (notify_event _) l |- _ =>
          rewrite Forall_forall in F; apply F in H;
          apply notify_event_class in H; destruct H as (_ & _ & _ & H);
          exfalso; eapply H; reflexivity
      end
  end.

Section Runs.

Variables (g : Globals) (project gcsBucket token : string).

Let status : ProjectStatus := mkProjectStatus project "Complete" "no issue".

Lemma retention_shape_class out cl :
  retention_shape project gcsBucket out cl ->
  Forall (fun e => is_export e = false /\ is_archive e = false
                   /\ is_upload e = false /\ is_post e = false
                   /\ no_probe gcsBucket project e) cl.
Proof.
  assert (Hl : forall lr, no_probe gcsBucket project
                            (EExec (listing_cmd gcsBucket project) lr)).
  { intros lr date r H.
    apply (listing_is_no_probe gcsBucket project date). congruence. }
  assert (Hs : forall sweep, Forall sweep_event sweep ->
     Forall (fun e => is_export e = false /\ is_archive e = false
                   /\ is_upload e = false /\ is_post e = false
                   /\ no_probe gcsBucket project e) sweep).
  { intros sweep H. eapply Forall_impl; [| exact H].
    intros e He. apply sweep_event_class in He.
    destruct He as (? & ? & ? & ? & Hp & _). repeat split; auto. }
  intros H. inversion H; subst; event_cases;
    try (apply Hs; assumption);
    repeat split; try reflexivity; try apply Hl; intros ? ?; discriminate.
Qed.

Lemma notified_class today st reason n :
  notified g project today st reason n ->
  Forall (fun e => is_export e = false /\ is_archive e = false
                   /\ is_upload e = false
                   /\ no_probe gcsBucket project e) n.
Proof.
  intros [H _]. eapply Forall_impl; [| exact H].
  intros e He. apply notify_event_class in He.
  destruct He as (? & ? & ? & Hc). repeat split; auto.
  intros date r. apply Hc.
Qed.

Lemma archive_shape_class today out sw :
  archive_shape g project gcsBucket today out sw ->
  Forall (fun e => is_export e = false /\ no_probe gcsBucket project e) sw.
Proof.
  intros H. inversion H; subst; event_cases;
    try (repeat split; try reflexivity; intros ? ?; discriminate).
  - eapply Forall_impl; [| eapply notified_class; eassumption].
    cbn. intuition.
  - eapply Forall_impl; [| eapply retention_shape_class; eassumption].
    cbn. intuition.
Qed.

Lemma export_shape_no_probe today out ex :
  export_shape g project gcsBucket token today out ex ->
  Forall (no_probe gcsBucket project) ex.
Proof.
  intros H. inversion H; subst; event_cases;
    try (intros ? ?; discriminate);
    try (eapply Forall_impl; [| eapply archive_shape_class; eassumption];
         cbn; intuition).
  eapply Forall_impl; [| eapply notified_class; eassumption]. cbn. intuition.
Qed.

(** C2: when the existence probe of a run answers that today's backup is
    there, the outcome is [Complete] with reason [no issue], and the run
    holds no export, no archiving, no upload and no post. *)
Theorem probe_found_skips_project (retentionDays : Z) (w : World)
        (h : list Event) (date : string) (r : CmdResult) :
  let run := backupProject g project gcsBucket token retentionDays w h in
  In (EExec (probe_cmd gcsBucket date project) r) (snd run) ->
  cmd_err r = None ->
  fst run = Ret (mkProjectStatus project "Complete" "no issue")
  /\ Forall idle_event (snd run).
Proof.
  cbv zeta. intros Hin Hr.
  pose proof (backupProject_shape g project gcsBucket token retentionDays w h)
    as Hshape.
  destruct (backupProject g project gcsBucket token retentionDays w h)
    as [out es].
  cbn [fst snd] in *.
  inversion Hshape as [pre reason msg Hpre | pre now r0 msg Hpre Hr0
                      | pre now r0 err out' rest Hpre Hr0 Hex]; subst.
  - in_cases Hin; try discriminate. not_among Hin.
  - split; [reflexivity |].
    apply Forall_app. split.
    + eapply Forall_impl; [| exact Hpre]. intros e He.
      now apply reset_event_class in He.
    + repeat constructor.
  - exfalso. in_cases Hin; try discriminate.
    + not_among Hin.
    + injection Hin as _ <-. congruence.
    + apply export_shape_no_probe in Hex.
      rewrite Forall_forall in Hex. eapply Hex; [exact Hin | reflexivity].
Qed.


Lemma archive_shape_continues today out sw :
  archive_shape g project gcsBucket today out sw ->
  continues_to_archive sw.
Proof.
  intros H. inversion H; subst; split.
  - eexists. split; [left; reflexivity | reflexivity].
  - intros c r Hin Hn Hr. exfalso.
    in_cases Hin; try discriminate. injection Hin as _ <-. congruence.
  - eexists. split; [left; reflexivity | reflexivity].
  - intros _ _ _ _ _. eexists. split; [right; left; reflexivity | reflexivity].
  - eexists. split; [left; reflexivity | reflexivity].
  - intros _ _ _ _ _. eexists. split; [right; left; reflexivity | reflexivity].
Qed.

Lemma continues_after (pre sw : list Event) :
  Forall (fun e => is_archive e = false) pre ->
  continues_to_archive sw ->
  continues_to_archive (pre ++ sw).
Proof.
  intros Hpre [[e [He Ha]] Hup]. split.
  - exists e. split; [apply in_or_app; now right | exact Ha].
  - intros c r Hin Hn Hr. apply in_app_or in Hin. destruct Hin as [Hin | Hin].
    + rewrite Forall_forall in Hpre. apply Hpre in Hin.
      cbn in Hin. rewrite Hn in Hin. discriminate.
    + destruct (Hup c r Hin Hn Hr) as [e' [He' Hu]].
      exists e'. split; [apply in_or_app; now right | exact Hu].
Qed.

(** What a failed export leads to, by the classified message. *)
Lemma export_failure_cases (retentionDays : Z) (w : World) (h : list Event)
      (c : Cmd) (r : CmdResult) (err : error) :
  let run := backupProject g project gcsBucket token retentionDays w h in
  let message := parseError (cmd_stderr r) in
  In (EExec c r) (snd run) ->
  cmd_name c = "bash" ->
  cmd_err r = Some err ->
  (Contains message "FAILED_PRECONDITION" = true
   /\ continues_to_archive (snd run))
  \/ (Contains message "FAILED_PRECONDITION" = false
      /\ fst run = Ret (mkProjectStatus project "Failed" message)
      /\ posted_to_sinks g project "Failed" message (snd run)
      /\ Forall (fun e => is_archive e = false /\ is_upload e = false)
                (snd run)).
Proof.
  cbv zeta. intros Hin Hn Hr.
  pose proof (backupProject_shape g project gcsBucket token retentionDays w h)
    as Hshape.
  destruct (backupProject g project gcsBucket token retentionDays w h)
    as [out es].
  cbn [fst snd] in *.
  assert (Hbash : forall l,
             Forall (fun e => is_export e = false
                              /\ no_probe gcsBucket project e) l ->
             In (EExec c r) l -> False).
  { intros l Hl Hi. rewrite Forall_forall in Hl. apply Hl in Hi.
    destruct Hi as [Hi _]. cbn in Hi. rewrite Hn in Hi. discriminate. }
  assert (Hreset : forall l,
             Forall reset_event l ->
             Forall (fun e => is_archive e = false /\ is_upload e = false) l).
  { intros l Hl. eapply Forall_impl; [| exact Hl]. intros e He.
    apply reset_event_class in He. destruct He as [(_ & ? & ? & _) _]. auto. }
  inversion Hshape as [pre reason msg Hpre | pre now r0 msg Hpre Hr0
                      | pre now r0 err0 out' rest Hpre Hr0 Hex]; subst.
  - exfalso. in_cases Hin; try discriminate. not_among Hin.
  - exfalso. in_cases Hin; try discriminate; [not_among Hin |].
    injection Hin as <- _. discriminate.
  - in_cases Hin; try discriminate; [exfalso; not_among Hin | |].
    { exfalso. injection Hin as <- _. discriminate. }
    inversion Hex; subst; in_cases Hin; try discriminate.
    + exfalso. injection Hin as _ <-. congruence.
    + exfalso. eapply Hbash; [eapply archive_shape_class | ]; eassumption.
    + injection Hin as <- <-. right.
      match goal with
      | Hn : notified _ _ _ _ _ _ |- _ => destruct Hn as (Hev & Hd & Hw)
      end.
      repeat split; try assumption.
      * intros Hu. destruct (Hd Hu) as [resp Hresp].
        exists (Format now), resp. apply in_or_app. right.
        do 6 right. exact Hresp.
      * intros Hu. destruct (Hw Hu) as [now' [resp Hresp]].
        exists now', resp. apply in_or_app. right.
        do 6 right. exact Hresp.
      * apply Forall_app. split; [now apply Hreset |].
        repeat (constructor; [split; reflexivity |]).
        eapply Forall_impl; [| exact Hev]. intros e He.
        apply notify_event_class in He. destruct He as (_ & ? & ? & _). auto.
    + exfalso.
      match goal with
      | Hn : notified _ _ _ _ _ _ |- _ => destruct Hn as (Hev & _)
      end.
      not_among Hin.
    + injection Hin as <- <-. left. split; [assumption |].
      apply continues_after.
      * eapply Forall_impl; [| apply Hreset; exact Hpre]. cbn. intuition.
      * match goal with
        | |- continues_to_archive
               (?a :: ?b :: ?c :: ?d :: ?e :: ?f :: ?g :: ?sw) =>
            change (continues_to_archive ([a; b; c; d; e; f; g] ++ sw))
        end.
        apply continues_after; [repeat constructor |].
        eapply archive_shape_continues; eassumption.
    + exfalso. eapply Hbash; [eapply archive_shape_class | ]; eassumption.
Qed.


(** C4: when the export tool fails, the classified message decides. If it
    names the precondition failure, processing goes on to the archive and
    upload steps. Otherwise the outcome is [Failed] with the classified
    message as reason, each configured sink is posted a [Failed] message,
    and neither the archiver nor an upload is run. *)
Theorem export_failure_handling (retentionDays : Z) (w : World)
        (h : list Event) (c : Cmd) (r : CmdResult) (err : error) :
  let run := backupProject g project gcsBucket token retentionDays w h in
  let message := parseError (cmd_stderr r) in
  In (EExec c r) (snd run) ->
  cmd_name c = "bash" ->
  cmd_err r = Some err ->
  (Contains message "FAILED_PRECONDITION" = true ->
   continues_to_archive (snd run))
  /\ (Contains message "FAILED_PRECONDITION" = false ->
      fst run = Ret (mkProjectStatus project "Failed" message)
      /\ posted_to_sinks g project "Failed" message (snd run)
      /\ Forall (fun e => is_archive e = false /\ is_upload e = false)
                (snd run)).
Proof.
  cbv zeta. intros Hin Hn Hr.
  destruct (export_failure_cases retentionDays w h c r err Hin Hn Hr)
    as [[Hc Hgo] | [Hc Hstop]].
  - split; [intros _; exact Hgo | intros Hc'; congruence].
  - split; [intros Hc'; congruence | intros _; exact Hstop].
Qed.

(** C10, as the code has it: after a failed export, processing goes on to
    the archive and upload steps exactly when the classified message
    contains the token. A raw error stream that is not a JSON object goes on
    when it contains the token and does not contain the unauthorized
    phrase. *)
Theorem continue_iff_classified_token (retentionDays : Z) (w : World)
        (h : list Event) (c : Cmd) (r : CmdResult) (err : error) :
  let run := backupProject g project gcsBucket token retentionDays w h in
  In (EExec c r) (snd run) ->
  cmd_name c = "bash" ->
  cmd_err r = Some err ->
  (continues_to_archive (snd run)
   <-> Contains (parseError (cmd_stderr r)) "FAILED_PRECONDITION" = true)
  /\ (Json.Unmarshal (cmd_stderr r) = None ->
      Contains (cmd_stderr r) "FAILED_PRECONDITION" = true ->
      Contains (cmd_stderr r) unauthorized = false ->
      continues_to_archive (snd run)).
Proof.
  cbv zeta. intros Hin Hn Hr.
  destruct (export_failure_cases retentionDays w h c r err Hin Hn Hr)
    as [[Hc Hgo] | [Hc (_ & _ & Hstop)]].
  - split; [split; auto |]. intros _ _ _. exact Hgo.
  - split.
    + split; [| congruence].
      intros [[e [He Ha]] _]. rewrite Forall_forall in Hstop.
      apply Hstop in He. destruct He as [He _]. congruence.
    + intros Hj Ht Hu. exfalso.
      unfold parseError, parseError_structured in Hc.
      rewrite Hj, Hu in Hc. congruence.
Qed.

Lemma posted_after (pre es : list Event) (st reason : string) :
  posted_to_sinks g project st reason es ->
  posted_to_sinks g project st reason (pre ++ es).
Proof.
  intros [Hd Hw]. split.
  - intros Hu. destruct (Hd Hu) as [today [resp H]].
    exists today, resp. apply in_or_app. now right.
  - intros Hu. destruct (Hw Hu) as [now [resp H]].
    exists now, resp. apply in_or_app. now right.
Qed.

Lemma downgraded_after (pre : list Event) r e out es :
  downgraded g project gcsBucket r e out es ->
  downgraded g project gcsBucket r e out (pre ++ es).
Proof.
  intros [Ho [before [msg [-> Hp]]]]. split; [exact Ho |].
  exists (pre ++ before)%list, msg. split; [now rewrite app_assoc |].
  now apply posted_after.
Qed.

Lemma retention_shape_downgraded out cl r e :
  retention_shape project gcsBucket out cl ->
  In (EExec (listing_cmd gcsBucket project) r) cl ->
  cmd_err r = Some e ->
  out = Ret (mkProjectStatus project "Failed"
               ("Failed to clean up old backups: "
                ++ "failed to list GCS bucket: " ++ e))
  /\ exists msg, cl = [EExec (listing_cmd gcsBucket project) r; ELog msg].
Proof.
  intros H Hin Hr.
  assert (Hsweep : forall sweep, Forall sweep_event sweep ->
                                 In (EExec (listing_cmd gcsBucket project) r)
                                    sweep -> False).
  { intros sweep Hs Hi. rewrite Forall_forall in Hs. apply Hs in Hi.
    apply sweep_event_class in Hi. destruct Hi as (_ & _ & _ & _ & _ & Hi).
    eapply Hi. reflexivity. }
  inversion H; subst; in_cases Hin; try discriminate.
  - injection Hin as <-.
    assert (e0 = e) by congruence. subst e0.
    split; [reflexivity | now eexists].
  - injection Hin as <-. congruence.
  - exfalso. eauto.
  - injection Hin as <-. congruence.
  - exfalso. eauto.
Qed.

Lemma archive_shape_downgraded today out sw r e :
  archive_shape g project gcsBucket today out sw ->
  In (EExec (listing_cmd gcsBucket project) r) sw ->
  cmd_err r = Some e ->
  downgraded g project gcsBucket r e out sw.
Proof.
  intros H Hin Hr.
  inversion H as [| | zr ur n cl out' Hz Hu Hn Hret]; subst;
    in_cases Hin; try discriminate.
  - destruct Hn as [Hev _]. not_among Hin.
  - destruct (retention_shape_downgraded _ _ _ _ Hret Hin Hr)
      as [-> [msg ->]].
    split; [reflexivity |].
    eexists (_ :: _ :: n), msg. split; [reflexivity |].
    destruct Hn as (_ & Hd & Hw). split.
    + intros Hempty. destruct (Hd Hempty) as [resp Hresp].
      exists today, resp. right. right. exact Hresp.
    + intros Hempty. destruct (Hw Hempty) as [now [resp Hresp]].
      exists now, resp. right. right. exact Hresp.
Qed.

(** C8: when the listing of the retention sweep fails, the outcome is
    [Failed] with the retention error as reason; the [Complete] posts to
    the configured sinks came before and nothing follows the failed listing
    but a log line. *)
Theorem retention_failure_downgrades (retentionDays : Z) (w : World)
        (h : list Event) (r : CmdResult) (e : error) :
  let run := backupProject g project gcsBucket token retentionDays w h in
  In (EExec (listing_cmd gcsBucket project) r) (snd run) ->
  cmd_err r = Some e ->
  fst run = Ret (mkProjectStatus project "Failed"
                   ("Failed to clean up old backups: "
                    ++ "failed to list GCS bucket: " ++ e))
  /\ exists before msg,
       snd run
       = (before ++ [EExec (listing_cmd gcsBucket project) r; ELog msg])%list
       /\ posted_to_sinks g project "Complete" "no issue" before.
Proof.
  cbv zeta. intros Hin Hr.
  pose proof (backupProject_shape g project gcsBucket token retentionDays w h)
    as Hshape.
  destruct (backupProject g project gcsBucket token retentionDays w h)
    as [out es].
  cbn [fst snd] in *.
  change (downgraded g project gcsBucket r e out es).
  inversion Hshape as [pre reason msg Hpre | pre now r0 msg Hpre Hr0
                      | pre now r0 err0 out' rest Hpre Hr0 Hex]; subst.
  - exfalso. in_cases Hin; try discriminate. not_among Hin.
  - exfalso. in_cases Hin; try discriminate; [not_among Hin |].
    apply (listing_is_no_probe gcsBucket project (Format now)). congruence.
  - in_cases Hin; try discriminate; [exfalso; not_among Hin | |].
    { exfalso.
      apply (listing_is_no_probe gcsBucket project (Format now)).
      congruence. }
    apply downgraded_after.
    inversion Hex; subst; in_cases Hin; try discriminate.
    + apply (downgraded_after [_; _; _; _; _]).
      eapply archive_shape_downgraded; eassumption.
    + exfalso.
      match goal with
      | Hn : notified _ _ _ _ _ _ |- _ => destruct Hn as (Hev & _)
      end.
      not_among Hin.
    + apply (downgraded_after [_; _; _; _; _; _; _]).
      eapply archive_shape_downgraded; eassumption.
Qed.

End Runs.

(** *** Outcomes *)

(** A run ends with a status for its own project, or with the panic of the
    retention sweep; it never exits the process. *)
Lemma backupProject_outcome (g : Globals) (project gcsBucket token : string)
      (retentionDays : Z) (w : World) (h : list Event) :
  (exists st, fst (backupProject g project gcsBucket token retentionDays w h)
              = Ret st /\ Project st = project)
  \/ fst (backupProject g project gcsBucket token retentionDays w h)
     = Panic slice_panic.
Proof.
  pose proof (backupProject_shape g project gcsBucket token retentionDays w h)
    as Hshape.
  destruct (backupProject g project gcsBucket token retentionDays w h)
    as [out es].
  cbn [fst snd] in *.
  assert (Hret : forall out cl, retention_shape project gcsBucket out cl ->
            (exists st, out = Ret st /\ Project st = project)
            \/ out = Panic slice_panic).
  { intros o cl H. inversion H; subst; [left | left | right];
      try reflexivity; eexists; split; reflexivity. }
  assert (Harch : forall today out sw,
            archive_shape g project gcsBucket today out sw ->
            (exists st, out = Ret st /\ Project st = project)
            \/ out = Panic slice_panic).
  { intros today o sw H. inversion H; subst; eauto;
      left; eexists; split; reflexivity. }
  inversion Hshape as [| | pre now r0 err0 out' rest Hpre Hr0 Hex]; subst;
    try (left; eexists; split; reflexivity).
  inversion Hex; subst; eauto; left; eexists; split; reflexivity.
Qed.

(** When the loop of [main] returns, it has appended one status per
    project, in order. *)
Lemma main_loop_statuses (g : Globals) (projects : list string)
      (gcsBucket token : string) (retentionDays : Z)
      (acc statuses : list ProjectStatus) (w : World) (h : list Event) :
  fst (main_loop g projects gcsBucket token retentionDays acc w h)
  = Ret statuses ->
  map Project statuses = (map Project acc ++ projects)%list.
Proof.
  revert acc h. induction projects as [|p rest IH]; intros acc h H.
  - cbn in H. injection H as <-. now rewrite app_nil_r.
  - cbn [main_loop] in H. unfold bind in H.
    destruct (backupProject_outcome g p gcsBucket token retentionDays w h)
      as [[st [Hst Hp]] | Hpanic].
    + destruct (backupProject g p gcsBucket token retentionDays w h)
        as [o es]. cbn [fst] in Hst. subst o.
      match type of H with
      | context [main_loop g rest gcsBucket token retentionDays ?a w ?h'] =>
          specialize (IH a h');
          destruct (main_loop g rest gcsBucket token retentionDays a w h')
            as [o' es']
      end.
      cbn [fst] in *. rewrite (IH H), map_app. cbn [map].
      rewrite Hp, <- app_assoc. reflexivity.
    + destruct (backupProject g p gcsBucket token retentionDays w h)
        as [o es]. cbn [fst] in Hpanic. subst o. discriminate.
Qed.

(** A project that ends with a status lets the loop go on to the next
    project with that status appended. *)
Lemma main_loop_advances (g : Globals) (project : string)
      (rest : list string) (gcsBucket token : string) (retentionDays : Z)
      (acc : list ProjectStatus) (w : World) (h : list Event)
      (st : ProjectStatus) :
  let run := backupProject g project gcsBucket token retentionDays w h in
  let next := main_loop g rest gcsBucket token retentionDays
                        (acc ++ [st])%list w (h ++ snd run)%list in
  fst run = Ret st ->
  main_loop g (project :: rest) gcsBucket token retentionDays acc w h
  = (fst next, (snd run ++ snd next)%list).
Proof.
  cbv zeta. intros H. cbn [main_loop].
  rewrite (run_bind_ret _ _ w h st
             (snd (backupProject g project gcsBucket token retentionDays
                                 w h))); [reflexivity |].
  destruct (backupProject g project gcsBucket token retentionDays w h)
    as [o es].
  cbn [fst snd] in *. now subst o.
Qed.

(** A project that panics ends the loop: no status, no further project. *)
Lemma main_loop_panics (g : Globals) (project : string)
      (rest : list string) (gcsBucket token : string) (retentionDays : Z)
      (acc : list ProjectStatus) (w : World) (h : list Event)
      (msg : string) :
  let run := backupProject g project gcsBucket token retentionDays w h in
  fst run = Panic msg ->
  main_loop g (project :: rest) gcsBucket token retentionDays acc w h
  = (Panic msg, snd run).
Proof.
  cbv zeta. intros H. cbn [main_loop]. unfold bind.
  destruct (backupProject g project gcsBucket token retentionDays w h)
    as [o es].
  cbn [fst snd] in *. now subst o.
Qed.

(** *** Concrete runs *)

Ltac in_list := vm_compute; repeat (first [left; reflexivity | right]).

(** Today's folder exists: project [p] is skipped. *)
Lemma probe_found_skips_project_witness :
  let run := backupProject Examples.both_sinks "p" "b" "token" 30
                           Examples.found_world [] in
  fst run = Ret (mkProjectStatus "p" "Complete" "no issue")
  /\ Forall idle_event (snd run).
Proof.
  apply (probe_found_skips_project Examples.both_sinks "p" "b" "token" 30
           Examples.found_world [] "2024-03-01" Examples.succeeded).
  - in_list.
  - reflexivity.
Defined.

(** The two scenarios of the specification: the export fails with the
    precondition payload and processing goes on; it fails with the quota
    payload and the project fails with both sinks notified. *)
Lemma export_failure_handling_witness :
  continues_to_archive
    (snd (backupProject Examples.both_sinks "p" "b" "token" 30
            (Examples.export_fails_world Examples.precondition_payload) []))
  /\ (let run := backupProject Examples.both_sinks "p" "b" "token" 30
                   (Examples.export_fails_world Examples.quota_payload) [] in
      fst run = Ret (mkProjectStatus "p" "Failed" "quota exceeded")
      /\ posted_to_sinks Examples.both_sinks "p" "Failed" "quota exceeded"
                         (snd run)
      /\ Forall (fun e => is_archive e = false /\ is_upload e = false)
                (snd run)).
Proof.
  split.
  - apply (proj1 (export_failure_handling Examples.both_sinks "p" "b" "token"
                    30 (Examples.export_fails_world
                          Examples.precondition_payload) []
                    Examples.the_export
                    (Examples.exit_status_1 Examples.precondition_payload)
                    "exit status 1" ltac:(in_list) eq_refl eq_refl)).
    vm_compute. reflexivity.
  - change "quota exceeded"
      with (parseError (cmd_stderr
                          (Examples.exit_status_1 Examples.quota_payload))).
    apply (proj2 (export_failure_handling Examples.both_sinks "p" "b" "token"
                    30 (Examples.export_fails_world Examples.quota_payload) []
                    Examples.the_export
                    (Examples.exit_status_1 Examples.quota_payload)
                    "exit status 1" ltac:(in_list) eq_refl eq_refl)).
    vm_compute. reflexivity.
Defined.

(** A raw error stream with the token and without the unauthorized phrase:
    processing goes on. *)
Lemma continue_iff_classified_token_witness :
  continues_to_archive
    (snd (backupProject Examples.no_sinks "p" "b" "token" 30
            (Examples.export_fails_world Examples.raw_precondition_text) [])).
Proof.
  apply (proj2 (continue_iff_classified_token Examples.no_sinks "p" "b"
                  "token" 30
                  (Examples.export_fails_world Examples.raw_precondition_text)
                  [] Examples.the_export
                  (Examples.exit_status_1 Examples.raw_precondition_text)
                  "exit status 1" ltac:(in_list) eq_refl eq_refl));
    vm_compute; reflexivity.
Defined.

(** C10 as stated fails on a raw error stream that contains the token and
    the unauthorized phrase: it is no JSON object, it contains the token,
    the classifier answers with the canonical unauthorized message, and the
    project fails without any archive or upload. *)
Lemma raw_token_with_unauthorized_counterexample :
  let stderr := Examples.mixed_text in
  let run := backupProject Examples.no_sinks "p" "b" "token" 30
                           (Examples.export_fails_world stderr) [] in
  In (EExec Examples.the_export (Examples.exit_status_1 stderr)) (snd run)
  /\ Json.Unmarshal stderr = None
  /\ Contains stderr "FAILED_PRECONDITION" = true
  /\ parseError stderr = unauthorized
  /\ fst run = Ret (mkProjectStatus "p" "Failed" unauthorized)
  /\ ~ continues_to_archive (snd run).
Proof.
  cbv zeta. split; [in_list |].
  repeat (split; [vm_compute; reflexivity |]).
  intros [[e [He Ha]] _]. vm_compute in He.
  repeat (destruct He as [<- | He]; [discriminate Ha |]). exact He.
Qed.

(** The listing of the sweep is refused: the project is downgraded after
    both sinks were told [Complete]. *)
Lemma retention_failure_downgrades_witness :
  let run := backupProject Examples.both_sinks "p" "b" "token" 30
                           Examples.no_listing_world [] in
  let r := Examples.exit_status_1 "AccessDeniedException: 403" in
  fst run = Ret (mkProjectStatus "p" "Failed"
                   ("Failed to clean up old backups: "
                    ++ "failed to list GCS bucket: " ++ "exit status 1"))
  /\ exists before msg,
       snd run = (before ++ [EExec (listing_cmd "b" "p") r; ELog msg])%list
       /\ posted_to_sinks Examples.both_sinks "p" "Complete" "no issue" before.
Proof.
  apply (retention_failure_downgrades Examples.both_sinks "p" "b" "token" 30
           Examples.no_listing_world []
           (Examples.exit_status_1 "AccessDeniedException: 403")
           "exit status 1").
  - in_list.
  - reflexivity.
Defined.

(** C1 at its failing input: project [p] is backed up and uploaded, then the
    listing of its folder holds the folder placeholder [gs://b/p/]. The
    sweep panics, [backupProject] yields no status, and [main] ends in the
    same panic having exported [p] only: project [q] is never reached. *)
Theorem backupProject_panics_on_placeholder :
  let w := Examples.placeholder_world in
  fst (readProjectFile "projects.txt" w []) = Ret (["p"; "q"], None)
  /\ fst (backupProject Examples.no_sinks "p" "b" "token" 30 w [])
     = Panic slice_panic
  /\ fst (main Examples.flags w []) = Panic slice_panic
  /\ filter is_export (snd (main Examples.flags w []))
     = [EExec Examples.the_export Examples.succeeded].
Proof.
  cbv zeta. repeat split; vm_compute; reflexivity.
Qed.

End OrchestratorProps.

(** ** The bucket: upload and existence probe *)

Module BucketProps.

Import GoTime Spec Backup StringFacts.

Lemma has_sep_append (a b : string) :
  has_sep (a ++ b) = has_sep a || has_sep b.
Proof.
  induction a as [|c a IH]; cbn [append has_sep]; [reflexivity |].
  now rewrite IH, orb_assoc.
Qed.

Lemma has_sep_rev (s : string) : has_sep (rev s) = has_sep s.
Proof.
  induction s as [|c s IH]; [reflexivity |].
  rewrite rev_cons, has_sep_append, IH. cbn [has_sep str1].
  rewrite orb_false_r. apply orb_comm.
Qed.

Lemma has_sep_take_while (r : string) :
  has_sep (take_while (fun c => negb (FilePath.is_sep c)) r) = false.
Proof.
  induction r as [|c r IH]; cbn [take_while]; [reflexivity |].
  destruct (FilePath.is_sep c) eqn:Hc; cbn [negb has_sep]; [reflexivity |].
  now rewrite Hc, IH.
Qed.

(** A base name is a single separator or holds none. *)
Lemma Base_shape (path : string) :
  FilePath.Base path = "/" \/ has_sep (FilePath.Base path) = false.
Proof.
  unfold FilePath.Base.
  destruct (is_empty path); [now right |].
  destruct (is_empty (take_while _ _)); [now left |].
  right. rewrite has_sep_rev. apply has_sep_take_while.
Qed.

Lemma HasPrefix_sep (s d : string) :
  HasPrefix s (d ++ "/") = true -> has_sep s = true.
Proof.
  revert s. induction d as [|c d IH]; intros s H.
  - destruct s as [|x s]; cbn [append HasPrefix] in H; [discriminate |].
    apply andb_prop in H. destruct H as [H _].
    apply Ascii.eqb_eq in H. subst x. reflexivity.
  - destruct s as [|x s]; cbn [append HasPrefix] in H; [discriminate |].
    apply andb_prop in H. destruct H as [_ H].
    cbn [has_sep]. rewrite (IH _ H). apply orb_true_r.
Qed.

Lemma HasPrefix_app_same (a x y : string) :
  HasPrefix (a ++ x) (a ++ y) = HasPrefix x y.
Proof.
  induction a as [|c a IH]; cbn [append HasPrefix]; [reflexivity |].
  now rewrite Ascii.eqb_refl, IH.
Qed.

(** Whatever file is uploaded for a project, its destination is not under
    the folder the probe lists for a date. *)
Lemma upload_dest_not_under_date (gcsBucket sourceFile env date : string) :
  date <> EmptyString ->
  HasPrefix (upload_dest gcsBucket sourceFile env)
            ("gs://" ++ gcsBucket ++ "/" ++ env ++ "/" ++ date ++ "/")
  = false.
Proof.
  intros Hd. unfold upload_dest.
  rewrite !HasPrefix_app_same.
  destruct (HasPrefix (FilePath.Base sourceFile) (date ++ "/")) eqn:H;
    [| reflexivity].
  exfalso.
  destruct (Base_shape sourceFile) as [Hb | Hb].
  - rewrite Hb in H. destruct date as [|c d]; [now elim Hd |].
    cbn [append HasPrefix] in H. apply andb_prop in H. destruct H as [_ H].
    destruct d; discriminate H.
  - apply HasPrefix_sep in H. congruence.
Qed.

(** In the bucket model an upload never changes the answer of the probe. *)
Lemma probe_unchanged_by_upload (objs : list string)
      (gcsBucket sourceFile env date : string) :
  date <> EmptyString ->
  let url := "gs://" ++ gcsBucket ++ "/" ++ env ++ "/" ++ date ++ "/" in
  Examples.gsutil_ls (objs ++ [upload_dest gcsBucket sourceFile env]) url
  = Examples.gsutil_ls objs url.
Proof.
  intros Hd. cbv zeta. unfold Examples.gsutil_ls.
  rewrite filter_app. cbn [filter].
  rewrite (upload_dest_not_under_date _ _ _ _ Hd).
  now rewrite app_nil_r.
Qed.

(** C3 at its failing input: on an empty bucket, at noon on 2024-03-01,
    project [p] is backed up and its archive is uploaded to
    [gs://b/p/backup_p_2024-03-01.zip]. The probe for that bucket, date and
    project then lists [gs://b/p/2024-03-01/], finds nothing and answers
    false, and a second run on the same day exports and uploads again. *)
Theorem probe_misses_uploaded_archive :
  let w := Examples.empty_bucket_world in
  let run1 := backupProject Examples.no_sinks "p" "b" "token" 30 w [] in
  let run2 :=
    backupProject Examples.no_sinks "p" "b" "token" 30 w (snd run1) in
  fst run1 = Ret (mkProjectStatus "p" "Complete" "no issue")
  /\ Examples.objects_after [] (snd run1)
     = ["gs://b/p/backup_p_2024-03-01.zip"]
  /\ fst (backupExistsInGCS "b" "2024-03-01" "p" w (snd run1)) = Ret false
  /\ filter is_export (snd run2)
     = [EExec Examples.the_export Examples.succeeded]
  /\ List.length (filter is_upload (snd run2)) = 1%nat.
Proof.
  cbv zeta. repeat split; vm_compute; reflexivity.
Qed.

End BucketProps.

(** ** The scenarios of the specification *)

Module Scenarios.

Import GoTime Spec Backup.

(** Retention of 30 days on 2024-03-01: the archive of 2024-01-01 is
    deleted, the one of 2024-02-20 is kept, the unparsable name is logged
    and kept, and the sweep reports success. *)
Example retention_scenario :
  let run := cleanupOldBackups "b" 30 "proj-a" Examples.retention_world [] in
  fst run = Ret None
  /\ deleted (snd run) = ["gs://b/proj-a/backup_proj-a_2024-01-01.zip"]
  /\ In (ELog ("Failed to parse date from path "
               ++ "gs://b/proj-a/backup_proj-a_notadate1.zip: "
               ++ parse_error "notadate1" ++ nl)) (snd run).
Proof.
  cbv zeta. split; [| split]; vm_compute; auto 10.
Qed.

(** Two projects, today's archive folder there for the first only: both end
    [Complete], and only the second is exported and uploaded. *)
Example two_project_scenario :
  let flags := mkFlags "projects.txt" "b" "token" 30
                       EmptyString EmptyString EmptyString in
  let run := main flags Examples.two_project_world [] in
  fst run = Ret [mkProjectStatus "proj-a" "Complete" "no issue";
                 mkProjectStatus "proj-b" "Complete" "no issue"]
  /\ filter is_export (snd run)
     = [EExec (export_cmd "/tmp/apigee_backup/export" "proj-b" "token")
              Examples.succeeded]
  /\ map (fun e => match e with
                   | EExec c _ => cmd_args c
                   | _ => []
                   end) (filter is_upload (snd run))
     = [["cp"; "/tmp/apigee_backup/2024-03-01/backup_proj-b_2024-03-01.zip";
         "gs://b/proj-b/backup_proj-b_2024-03-01.zip"]].
Proof.
  cbv zeta. split; [| split]; vm_compute; reflexivity.
Qed.

(** No sink configured: the run completes without a single post. *)
Example no_sink_scenario :
  let flags := mkFlags "projects.txt" "b" "token" 30
                       EmptyString EmptyString EmptyString in
  let run := main flags Examples.two_project_world [] in
  filter is_post (snd run) = [].
Proof. vm_compute. reflexivity. Qed.

End Scenarios.
(** ** Runs that do not return *)

Module BindFacts.

(** A bind whose head exits or panics ends there. *)
Lemma run_bind_exit {A B} (m : M A) (f : A -> M B) (w : World)
      (h : list Event) (code : Z) (es : list Event) :
  m w h = (Exit code, es) -> bind m f w h = (Exit code, es).
Proof. intros H. unfold bind. now rewrite H. Qed.

Lemma run_bind_panic {A B} (m : M A) (f : A -> M B) (w : World)
      (h : list Event) (msg : string) (es : list Event) :
  m w h = (Panic msg, es) -> bind m f w h = (Panic msg, es).
Proof. intros H. unfold bind. now rewrite H. Qed.

End BindFacts.

(** ** Logging set-up *)

(** One step of a run, at the outermost bind. *)
Ltac advance :=
  match goal with
  | |- context [bind ?m ?f ?w ?h] =>
      erewrite (ShapeFacts.run_bind_ret m f w h)
        by (first [eassumption | reflexivity])
  end;
  cbn [fst snd].

Module LoggingProps.

Import GoTime Spec Backup StringFacts ShapeFacts Traces.

Lemma rotate_from_run (i : nat) (w : World) (h : list Event) :
  fst (rotate_from i w h) = Ret tt /\ rotation i (snd (rotate_from i w h)).
Proof.
  revert h. induction i as [|i IH]; intros h.
  - split; [reflexivity | constructor].
  - cbn [rotate_from]. unfold_calls. advance.
    destruct (w_Stat w h (rotated_log (Z.of_nat (S i)))) as [size | | e] eqn:Hs.
    + advance. cbn [app].
      match goal with
      | |- context [rotate_from i w ?h'] => destruct (IH h') as [Ho Hes]
      end.
      split; [exact Ho |]. now apply rotation_moved.
    + advance. cbn [app].
      match goal with
      | |- context [rotate_from i w ?h'] => destruct (IH h') as [Ho Hes]
      end.
      split; [exact Ho |].
      apply rotation_kept; [discriminate | exact Hes].
    + advance. cbn [app].
      match goal with
      | |- context [rotate_from i w ?h'] => destruct (IH h') as [Ho Hes]
      end.
      split; [exact Ho |].
      apply rotation_kept; [discriminate | exact Hes].
Qed.

(** No archive has the name of the live log. *)
Lemma rotated_log_not_live (i : Z) : rotated_log i <> logFilePath.
Proof.
  unfold rotated_log, logFilePath. intros H.
  change "/var/log/apigee.log" with ("/var/log/apigee" ++ ".log") in H.
  apply append_inv_head in H.
  apply (f_equal rev) in H. rewrite rev_append in H.
  vm_compute in H. discriminate H.
Qed.

Lemma rotation_events (i : nat) (es : list Event) :
  rotation i es ->
  Forall (fun e => housekeeping_event e
                   /\ (forall r, e <> ERemove logFilePath r)
                   /\ (forall st, e <> EStat logFilePath st)
                   /\ (forall c r, e <> EExec c r)
                   /\ (forall p r, e <> EOpenFile p r)) es.
Proof.
  assert (Hs : forall z st st',
             EStat (rotated_log z) st <> EStat logFilePath st').
  { intros z st st' H. apply (rotated_log_not_live z). congruence. }
  induction 1; repeat constructor; try exact IHrotation;
    try discriminate; try apply Hs.
Qed.

(** The run of [rotateLogs], whatever the world answers. *)
Lemma rotateLogs_run (w : World) (h : list Event) :
  exists shifts zr rr,
    rotateLogs w h
    = (Ret tt, (shifts ++ [EExec zip_log_cmd zr; ERemove logFilePath rr])%list)
    /\ rotation 9 shifts.
Proof.
  unfold rotateLogs. unfold_calls.
  destruct (rotate_from_run 9 w h) as [Ho Hes].
  destruct (rotate_from 9 w h) as [o es] eqn:Hrun. cbn [fst snd] in *.
  subst o. advance. advance. advance. cbn [fst snd ret app].
  eexists es, _, _. split; [reflexivity | exact Hes].
Qed.

(** A rotation always ends by zipping the live log into archive 1 and then
    removing the live log, whatever the zip command answered: a failed zip
    still loses the log. Before that it only looks at the archives 9 down
    to 1 and renames each one it finds to the next index, so archive 10 is
    the one that is overwritten. *)
Theorem rotateLogs_always_removes_log (w : World) (h : list Event) :
  fst (rotateLogs w h) = Ret tt
  /\ exists shifts zr rr,
       snd (rotateLogs w h)
       = (shifts ++ [EExec zip_log_cmd zr; ERemove logFilePath rr])%list
       /\ zr = w_Exec w (h ++ shifts)%list zip_log_cmd
       /\ rotation 9 shifts.
Proof.
  unfold rotateLogs. unfold_calls.
  destruct (rotate_from_run 9 w h) as [Ho Hes].
  destruct (rotate_from 9 w h) as [o es] eqn:Hrun. cbn [fst snd] in *.
  subst o. advance. advance. advance. cbn [fst snd ret app].
  split; [reflexivity |].
  eexists es, _, _. split; [reflexivity |]. split; [reflexivity | exact Hes].
Qed.

(** The two ways [setupLogging] ends: the log cannot be opened, a line is
    printed and the process exits with code 1; or it returns after
    housekeeping on the log files only. *)
Lemma setupLogging_cases (w : World) (h : list Event) :
  (exists e,
      setupLogging w h
      = (Exit 1, [EOpenFile logFilePath (Some e);
                  EPrint ("Failed to open log file: " ++ e ++ nl)]))
  \/ (fst (setupLogging w h) = Ret tt
      /\ Forall housekeeping_event (snd (setupLogging w h))).
Proof.
  unfold setupLogging. unfold_calls. advance.
  destruct (w_OpenFile w h logFilePath) as [e|].
  - left. exists e. reflexivity.
  - right. advance.
    match goal with
    | |- context [w_Stat w ?h' logFilePath] =>
        destruct (w_Stat w h' logFilePath) as [size | | e]
    end; try (split; [reflexivity | repeat constructor]).
    destruct (maxLogFileSize <=? size);
      [| split; [reflexivity | repeat constructor]].
    match goal with
    | |- context [rotateLogs w ?h'] =>
        destruct (rotateLogs_run w h') as (shifts & zr & rr & -> & Hrot)
    end.
    cbn [fst snd]. split; [reflexivity |].
    repeat constructor. apply Forall_app. split.
    + eapply Forall_impl; [| apply (rotation_events _ _ Hrot)].
      cbn. intuition.
    + repeat constructor.
Qed.

(** The log is rotated exactly when it has reached 10 MiB: the live log is
    removed in a run of [setupLogging] if and only if its size was read and
    is at least [maxLogFileSize]. The run exits, with code 1, exactly when
    the log file could not be opened; otherwise it returns. *)
Theorem setupLogging_rotation_threshold (w : World) (h : list Event) :
  let run := setupLogging w h in
  ((exists r, In (ERemove logFilePath r) (snd run))
   <-> (exists size,
          In (EStat logFilePath (StatOk size)) (snd run)
          /\ maxLogFileSize <= size))
  /\ ((exists e, In (EOpenFile logFilePath (Some e)) (snd run))
      <-> fst run = Exit 1)
  /\ (fst run = Ret tt \/ fst run = Exit 1).
Proof.
  cbv zeta. unfold setupLogging. unfold_calls. advance.
  destruct (w_OpenFile w h logFilePath) as [e|].
  - cbn. split; [| split; [| now right]].
    + split.
      * intros [r [H | [H | []]]]; discriminate.
      * intros [size [[H | [H | []]] _]]; discriminate.
    + split; [reflexivity | intros _; exists e; now left].
  - advance.
    match goal with
    | |- context [w_Stat w ?h' logFilePath] =>
        destruct (w_Stat w h' logFilePath) as [size | | e] eqn:Hst
    end.
    2, 3: cbn; split; [| split; [| now left]];
      (split;
       [ intros [r [H | [H | []]]]; discriminate
       | first [ intros [size [[H | [H | []]] _]]; discriminate
               | intros [e' [H | [H | []]]]; discriminate
               | discriminate ] ]).
    destruct (maxLogFileSize <=? size) eqn:Hsize.
    + match goal with
      | |- context [rotateLogs w ?h'] =>
          destruct (rotateLogs_run w h') as (shifts & zr & rr & -> & Hrot)
      end.
      cbn [fst snd app].
      split; [| split; [| now left]].
      * split.
        -- intros _. exists size. split; [right; now left |].
           now apply Z.leb_le.
        -- intros _. exists rr. right. right. apply in_or_app. right.
           right. now left.
      * split; [| discriminate].
        intros [e [H | [H | H]]]; try discriminate.
        apply in_app_or in H. destruct H as [H | [H | [H | []]]];
          try discriminate.
        apply rotation_events in Hrot. rewrite Forall_forall in Hrot.
        apply Hrot in H. destruct H as (_ & _ & _ & _ & H).
        exfalso. eapply H. reflexivity.
    + cbn. split; [| split; [| now left]].
      * split.
        -- intros [r [H | [H | []]]]; discriminate.
        -- intros [size' [[H | [H | []]] Hle]]; try discriminate.
           injection H as <-. apply Z.leb_gt in Hsize.
           unfold maxLogFileSize in *. lia.
      * split; [| discriminate].
        intros [e [H | [H | []]]]; discriminate.
Qed.

End LoggingProps.

(** ** Notification Dispatcher *)

Module NotifyProps.

Import GoTime Spec Backup StringFacts ShapeFacts Traces.

(** The summary loops append one row per status, in order. *)
Lemma discord_rows_fold (statuses : list ProjectStatus) (content : string) :
  fold_left discord_summary_line statuses content
  = content ++ rows discord_row statuses.
Proof.
  revert content. induction statuses as [|st rest IH]; intros content.
  - cbn. now rewrite append_nil_r.
  - cbn [fold_left]. rewrite IH. unfold rows. cbn [map fold_right].
    unfold discord_summary_line.
    change (nl ++ "* **" ++ Project st ++ "** - " ++ Status st
            ++ " (`" ++ Reason st ++ "`)") with (discord_row st).
    now rewrite append_assoc.
Qed.

Lemma workspace_rows_fold (statuses : list ProjectStatus) (content : string) :
  fold_left workspace_summary_line statuses content
  = content ++ rows workspace_row statuses.
Proof.
  revert content. induction statuses as [|st rest IH]; intros content.
  - cbn. now rewrite append_nil_r.
  - cbn [fold_left]. rewrite IH. unfold rows. cbn [map fold_right].
    unfold workspace_summary_line.
    change ("| `" ++ Project st ++ "` | `" ++ Status st
            ++ "` | `" ++ Reason st ++ "` |" ++ nl) with (workspace_row st).
    now rewrite append_assoc.
Qed.

(** The Workspace half of the summary: nothing without a sink, else one
    post of the table and at most a log line. *)
Lemma sendFinalWorkspace_run (g : Globals) (date : string)
      (statuses : list ProjectStatus) (w : World) (h : list Event) :
  (is_empty (workspaceWebhookURL g) = true
   /\ sendFinalWorkspace g date statuses w h = (Ret tt, []))
  \/ (is_empty (workspaceWebhookURL g) = false
      /\ exists r logs,
           sendFinalWorkspace g date statuses w h
           = (Ret tt,
              EPost (workspaceWebhookURL g)
                    (workspace_summary date statuses) r :: logs)
           /\ log_only logs).
Proof.
  unfold sendFinalWorkspace.
  destruct (is_empty (workspaceWebhookURL g)) eqn:Hu; cbn [negb];
    [left; now split | right; split; [reflexivity |]].
  rewrite workspace_rows_fold. rewrite !append_assoc.
  fold (workspace_summary date statuses).
  unfold_calls. advance.
  match goal with
  | |- context [w_Post w h ?u ?p] => destruct (w_Post w h u p) as [e | sc]
  end; [| destruct (negb (sc =? 200)%Z)];
    eexists _, _; (split; [reflexivity |]); repeat constructor.
Qed.

(** The three ways the summary goes: no Discord sink; a Discord post that
    fails to be sent, which ends the function; a Discord post that gets an
    answer. *)
Lemma sendFinalNotification_run (g : Globals) (statuses : list ProjectStatus)
      (w : World) (h : list Event) :
  let now := w_Now w h in
  let date := Format now in
  (is_empty (webhookURL g) = true
   /\ sendFinalNotification g statuses w h
      = (fst (sendFinalWorkspace g date statuses w (h ++ [ENow now])%list),
         ENow now
         :: snd (sendFinalWorkspace g date statuses w (h ++ [ENow now])%list)))
  \/ (is_empty (webhookURL g) = false
      /\ exists e msg,
           sendFinalNotification g statuses w h
           = (Ret tt,
              [ENow now;
               EPost (webhookURL g) (discord_summary date statuses)
                     (HttpErr e);
               ELog msg]))
  \/ (is_empty (webhookURL g) = false
      /\ exists sc logs h',
           sendFinalNotification g statuses w h
           = (fst (sendFinalWorkspace g date statuses w h'),
              ENow now
              :: EPost (webhookURL g) (discord_summary date statuses)
                       (HttpStatus sc)
              :: (logs ++ snd (sendFinalWorkspace g date statuses w h'))%list)
           /\ log_only logs).
Proof.
  cbv zeta. unfold sendFinalNotification. unfold_calls. advance.
  destruct (is_empty (webhookURL g)) eqn:Hu; cbn [negb].
  - left. split; reflexivity.
  - right. rewrite discord_rows_fold, !append_assoc.
    fold (discord_summary (Format (w_Now w h)) statuses).
    advance.
    match goal with
    | |- context [w_Post w ?h' ?u ?p] =>
        destruct (w_Post w h' u p) as [e | sc]
    end.
    + left. split; [reflexivity |]. eexists _, _. reflexivity.
    + right. split; [reflexivity |].
      destruct (negb (sc =? 204)%Z); advance; cbn [app];
        [eexists sc, [ELog _], _ | eexists sc, [], _];
        (split; [reflexivity | repeat constructor]).
Qed.

(** A per-project notification never fails its caller: both functions
    always return. Without a sink nothing happens at all. With a sink there is
    exactly one post, of the message for the given status with an empty
    reason replaced by [no issue]; a log line follows exactly when the post
    was not answered with status 204 (Discord) or 200 (Workspace). *)
Theorem project_notification_delivery (g : Globals)
        (project date dataset status reason : string)
        (w : World) (h : list Event) :
  let d := sendDiscordNotification g project date status reason w h in
  let k := sendWorkspaceNotification g project dataset status reason w h in
  fst d = Ret tt /\ fst k = Ret tt
  /\ (if is_empty (webhookURL g) then snd d = []
      else exists resp logs,
          snd d = EPost (webhookURL g)
                        (discord_message g project date status
                                         (default_reason reason)) resp
                  :: logs
          /\ log_only logs /\ (logs = [] <-> resp = HttpStatus 204))
  /\ (if is_empty (workspaceWebhookURL g) then snd k = []
      else exists now resp logs,
          snd k = ENow now
                  :: EPost (workspaceWebhookURL g)
                           (workspace_message now project dataset status
                                              (default_reason reason)) resp
                  :: logs
          /\ log_only logs /\ (logs = [] <-> resp = HttpStatus 200)).
Proof.
  cbv zeta. unfold sendDiscordNotification, sendWorkspaceNotification.
  assert (Hsc : forall sc k : Z,
             negb (sc =? k) = false -> HttpStatus sc = HttpStatus k).
  { intros sc k H. apply negb_false_iff, Z.eqb_eq in H. now subst. }
  destruct (is_empty (webhookURL g));
    destruct (is_empty (workspaceWebhookURL g));
    unfold_calls; repeat advance; cbn [fst snd ret].
  all: repeat match goal with
         | |- context [match w_Post ?w' ?h' ?u ?p with _ => _ end] =>
             destruct (w_Post w' h' u p) as [? | ?]
         | |- context [if negb (?sc =? ?k) then _ else _] =>
             let E := fresh "E" in destruct (negb (sc =? k)) eqn:E
         end.
  all: cbn [fst snd tell ret app]; repeat split; try reflexivity.
  all: repeat match goal with
         | |- exists _, _ => eexists
         end.
  all: repeat split; try reflexivity; try (repeat constructor);
    try discriminate; try (intros _; now apply Hsc);
    try (intros Hx; injection Hx as ->; exfalso;
         match goal with
         | E : negb (204 =? 204) = true |- _ => discriminate E
         | E : negb (200 =? 200) = true |- _ => discriminate E
         end).
Qed.

Lemma no_post_in_logs (logs : list Event) (url : string) (p : Payload)
      (r : HttpResult) :
  log_only logs -> In (EPost url p r) logs -> False.
Proof.
  intros Hl Hin. unfold log_only in Hl. rewrite Forall_forall in Hl.
  apply Hl in Hin. discriminate Hin.
Qed.

Ltac summary_cases g statuses w h :=
  destruct (sendFinalNotification_run g statuses w h)
    as [[Hd ->] | [[Hd (e & msg & ->)] | [Hd (sc & logs & h' & -> & Hlogs)]]];
  [ match goal with
    | |- context [sendFinalWorkspace g ?d statuses w ?h1] =>
        destruct (sendFinalWorkspace_run g d statuses w h1)
          as [[Hw ->] | [Hw (r & wlogs & -> & Hwlogs)]]
    end
  |
  | match goal with
    | |- context [sendFinalWorkspace g ?d statuses w ?h1] =>
        destruct (sendFinalWorkspace_run g d statuses w h1)
          as [[Hw ->] | [Hw (r & wlogs & -> & Hwlogs)]]
    end ];
  cbn [fst snd].

Ltac post_cases H :=
  repeat match type of H with
         | In _ (_ ++ _)%list => apply in_app_or in H; destruct H as [H | H]
         | In _ (_ :: _) => destruct H as [H | H]
         | In _ [] => destruct H
         | In (EPost _ _ _) ?l =>
             match goal with
             | L : log_only l |- _ =>
                 exfalso; exact (no_post_in_logs _ _ _ _ L H)
             end
         end.

(** The summary at the end of a run always returns. When a Discord sink is
    configured it is posted a message with one row per status, in the order
    of the statuses; and every post of the summary goes to a configured sink
    and carries the rows of exactly these statuses. *)
Theorem final_summary_rows (g : Globals) (statuses : list ProjectStatus)
        (w : World) (h : list Event) :
  let run := sendFinalNotification g statuses w h in
  let date := Format (w_Now w h) in
  fst run = Ret tt
  /\ (is_empty (webhookURL g) = false ->
      exists r,
        In (EPost (webhookURL g) (discord_summary date statuses) r) (snd run))
  /\ (forall url p r,
         In (EPost url p r) (snd run) ->
         is_empty url = false
         /\ ((url = webhookURL g /\ p = discord_summary date statuses)
             \/ (url = workspaceWebhookURL g
                 /\ p = workspace_summary date statuses))).
Proof.
  cbv zeta. summary_cases g statuses w h.
  all: split; [reflexivity |]; split.
  all: try (intros Hu; congruence).
  all: try (intros _; eexists; right; left; reflexivity).
  all: intros url p r0 Hin; post_cases Hin; try discriminate Hin.
  all: injection Hin as <- <- _; split; auto.
Qed.

(** The Workspace summary is posted exactly when a Workspace sink is
    configured and the Discord summary, if there was one, got an answer: a
    Discord post that fails to be sent returns from the whole function, and
    the Workspace sink hears nothing; a Discord post that is answered with
    an error status does not. *)
Theorem workspace_summary_needs_discord (g : Globals)
        (statuses : list ProjectStatus) (w : World) (h : list Event) :
  let run := sendFinalNotification g statuses w h in
  (exists text r,
      In (EPost (workspaceWebhookURL g) (WorkspaceMessage text) r) (snd run))
  <-> (is_empty (workspaceWebhookURL g) = false
       /\ ~ discord_summary_undelivered (snd run)).
Proof.
  cbv zeta. unfold discord_summary_undelivered.
  summary_cases g statuses w h; split.
  all: try (intros (text & r0 & Hin); post_cases Hin; discriminate Hin).
  all: try (intros [Hu _]; congruence).
  all: try (intros [_ Hn]; exfalso; apply Hn;
            eexists _, _, _, _, _, _; right; left; reflexivity).
  all: try (intros _; split; [assumption |];
            intros (url & t & d & c & f & e' & Hin);
            post_cases Hin; discriminate Hin).
  all: intros _; eexists _, _; unfold workspace_summary.
  - right. left. reflexivity.
  - right. right. apply in_or_app. right. left. reflexivity.
Qed.

(** With both sinks unreachable only the Discord summary is tried. *)
Example summary_with_sinks_down :
  filter is_post
    (snd (sendFinalNotification Examples.both_sinks
            [mkProjectStatus "p" "Complete" "no issue"]
            MoreExamples.sinks_down_world []))
  = [EPost "https://discord.example/hook"
           (discord_summary "2024-03-01"
              [mkProjectStatus "p" "Complete" "no issue"])
           (HttpErr "dial tcp: connection refused")].
Proof. vm_compute. reflexivity. Qed.

End NotifyProps.

(** ** The entry point *)

Module MainProps.

Import GoTime Spec Backup RunFacts StringFacts ReaderProps RetentionProps
       ShapeFacts OrchestratorProps Traces BindFacts LoggingProps NotifyProps.

(** A scan that ends without error had no read error and no long line. *)
Lemma scan_lines_ok (pieces : list string) (read_err : option error)
      (tokens : list string) :
  Bufio.scan_lines pieces read_err = (tokens, None) ->
  read_err = None /\ Forall short_line pieces.
Proof.
  revert tokens. induction pieces as [|p rest IH]; intros tokens H.
  - cbn in H. injection H as _ ->. split; constructor.
  - cbn [Bufio.scan_lines] in H.
    destruct (Bufio.MaxScanTokenSize <=? len p) eqn:Hlong; [discriminate |].
    apply Z.leb_gt in Hlong.
    destruct rest as [|q rest'].
    + injection H as _ ->. split; [reflexivity |]. now repeat constructor.
    + destruct (Bufio.scan_lines (q :: rest') read_err) as [ts e] eqn:Hs.
      injection H as _ ->. destruct (IH ts eq_refl) as [-> Hall].
      split; [reflexivity |]. now constructor.
Qed.

(** The reader always returns, after opening the file once; when it
    reports no error the file was read to its end and the result is the
    list of its trimmed non-blank lines. *)
Lemma readProjectFile_run (filePath : string) (w : World) (h : list Event) :
  exists projects err,
    readProjectFile filePath w h
    = (Ret (projects, err), [EOpen filePath (w_Open w h filePath)])
    /\ (err = None ->
        exists data,
          w_Open w h filePath = Opened data None
          /\ projects = trimmed_nonblank_lines data).
Proof.
  unfold readProjectFile, bind, os_Open, ask, ret, Bufio.Scanner.
  destruct (w_Open w h filePath) as [e | data read_err].
  - eexists _, _. split; [reflexivity | discriminate].
  - destruct (Bufio.scan_lines (Split data LF) read_err) as [ts [e|]] eqn:Hs.
    + eexists _, _. split; [reflexivity | discriminate].
    + eexists _, _. split; [reflexivity |]. intros _.
      destruct (scan_lines_ok _ _ _ Hs) as [-> Hshort].
      exists data. split; [reflexivity |].
      destruct (scan_lines_short _ Hshort) as [ts' [Hts Heq]].
      rewrite Hs in Hts. injection Hts as <-.
      rewrite read_loop_spec. cbn [app]. exact Heq.
Qed.

(** A status that comes back is [Complete] with [no issue], or [Failed]. *)
Lemma backupProject_status (g : Globals) (project gcsBucket token : string)
      (retentionDays : Z) (w : World) (h : list Event) (st : ProjectStatus) :
  fst (backupProject g project gcsBucket token retentionDays w h) = Ret st ->
  Project st = project /\ wellformed_status st.
Proof.
  pose proof (backupProject_shape g project gcsBucket token retentionDays w h)
    as Hshape.
  destruct (backupProject g project gcsBucket token retentionDays w h)
    as [out es].
  cbn [fst snd] in *. intros ->.
  assert (Hok : Project (mkProjectStatus project "Complete" "no issue")
                = project
                /\ wellformed_status
                     (mkProjectStatus project "Complete" "no issue")).
  { split; [reflexivity | left; split; reflexivity]. }
  assert (Hfail : forall reason,
             Project (failed (mkProjectStatus project "Complete" "no issue")
                             reason) = project
             /\ wellformed_status
                  (failed (mkProjectStatus project "Complete" "no issue")
                          reason)).
  { intros reason. split; [reflexivity | right; reflexivity]. }
  assert (Hret : forall st' cl,
            retention_shape project gcsBucket (Ret st') cl ->
            Project st' = project /\ wellformed_status st').
  { intros st' cl H. inversion H; subst; auto. }
  assert (Harch : forall today st' sw,
            archive_shape g project gcsBucket today (Ret st') sw ->
            Project st' = project /\ wellformed_status st').
  { intros today st' sw H. inversion H; subst; eauto. }
  inversion Hshape as [| | pre now r0 err0 out' rest Hpre Hr0 Hex]; subst;
    auto.
  inversion Hex; subst; eauto.
Qed.

(** The loop of [main] ends with the panic of the sweep or returns one
    well-formed status per project. *)
Lemma main_loop_run (g : Globals) (projects : list string)
      (gcsBucket token : string) (retentionDays : Z)
      (acc : list ProjectStatus) (w : World) (h : list Event) :
  fst (main_loop g projects gcsBucket token retentionDays acc w h)
  = Panic slice_panic
  \/ exists statuses,
       fst (main_loop g projects gcsBucket token retentionDays acc w h)
       = Ret statuses
       /\ map Project statuses = (map Project acc ++ projects)%list
       /\ (Forall wellformed_status acc -> Forall wellformed_status statuses).
Proof.
  revert acc h. induction projects as [|p rest IH]; intros acc h.
  - right. exists acc. cbn. rewrite app_nil_r. auto.
  - cbn [main_loop].
    destruct (backupProject_outcome g p gcsBucket token retentionDays w h)
      as [[st [Hst Hp]] | Hpanic].
    + pose proof (backupProject_status g p gcsBucket token retentionDays
                                       w h st Hst) as [_ Hwf].
      destruct (backupProject g p gcsBucket token retentionDays w h)
        as [o es] eqn:Hrun.
      cbn [fst] in Hst. subst o. advance.
      match goal with
      | |- context [main_loop g rest gcsBucket token retentionDays ?a w ?h'] =>
          destruct (IH a h') as [Hpan | [statuses [Hret [Hmap Hall]]]]
      end; [now left | right].
      exists statuses. split; [exact Hret |]. split.
      * rewrite Hmap, map_app. cbn [map]. rewrite Hp, <- app_assoc.
        reflexivity.
      * intros Hacc. apply Hall. apply Forall_app. split; [exact Hacc |].
        constructor; [exact Hwf | constructor].
    + left. unfold bind.
      destruct (backupProject g p gcsBucket token retentionDays w h)
        as [o es].
      cbn [fst] in Hpanic. now subst o.
Qed.

(** *** Where posts go *)

Lemma notify_is_sink_post (g : Globals) (e : Event) :
  notify_event g e -> sink_post (webhookURL g) (workspaceWebhookURL g) e.
Proof. destruct e; cbn; auto. Qed.

Lemma discord_sinks (g : Globals) (project date status reason : string) :
  emits (sink_post (webhookURL g) (workspaceWebhookURL g))
        (sendDiscordNotification g project date status reason).
Proof.
  intros w h.
  destruct (discord_run g project date status reason w h) as [n [-> [F _]]].
  eapply Forall_impl; [apply notify_is_sink_post | exact F].
Qed.

Lemma workspace_sinks (g : Globals) (project dataset status reason : string) :
  emits (sink_post (webhookURL g) (workspaceWebhookURL g))
        (sendWorkspaceNotification g project dataset status reason).
Proof.
  intros w h.
  destruct (workspace_run g project dataset status reason w h)
    as [n [-> [F _]]].
  eapply Forall_impl; [apply notify_is_sink_post | exact F].
Qed.

Lemma cleanup_sinks (d k : string) (lines : list string) (cutoff : Time)
      (env : string) :
  emits (sink_post d k) (cleanup_loop lines cutoff env).
Proof.
  eapply emits_weaken; [| apply cleanup_loop_emits].
  intros [] He; cbn in *; auto. contradiction.
Qed.

Lemma backupProject_sinks (g : Globals) (project gcsBucket token : string)
      (retentionDays : Z) :
  emits (sink_post (webhookURL g) (workspaceWebhookURL g))
        (backupProject g project gcsBucket token retentionDays).
Proof.
  unfold backupProject, export_and_after, archive_upload_sweep,
    backupExistsInGCS, zipFolder, uploadToGCS, fail_with.
  unfold_calls.
  walk;
    first [ exact I | apply discord_sinks | apply workspace_sinks
          | apply cleanup_sinks ].
Qed.

Lemma main_loop_sinks (g : Globals) (projects : list string)
      (gcsBucket token : string) (retentionDays : Z)
      (acc : list ProjectStatus) :
  emits (sink_post (webhookURL g) (workspaceWebhookURL g))
        (main_loop g projects gcsBucket token retentionDays acc).
Proof.
  revert acc. induction projects as [|p rest IH]; intros acc;
    cbn [main_loop]; [walk |].
  apply emits_bind; [apply backupProject_sinks | intros st; apply IH].
Qed.

Lemma final_sinks (g : Globals) (statuses : list ProjectStatus) :
  emits (sink_post (webhookURL g) (workspaceWebhookURL g))
        (sendFinalNotification g statuses).
Proof.
  intros w h. summary_cases g statuses w h.
  all: repeat match goal with
         | |- Forall _ (_ :: _) => constructor
         | |- Forall _ (_ ++ _) => apply Forall_app; split
         | |- Forall _ [] => constructor
         | |- sink_post _ _ (EPost _ _ _) => cbn; auto
         | |- sink_post _ _ _ => exact I
         | L : log_only ?l |- Forall _ ?l =>
             eapply Forall_impl; [| exact L];
             intros [] He; try discriminate He; exact I
         end.
Qed.

Lemma rotate_from_sinks (d k : string) (i : nat) :
  emits (sink_post d k) (rotate_from i).
Proof.
  induction i as [|i IH]; cbn [rotate_from]; unfold_calls; walk;
    first [exact I | exact IH].
Qed.

(** Whatever happens in a run of the program, a post goes only to one of
    the two webhook URLs given on the command line, and never to an empty
    URL: with no sink configured the program posts nothing. *)
Theorem main_posts_to_configured_sinks (f : Flags) (w : World)
        (h : list Event) :
  Forall (sink_post (webhook f) (workspaceWebhook f)) (snd (main f w h)).
Proof.
  revert w h. change (emits (sink_post (webhook f) (workspaceWebhook f))
                            (main f)).
  unfold main.
  destruct (is_empty (projectFile f) || is_empty (gcsBucket f)
            || is_empty (token f)).
  - unfold_calls. walk. exact I.
  - apply emits_bind.
    { unfold setupLogging, rotateLogs. unfold_calls.
      walk; first [exact I | apply rotate_from_sinks]. }
    intros _. apply emits_bind.
    { unfold readProjectFile. unfold_calls. walk. exact I. }
    intros read. destruct (snd read).
    + unfold_calls. walk. exact I.
    + apply emits_bind.
      { apply (main_loop_sinks (globals_of f)). }
      intros statuses. apply emits_bind; [| walk].
      apply (final_sinks (globals_of f)).
Qed.

(** *** The ways [main] ends *)

Lemma sendFinalNotification_returns (g : Globals)
      (statuses : list ProjectStatus) (w : World) (h : list Event) :
  fst (sendFinalNotification g statuses w h) = Ret tt.
Proof. summary_cases g statuses w h; reflexivity. Qed.

(** Every run of [main] is of one of four kinds: a required flag is
    missing; the log cannot be opened; the project file cannot be read; or
    the projects are processed, which ends in the panic of a sweep or in the
    summary. *)
Lemma main_cases (f : Flags) (w : World) (h : list Event) :
  (missing_flag f = true
   /\ main f w h = (Exit 1, [EPrint (usage ++ nl)]))
  \/ (missing_flag f = false
      /\ exists e msg,
           main f w h = (Exit 1, [EOpenFile logFilePath (Some e); EPrint msg]))
  \/ (missing_flag f = false
      /\ exists hk r msg,
           main f w h
           = (Exit 1, (hk ++ [EOpen (projectFile f) r; ELog msg])%list)
           /\ Forall housekeeping_event hk)
  \/ (missing_flag f = false
      /\ exists hk data,
           Forall housekeeping_event hk
           /\ let opened := EOpen (projectFile f) (Opened data None) in
              let hist := ((h ++ hk) ++ [opened])%list in
              let loop := main_loop (globals_of f)
                            (trimmed_nonblank_lines data) (gcsBucket f)
                            (token f) (retentionDays f) [] w hist in
              (fst loop = Panic slice_panic
               /\ main f w h
                  = (Panic slice_panic, (hk ++ opened :: snd loop)%list))
              \/ (exists statuses,
                     fst loop = Ret statuses
                     /\ Forall wellformed_status statuses
                     /\ map Project statuses = trimmed_nonblank_lines data
                     /\ main f w h
                        = (Ret statuses,
                           (hk ++ opened
                            :: snd loop
                            ++ snd (sendFinalNotification
                                      (globals_of f) statuses w
                                      (hist ++ snd loop)))%list))).
Proof.
  unfold main.
  change (is_empty (projectFile f) || is_empty (gcsBucket f)
          || is_empty (token f)) with (missing_flag f).
  fold (globals_of f).
  destruct (missing_flag f); [left; split; reflexivity | right].
  destruct (setupLogging_cases w h) as [[e He] | [Ho Hhk]].
  { left. split; [reflexivity |]. exists e. eexists.
    apply run_bind_exit. exact He. }
  right.
  destruct (setupLogging w h) as [o hk] eqn:Hlog. cbn [fst snd] in *.
  subst o. advance.
  destruct (readProjectFile_run (projectFile f) w (h ++ hk)%list)
    as (projects & err & Hread & Hok).
  advance.
  destruct err as [e|].
  - left. split; [reflexivity |]. unfold_calls. advance.
    cbn [fst snd exit app]. eexists hk, _, _. split; [reflexivity | exact Hhk].
  - right. split; [reflexivity |].
    destruct (Hok eq_refl) as (data & Hopen & ->). rewrite Hopen in *.
    exists hk, data. split; [exact Hhk |]. cbv zeta.
    set (hist := ((h ++ hk) ++ [EOpen (projectFile f) (Opened data None)])%list).
    destruct (main_loop_run (globals_of f) (trimmed_nonblank_lines data)
                (gcsBucket f) (token f) (retentionDays f) [] w hist)
      as [Hpanic | (statuses & Hret & Hmap & Hwf)];
      destruct (main_loop (globals_of f) (trimmed_nonblank_lines data)
                  (gcsBucket f) (token f) (retentionDays f) [] w hist)
        as [o es] eqn:Hloop;
      cbn [fst snd] in *; subst o.
    + left. split; [reflexivity |].
      erewrite run_bind_panic by exact Hloop. reflexivity.
    + right. exists statuses. split; [reflexivity |].
      split; [apply Hwf; constructor |]. split; [exact Hmap |].
      advance.
      pose proof (sendFinalNotification_returns (globals_of f) statuses w
                    (hist ++ es)%list) as Hfin.
      destruct (sendFinalNotification (globals_of f) statuses w
                  (hist ++ es)%list) as [o fin] eqn:Hsum.
      cbn [fst snd] in Hfin. subst o.
      advance. cbn [fst snd ret].
      now rewrite app_nil_r.
Qed.

Lemma housekeeping_untouched (e : Event) :
  housekeeping_event e -> untouched_event e.
Proof.
  destruct e; cbn; try contradiction; intros H; subst;
    repeat split; reflexivity.
Qed.



(** When the program returns, the project file was read to its end, the
    result holds one status per trimmed non-blank line of the file, in file
    order and for that project, each status is [Complete] with reason
    [no issue] or [Failed], and the run ends with the summary built from
    exactly these statuses. *)
Theorem main_returns_one_status_per_project (f : Flags) (w : World)
        (h : list Event) (statuses : list ProjectStatus) :
  fst (main f w h) = Ret statuses ->
  exists data before,
    In (EOpen (projectFile f) (Opened data None)) before
    /\ map Project statuses = trimmed_nonblank_lines data
    /\ Forall wellformed_status statuses
    /\ snd (main f w h)
       = (before
          ++ snd (sendFinalNotification (globals_of f) statuses w
                    (h ++ before)))%list.
Proof.
  intros Hret.
  destruct (main_cases f w h)
    as [[Hm Hrun]
       | [[Hm (e & msg & Hrun)]
         | [[Hm (hk & r & msg & Hrun & Hhk)]
           | [Hm (hk & data & Hhk & Hloop)]]]];
    try (rewrite Hrun in Hret; discriminate Hret).
  cbv zeta in Hloop.
  destruct Hloop as [[_ Hrun] | (sts & Hl & Hwf & Hmap & Hrun)];
    rewrite Hrun in Hret; [discriminate Hret |].
  injection Hret as ->.
  match type of Hrun with
  | _ = (_, (hk ++ ?o :: snd ?loop ++ _)%list) =>
      exists data, (hk ++ o :: snd loop)%list
  end.
  split; [apply in_or_app; right; now left |].
  split; [exact Hmap |]. split; [exact Hwf |].
  rewrite Hrun. cbn [snd].
  rewrite <- !app_assoc. cbn [app]. reflexivity.
Qed.

(** Two projects, the first already backed up today. *)
Lemma main_returns_one_status_per_project_witness :
  exists data before,
    In (EOpen "projects.txt" (Opened data None)) before
    /\ map Project [mkProjectStatus "proj-a" "Complete" "no issue";
                    mkProjectStatus "proj-b" "Complete" "no issue"]
       = trimmed_nonblank_lines data
    /\ Forall wellformed_status
              [mkProjectStatus "proj-a" "Complete" "no issue";
               mkProjectStatus "proj-b" "Complete" "no issue"]
    /\ snd (main Examples.flags Examples.two_project_world [])
       = (before
          ++ snd (sendFinalNotification (globals_of Examples.flags)
                    [mkProjectStatus "proj-a" "Complete" "no issue";
                     mkProjectStatus "proj-b" "Complete" "no issue"]
                    Examples.two_project_world ([] ++ before)))%list.
Proof.
  apply (main_returns_one_status_per_project Examples.flags
           Examples.two_project_world []).
  vm_compute. reflexivity.
Defined.

(** When the program ends in a panic, it is the panic of a retention sweep,
    and the run stops inside the loop over the projects: after the
    housekeeping on the log and the reading of the project file, its events
    are those of the loop, with no summary after them. *)
Theorem main_panic_ends_in_the_loop (f : Flags) (w : World)
        (h : list Event) (msg : string) :
  fst (main f w h) = Panic msg ->
  msg = slice_panic
  /\ exists hk data,
       Forall housekeeping_event hk
       /\ let opened := EOpen (projectFile f) (Opened data None) in
          let loop := main_loop (globals_of f) (trimmed_nonblank_lines data)
                        (gcsBucket f) (token f) (retentionDays f) []
                        w ((h ++ hk) ++ [opened])%list in
          fst loop = Panic slice_panic
          /\ snd (main f w h) = (hk ++ opened :: snd loop)%list.
Proof.
  intros Hpanic.
  destruct (main_cases f w h)
    as [[Hm Hrun]
       | [[Hm (e & msg' & Hrun)]
         | [[Hm (hk & r & msg' & Hrun & Hhk)]
           | [Hm (hk & data & Hhk & Hloop)]]]];
    try (rewrite Hrun in Hpanic; discriminate Hpanic).
  cbv zeta in Hloop.
  destruct Hloop as [[Hl Hrun] | (sts & _ & _ & _ & Hrun)];
    rewrite Hrun in Hpanic; [| discriminate Hpanic].
  injection Hpanic as <-. split; [reflexivity |].
  exists hk, data. split; [exact Hhk |]. cbv zeta.
  split; [exact Hl | now rewrite Hrun].
Qed.

(** The folder of project [p] holds its placeholder object. *)
Lemma main_panic_ends_in_the_loop_witness :
  slice_panic = slice_panic
  /\ exists hk data,
       Forall housekeeping_event hk
       /\ let opened := EOpen (projectFile Examples.flags)
                              (Opened data None) in
          let loop := main_loop (globals_of Examples.flags)
                        (trimmed_nonblank_lines data)
                        (gcsBucket Examples.flags) (token Examples.flags)
                        (retentionDays Examples.flags) []
                        Examples.placeholder_world
                        (([] ++ hk) ++ [opened])%list in
          fst loop = Panic slice_panic
          /\ snd (main Examples.flags Examples.placeholder_world [])
             = (hk ++ opened :: snd loop)%list.
Proof.
  apply (main_panic_ends_in_the_loop Examples.flags
           Examples.placeholder_world [] slice_panic).
  vm_compute. reflexivity.
Defined.

End MainProps.

(** ** Backup Orchestrator: the other failure paths *)

Module FailureProps.

Import GoTime Spec Backup RunFacts StringFacts RetentionProps ShapeFacts
       OrchestratorProps Traces.

Section Staged.
Variables (g : Globals) (project gcsBucket token : string) (retentionDays : Z).
Let status := mkProjectStatus project "Complete" "no issue".

(** Every run of [backupProject] has one of the staged shapes. *)
Lemma backupProject_staged (w : World) (h : list Event) :
  staged_shape g project gcsBucket token
            (fst (backupProject g project gcsBucket token retentionDays w h))
            (snd (backupProject g project gcsBucket token retentionDays w h)).
Proof.
  unfold backupProject, backupExistsInGCS, fail_with. unfold_calls.
  advance.
  assert (Hrest :
    forall pre h',
      Forall staging_ok_event pre ->
      let m :=
        (merr <- ask (fun w h => w_MkdirAll w h apigeeBackupDir)
                     (EMkdirAll apigeeBackupDir) ;;
         match merr with
         | Some err =>
             tell (ELog ("Failed to create backup directory" ++ ": "
                         ++ err ++ nl)) ;;
             ret (failed status
                    ("Failed to create backup directory" ++ ": " ++ err))
         | None =>
             now <- ask (fun w h => w_Now w h) ENow ;;
             found <- (r <- ask (fun w h =>
                                   w_Exec w h
                                     (probe_cmd gcsBucket (GoTime.Format now)
                                                project))
                                (EExec (probe_cmd gcsBucket
                                          (GoTime.Format now) project)) ;;
                       ret match cmd_err r with
                           | Some _ => false
                           | None => true
                           end) ;;
             (if found
              then tell (ELog ("Backup for " ++ GoTime.Format now
                               ++ " already exists in GCS. Skipping new backup."
                               ++ nl)) ;;
                   ret status
              else export_and_after g status project gcsBucket token
                                    retentionDays (GoTime.Format now))
         end) in
      staged_shape g project gcsBucket token (fst (m w h'))
                   (pre ++ snd (m w h'))%list).
  { intros pre h' Hpre. cbv zeta. advance.
    destruct (w_MkdirAll w h' apigeeBackupDir) as [err|] eqn:Hm.
    - advance. cbn [fst snd ret app].
      eapply staging_failed with (what := "Failed to create backup directory");
        [exact Hpre |].
      right. left. split; reflexivity.
    - advance. advance.
      match goal with
      | |- context [match cmd_err ?r with _ => _ end] =>
          destruct (cmd_err r) as [err|] eqn:Hp
      end.
      + cbn [app].
        rewrite (app_cons_assoc pre).
        eapply staged_attempted; [| exact Hp | apply export_run].
        apply Forall_app. split; [exact Hpre | repeat constructor].
      + advance. cbn [fst snd ret app].
        rewrite (app_cons_assoc pre).
        apply staged_skipped; [| exact Hp].
        apply Forall_app. split; [exact Hpre | repeat constructor]. }
  destruct (negb (IsNotExist (w_Stat w h apigeeBackupDir))).
  - advance.
    match goal with
    | |- context [match w_RemoveAll w ?h' ?p with _ => _ end] =>
        destruct (w_RemoveAll w h' p) as [err|]
    end.
    + advance. cbn [fst snd ret app].
      apply (staging_failed g project gcsBucket token [_] _
               "Failed to delete existing backup directory");
        [repeat constructor |].
      left. split; reflexivity.
    + cbn [app].
      match goal with
      | |- staged_shape _ _ _ _ (fst (_ w ?h')) (?a :: ?b :: _) =>
          apply (Hrest [a; b] h')
      end.
      repeat constructor.
  - advance. cbn [app].
    match goal with
    | |- staged_shape _ _ _ _ (fst (_ w ?h')) (?a :: _) =>
        apply (Hrest [a] h')
    end.
    repeat constructor.
Qed.

End Staged.

Lemma staging_ok_class (e : Event) :
  staging_ok_event e -> staging_error e = None /\ idle_event e.
Proof.
  destruct e as [| ? [?|] | ? [?|] | | | | | | | | |]; cbn;
    try contradiction; intros _; repeat split; reflexivity.
Qed.

Lemma notify_no_staging (g : Globals) (e : Event) :
  notify_event g e -> staging_error e = None.
Proof. destruct e; cbn; try contradiction; reflexivity. Qed.

Lemma sweep_no_staging (e : Event) : sweep_event e -> staging_error e = None.
Proof. destruct e; cbn; try contradiction; reflexivity. Qed.

Lemma retention_no_staging (project gcsBucket : string)
      (out : Outcome ProjectStatus) (cl : list Event) :
  retention_shape project gcsBucket out cl ->
  Forall (fun e => staging_error e = None) cl.
Proof.
  intros H. inversion H; subst; repeat constructor;
    (eapply Forall_impl; [apply sweep_no_staging | assumption]).
Qed.

Lemma archive_no_staging (g : Globals) (project gcsBucket today : string)
      (out : Outcome ProjectStatus) (sw : list Event) :
  archive_shape g project gcsBucket today out sw ->
  Forall (fun e => staging_error e = None) sw.
Proof.
  intros H. inversion H as [| | zr ur n cl out' Hz Hu [Hn _] Hret]; subst;
    repeat constructor.
  apply Forall_app. split.
  - eapply Forall_impl; [apply notify_no_staging | exact Hn].
  - eapply retention_no_staging; eassumption.
Qed.

(** An event inside a list of events without staging errors has none. *)
Ltac no_staging_error Hin Herr :=
  match type of Hin with
  | In ?e ?l =>
      match goal with
      | F : Forall staging_ok_event l |- _ =>
          rewrite Forall_forall in F; apply F in Hin;
          apply staging_ok_class in Hin; destruct Hin as [Hin _];
          congruence
      | F : Forall (fun e => staging_error e = None) l |- _ =>
          rewrite Forall_forall in F; apply F in Hin; congruence
      | F : Forall (notify_event _) l |- _ =>
          rewrite Forall_forall in F; apply F in Hin;
          apply notify_no_staging in Hin; congruence
      end
  end.

Lemma idle_staging_ok (l : list Event) :
  Forall staging_ok_event l -> Forall idle_event l.
Proof.
  intros H. eapply Forall_impl; [| exact H].
  intros e He. now apply staging_ok_class in He.
Qed.

(** When a step on the staging area fails (removing the old directory,
    creating the directory, the date folder or the export folder), the
    project ends [Failed] with the step and its error as reason, the failed
    step is the last thing the run does but for one log line, and the run
    holds no export, no archive, no upload and no post: nobody is
    notified. *)
Theorem staging_failure_is_silent (g : Globals)
        (project gcsBucket token : string) (retentionDays : Z)
        (w : World) (h : list Event) (e : Event) (err : error) :
  let run := backupProject g project gcsBucket token retentionDays w h in
  In e (snd run) ->
  staging_error e = Some err ->
  exists what pre msg,
    staging_failure e what err
    /\ fst run = Ret (mkProjectStatus project "Failed" (what ++ ": " ++ err))
    /\ snd run = (pre ++ [e; ELog msg])%list
    /\ Forall idle_event (snd run).
Proof.
  cbv zeta. intros Hin Herr.
  pose proof (backupProject_staged g project gcsBucket token retentionDays
                                   w h) as Hshape.
  destruct (backupProject g project gcsBucket token retentionDays w h)
    as [out es].
  cbn [fst snd] in *.
  assert (Hprobe : forall now r,
             idle_event (EExec (probe_cmd gcsBucket (Format now) project) r)).
  { intros now r. repeat split; reflexivity. }
  inversion Hshape as [pre e0 what err0 msg Hpre Hf
                      | pre now r0 msg Hpre Hr0
                      | pre now r0 err0 out' rest Hpre Hr0 Hex]; subst.
  - in_cases Hin; try (subst e; discriminate Herr);
      [no_staging_error Hin Herr |].
    subst e0.
    assert (err0 = err).
    { destruct Hf as [[-> _] | [[-> _] | [[[today ->] _] | [-> _]]]];
        cbn in Herr; congruence. }
    subst err0.
    exists what, pre, msg. repeat split; try assumption.
    apply Forall_app. split; [now apply idle_staging_ok |].
    constructor; [| repeat constructor].
    destruct Hf as [[-> _] | [[-> _] | [[[today ->] _] | [-> _]]]];
      repeat split; reflexivity.
  - exfalso. in_cases Hin; try (subst e; discriminate Herr).
    no_staging_error Hin Herr.
  - in_cases Hin; try (subst e; discriminate Herr);
      [exfalso; no_staging_error Hin Herr |].
    apply idle_staging_ok in Hpre.
    inversion Hex as [err1 msg
                     | err1 msg
                     | r out1 rest1 Hr Harch
                     | r err1 msg n Hr Hc [Hn _]
                     | r err1 msg1 msg2 out1 rest1 Hr Hc Harch]; subst;
      try apply archive_no_staging in Harch;
      in_cases Hin; try (subst e; discriminate Herr);
      try (exfalso; no_staging_error Hin Herr).
    + subst e. injection Herr as ->.
      exists "Failed to create date folder",
        (pre ++ [ENow now;
                 EExec (probe_cmd gcsBucket (Format now) project) r0])%list,
        msg.
      split; [right; right; left; split; [now eexists | reflexivity] |].
      split; [reflexivity |].
      split; [now rewrite <- app_assoc |].
      apply Forall_app. split; [exact Hpre |].
      repeat constructor.
    + subst e. injection Herr as ->.
      exists "Failed to create export folder",
        (pre ++ [ENow now;
                 EExec (probe_cmd gcsBucket (Format now) project) r0;
                 EMkdirAll (staging_date (Format now)) None])%list,
        msg.
      split; [right; right; right; split; reflexivity |].
      split; [reflexivity |].
      split; [now rewrite <- app_assoc |].
      apply Forall_app. split; [exact Hpre |].
      repeat constructor.
Qed.

(** The staging directory cannot be created. *)
Lemma staging_failure_is_silent_witness :
  let run := backupProject Examples.both_sinks "p" "b" "token" 30
                           MoreExamples.readonly_tmp_world [] in
  let e := EMkdirAll "/tmp/apigee_backup"
                     (Some "mkdir /tmp/apigee_backup: permission denied") in
  exists what pre msg,
    staging_failure e what "mkdir /tmp/apigee_backup: permission denied"
    /\ fst run
       = Ret (mkProjectStatus "p" "Failed"
                (what ++ ": "
                 ++ "mkdir /tmp/apigee_backup: permission denied"))
    /\ snd run = (pre ++ [e; ELog msg])%list
    /\ Forall idle_event (snd run).
Proof.
  apply (staging_failure_is_silent Examples.both_sinks "p" "b" "token" 30
           MoreExamples.readonly_tmp_world []).
  - in_list.
  - reflexivity.
Defined.

End FailureProps.

(** ** Backup Orchestrator: archive, upload and what [Complete] means *)

Module ArchiveProps.

Import GoTime Spec Backup RunFacts StringFacts RetentionProps ShapeFacts
       OrchestratorProps Traces.

(** The command of [EExec c r] is neither the archiver nor an upload. *)
Ltac other_command Hin Hkind :=
  exfalso; injection Hin as <- <-;
  destruct Hkind as [Hkind | Hkind]; cbn in Hkind; discriminate Hkind.

Ltac no_command Hin :=
  match type of Hin with
  | In ?e ?l =>
      match goal with
      | F : Forall reset_event l |- _ =>
          rewrite Forall_forall in F; apply F in Hin;
          apply reset_event_class in Hin; destruct Hin as [_ Hin];
          exfalso; eapply Hin; reflexivity
      | F : Forall (notify_event _) l |- _ =>
          rewrite Forall_forall in F; apply F in Hin;
          apply notify_event_class in Hin; destruct Hin as (_ & _ & _ & Hin);
          exfalso; eapply Hin; reflexivity
      end
  end.

Lemma reset_silent (gcsBucket project : string) (l : list Event) :
  Forall reset_event l -> Forall (silent_event gcsBucket project) l.
Proof.
  intros H. eapply Forall_impl; [| exact H].
  intros e He. destruct e; cbn in He; try contradiction;
    repeat split; try reflexivity; intros; discriminate.
Qed.

Lemma probe_silent (gcsBucket project date : string) (r : CmdResult) :
  silent_event gcsBucket project (EExec (probe_cmd gcsBucket date project) r).
Proof.
  repeat split; try reflexivity.
  intros r' H. apply (listing_is_no_probe gcsBucket project date). congruence.
Qed.

Section Runs.

Variables (g : Globals) (project gcsBucket token : string).

Lemma archive_shape_failure today out sw c r err :
  archive_shape g project gcsBucket today out sw ->
  In (EExec c r) sw ->
  cmd_err r = Some err ->
  is_archive (EExec c r) = true \/ is_upload (EExec c r) = true ->
  exists what pre msg,
    ((is_archive (EExec c r) = true /\ what = "Failed to zip folder")
     \/ (is_upload (EExec c r) = true
         /\ what = "Failed to upload backup to GCS"))
    /\ out = Ret (mkProjectStatus project "Failed" (what ++ ": " ++ err))
    /\ sw = (pre ++ [EExec c r; ELog msg])%list
    /\ Forall (silent_event gcsBucket project) sw.
Proof.
  intros H Hin Hr Hkind.
  inversion H as [zr err1 msg Hz
                 | zr ur err1 msg Hz Hu
                 | zr ur n cl out' Hz Hu [Hn _] Hret]; subst;
    in_cases Hin; try discriminate Hin.
  - injection Hin as <- <-.
    assert (err1 = err) by congruence. subst err1.
    exists "Failed to zip folder", [], msg.
    split; [left; split; reflexivity |].
    repeat split; try reflexivity.
    repeat constructor; try reflexivity; intros; discriminate.
  - exfalso. injection Hin as _ <-. congruence.
  - injection Hin as <- <-.
    assert (err1 = err) by congruence. subst err1.
    eexists "Failed to upload backup to GCS", [_], msg.
    split; [right; split; reflexivity |].
    repeat split; try reflexivity.
    repeat constructor; try reflexivity; intros; discriminate.
  - exfalso. injection Hin as _ <-. congruence.
  - exfalso. injection Hin as _ <-. congruence.
  - no_command Hin.
  - exfalso.
    inversion Hret; subst; in_cases Hin; try discriminate Hin;
      try (injection Hin as <- <-;
           destruct Hkind as [Hkind | Hkind]; cbn in Hkind;
           discriminate Hkind);
      match goal with
      | F : Forall sweep_event ?l, Hin : In _ ?l |- _ =>
          rewrite Forall_forall in F; apply F in Hin;
          destruct Hin as [line ->];
          destruct Hkind as [Hkind | Hkind]; cbn in Hkind;
          discriminate Hkind
      end.
Qed.

(** When the archiver or the upload fails, the project ends [Failed] with
    that error as reason, the failed command is the last thing the run does
    but for one log line, and nobody is told: the run holds no post to any
    sink, and no listing or deletion of the retention sweep. *)
Theorem archive_failure_is_silent (retentionDays : Z) (w : World)
        (h : list Event) (c : Cmd) (r : CmdResult) (err : error) :
  let run := backupProject g project gcsBucket token retentionDays w h in
  In (EExec c r) (snd run) ->
  cmd_err r = Some err ->
  is_archive (EExec c r) = true \/ is_upload (EExec c r) = true ->
  exists what pre msg,
    ((is_archive (EExec c r) = true /\ what = "Failed to zip folder")
     \/ (is_upload (EExec c r) = true
         /\ what = "Failed to upload backup to GCS"))
    /\ fst run = Ret (mkProjectStatus project "Failed" (what ++ ": " ++ err))
    /\ snd run = (pre ++ [EExec c r; ELog msg])%list
    /\ Forall (silent_event gcsBucket project) (snd run).
Proof.
  cbv zeta. intros Hin Hr Hkind.
  pose proof (backupProject_shape g project gcsBucket token retentionDays w h)
    as Hshape.
  destruct (backupProject g project gcsBucket token retentionDays w h)
    as [out es].
  cbn [fst snd] in *.
  assert (Hlift : forall before today out sw,
             Forall (silent_event gcsBucket project) before ->
             archive_shape g project gcsBucket today out sw ->
             In (EExec c r) sw ->
             exists what pre msg,
               ((is_archive (EExec c r) = true
                 /\ what = "Failed to zip folder")
                \/ (is_upload (EExec c r) = true
                    /\ what = "Failed to upload backup to GCS"))
               /\ out = Ret (mkProjectStatus project "Failed"
                               (what ++ ": " ++ err))
               /\ (before ++ sw = pre ++ [EExec c r; ELog msg])%list
               /\ Forall (silent_event gcsBucket project) (before ++ sw)).
  { intros before today o sw Hb Ha Hi.
    destruct (archive_shape_failure today o sw c r err Ha Hi Hr Hkind)
      as (what & pre & msg & Hw & Ho & -> & Hs).
    exists what, (before ++ pre)%list, msg.
    split; [exact Hw |]. split; [exact Ho |].
    split; [now rewrite app_assoc |].
    apply Forall_app. now split. }
  inversion Hshape as [pre reason msg Hpre | pre now r0 msg Hpre Hr0
                      | pre now r0 err0 out' rest Hpre Hr0 Hex]; subst.
  - in_cases Hin; try discriminate Hin. no_command Hin.
  - in_cases Hin; try discriminate Hin; [no_command Hin |].
    other_command Hin Hkind.
  - in_cases Hin; try discriminate Hin; [no_command Hin | |].
    { other_command Hin Hkind. }
    pose proof (reset_silent gcsBucket project pre Hpre) as Hsil.
    pose proof (probe_silent gcsBucket project (Format now) r0) as Hps.
    inversion Hex as [err1 msg
                     | err1 msg
                     | r1 out1 rest1 Hr1 Harch
                     | r1 err1 msg n Hr1 Hc [Hn _]
                     | r1 err1 msg1 msg2 out1 rest1 Hr1 Hc Harch]; subst;
      in_cases Hin; try discriminate Hin;
      try (other_command Hin Hkind); try (no_command Hin).
    + match goal with
      | |- context [(pre ++ ?a :: ?b :: ?c :: ?d :: ?e :: rest1)%list] =>
          change (pre ++ a :: b :: c :: d :: e :: rest1)%list
            with (pre ++ [a; b; c; d; e] ++ rest1)%list;
          rewrite (app_assoc pre [a; b; c; d; e] rest1);
          eapply Hlift; [| exact Harch | exact Hin]
      end.
      apply Forall_app. split; [exact Hsil |].
      repeat (constructor;
              [first [ exact Hps
                     | repeat split; try reflexivity; intros; discriminate ]
              |]).
      constructor.
    + match goal with
      | |- context [(pre ++ ?a :: ?b :: ?c :: ?d :: ?e :: ?f :: ?k
                         :: rest1)%list] =>
          change (pre ++ a :: b :: c :: d :: e :: f :: k :: rest1)%list
            with (pre ++ [a; b; c; d; e; f; k] ++ rest1)%list;
          rewrite (app_assoc pre [a; b; c; d; e; f; k] rest1);
          eapply Hlift; [| exact Harch | exact Hin]
      end.
      apply Forall_app. split; [exact Hsil |].
      repeat (constructor;
              [first [ exact Hps
                     | repeat split; try reflexivity; intros; discriminate ]
              |]).
      constructor.
Qed.

(** *** What [Complete] means *)

Lemma listing_after (pre es : list Event) :
  Forall (no_listing gcsBucket project) pre ->
  (listing_succeeded gcsBucket project (pre ++ es)
   <-> listing_succeeded gcsBucket project es).
Proof.
  intros Hpre. split; intros (r & Hin & Hr); exists r; (split; [| exact Hr]).
  - apply in_app_or in Hin. destruct Hin as [Hin | Hin]; [| exact Hin].
    rewrite Forall_forall in Hpre. apply Hpre in Hin.
    exfalso. eapply Hin. reflexivity.
  - apply in_or_app. now right.
Qed.

Lemma notified_no_listing today st reason n :
  notified g project today st reason n ->
  Forall (no_listing gcsBucket project) n.
Proof.
  intros [H _]. eapply Forall_impl; [| exact H].
  intros e He. apply notify_event_class in He.
  destruct He as (_ & _ & _ & Hc). intros r. apply Hc.
Qed.

Lemma retention_shape_complete cl st :
  retention_shape project gcsBucket (Ret st) cl ->
  (Status st = "Complete" <-> listing_succeeded gcsBucket project cl).
Proof.
  intros H. inversion H as [lr e msg Hl | lr now sweep Hl Hs |]; subst;
    split.
  - discriminate.
  - intros (r & Hin & Hr). exfalso.
    in_cases Hin; try discriminate Hin.
    injection Hin as <-. congruence.
  - intros _. exists lr. split; [now left | exact Hl].
  - reflexivity.
Qed.

Lemma archive_shape_complete today sw st :
  archive_shape g project gcsBucket today (Ret st) sw ->
  (Status st = "Complete" <-> listing_succeeded gcsBucket project sw).
Proof.
  intros H.
  inversion H as [zr err msg Hz
                 | zr ur err msg Hz Hu
                 | zr ur n cl out' Hz Hu Hn Hret]; subst.
  - split; [discriminate |].
    intros (r & Hin & Hr). exfalso. in_cases Hin; discriminate Hin.
  - split; [discriminate |].
    intros (r & Hin & Hr). exfalso. in_cases Hin; discriminate Hin.
  - rewrite (retention_shape_complete _ _ Hret).
    match goal with
    | |- _ <-> listing_succeeded _ _ (?a :: ?b :: n ++ cl)%list =>
        change (a :: b :: n ++ cl)%list with ([a; b] ++ n ++ cl)%list
    end.
    rewrite !listing_after; [reflexivity | |].
    + eapply notified_no_listing; eassumption.
    + repeat constructor; intros r; discriminate.
Qed.

Lemma export_shape_complete today ex st :
  export_shape g project gcsBucket token today (Ret st) ex ->
  (Status st = "Complete" <-> listing_succeeded gcsBucket project ex).
Proof.
  intros H.
  inversion H as [err1 msg
                 | err1 msg
                 | r out1 rest1 Hr Harch
                 | r err1 msg n Hr Hc Hn
                 | r err1 msg1 msg2 out1 rest1 Hr Hc Harch]; subst.
  - split; [discriminate |].
    intros (r & Hin & Hr). exfalso. in_cases Hin; discriminate Hin.
  - split; [discriminate |].
    intros (r & Hin & Hr). exfalso. in_cases Hin; discriminate Hin.
  - rewrite (archive_shape_complete _ _ _ Harch).
    match goal with
    | |- _ <-> listing_succeeded _ _ (?a :: ?b :: ?c :: rest1)%list =>
        change (a :: b :: c :: rest1)%list with ([a; b; c] ++ rest1)%list
    end.
    rewrite listing_after; [reflexivity |].
    repeat constructor; intros r'; discriminate.
  - split; [discriminate |].
    intros (r' & Hin & Hr'). exfalso.
    apply notified_no_listing in Hn. rewrite Forall_forall in Hn.
    in_cases Hin; try discriminate Hin.
    apply Hn in Hin. eapply Hin. reflexivity.
  - rewrite (archive_shape_complete _ _ _ Harch).
    match goal with
    | |- _ <-> listing_succeeded _ _
                 (?a :: ?b :: ?c :: ?d :: ?e :: rest1)%list =>
        change (a :: b :: c :: d :: e :: rest1)%list
          with ([a; b; c; d; e] ++ rest1)%list
    end.
    rewrite listing_after; [reflexivity |].
    repeat constructor; intros r'; discriminate.
Qed.

(** A project that comes back with a status is [Complete] in exactly two
    cases: the probe found today's backup, or the run reached the retention
    sweep, after the upload, and the listing of the sweep succeeded. What
    the sinks answered, and whether the deletions of the sweep went through,
    plays no part. *)
Theorem complete_means_found_or_swept (retentionDays : Z) (w : World)
        (h : list Event) (st : ProjectStatus) :
  let run := backupProject g project gcsBucket token retentionDays w h in
  fst run = Ret st ->
  (Status st = "Complete"
   <-> probe_found gcsBucket project (snd run)
       \/ listing_succeeded gcsBucket project (snd run)).
Proof.
  cbv zeta. intros Ho.
  pose proof (backupProject_shape g project gcsBucket token retentionDays w h)
    as Hshape.
  destruct (backupProject g project gcsBucket token retentionDays w h)
    as [out es].
  cbn [fst snd] in *. subst out.
  inversion Hshape as [pre reason msg Hpre | pre now r0 msg Hpre Hr0
                      | pre now r0 err0 out' rest Hpre Hr0 Hex]; subst.
  - split; [discriminate |].
    intros [(date & r & Hin & Hr) | (r & Hin & Hr)]; exfalso;
      in_cases Hin; try discriminate Hin; no_command Hin.
  - split; [| reflexivity].
    intros _. left. exists (Format now), r0. split; [| exact Hr0].
    apply in_or_app. right. right. now left.
  - rewrite (export_shape_complete _ _ _ Hex).
    split.
    + intros (r & Hin & Hr). right. exists r. split; [| exact Hr].
      apply in_or_app. right. right. right. exact Hin.
    + intros [(date & r & Hin & Hr) | (r & Hin & Hr)].
      * exfalso. in_cases Hin; try discriminate Hin; [no_command Hin | |].
        -- injection Hin as _ <-. congruence.
        -- apply export_shape_no_probe in Hex.
           rewrite Forall_forall in Hex. eapply Hex; [exact Hin | reflexivity].
      * exists r. split; [| exact Hr].
        in_cases Hin; try discriminate Hin; [no_command Hin | | exact Hin].
        exfalso.
        apply (listing_is_no_probe gcsBucket project (Format now)).
        congruence.
Qed.

(** *** The classifier inside a run *)

(** When the export tool fails with a structured error whose status is
    [FAILED_PRECONDITION], the classified message is the canonical
    precondition message and the run goes on to archive and upload. *)
Theorem structured_precondition_continues (retentionDays : Z) (w : World)
        (h : list Event) (c : Cmd) (r : CmdResult) (err : error)
        (info : list (string * Json.value)) :
  let run := backupProject g project gcsBucket token retentionDays w h in
  In (EExec c r) (snd run) ->
  cmd_name c = "bash" ->
  cmd_err r = Some err ->
  structured_error (cmd_stderr r) = Some info ->
  field info "status" = Some sentinel ->
  parseError (cmd_stderr r) = precondition_message
  /\ continues_to_archive (snd run).
Proof.
  cbv zeta. intros Hin Hn Hr Hs Hf.
  assert (Hp : parseError (cmd_stderr r) = precondition_message).
  { unfold parseError, parseError_structured.
    unfold structured_error in Hs. unfold field, sentinel in Hf.
    destruct (Json.Unmarshal (cmd_stderr r)) as [parsed|]; [| discriminate].
    rewrite Hs, Hf. reflexivity. }
  split; [exact Hp |].
  destruct (export_failure_cases g project gcsBucket token retentionDays
              w h c r err Hin Hn Hr) as [[_ Hgo] | [Hc _]];
    [exact Hgo |].
  rewrite Hp in Hc. vm_compute in Hc. discriminate Hc.
Qed.

(** When the export tool fails and the classified message is empty, the
    project ends [Failed] with an empty reason, while the message posted to
    each configured sink gives the reason as [no issue]. *)
Theorem empty_reason_is_posted_as_no_issue (retentionDays : Z) (w : World)
        (h : list Event) (c : Cmd) (r : CmdResult) (err : error) :
  let run := backupProject g project gcsBucket token retentionDays w h in
  In (EExec c r) (snd run) ->
  cmd_name c = "bash" ->
  cmd_err r = Some err ->
  parseError (cmd_stderr r) = EmptyString ->
  fst run = Ret (mkProjectStatus project "Failed" EmptyString)
  /\ (is_empty (webhookURL g) = false ->
      exists today resp,
        In (EPost (webhookURL g)
                  (discord_message g project today "Failed" "no issue") resp)
           (snd run))
  /\ (is_empty (workspaceWebhookURL g) = false ->
      exists now resp,
        In (EPost (workspaceWebhookURL g)
                  (workspace_message now project ("apigee-" ++ project)
                                     "Failed" "no issue") resp)
           (snd run)).
Proof.
  cbv zeta. intros Hin Hn Hr Hp.
  destruct (export_failure_cases g project gcsBucket token retentionDays
              w h c r err Hin Hn Hr) as [[Hc _] | (_ & Ho & [Hd Hw] & _)].
  - rewrite Hp in Hc. discriminate Hc.
  - rewrite Hp in Ho, Hd, Hw. split; [exact Ho |]. split; assumption.
Qed.

End Runs.

(** *** Concrete runs *)

(** The archiver runs out of disk space. *)
Lemma archive_failure_is_silent_witness :
  let run := backupProject Examples.both_sinks "p" "b" "token" 30
                           MoreExamples.zip_fails_world [] in
  let c := MoreExamples.the_archive in
  let r := Examples.exit_status_1 "zip I/O error: No space left on device" in
  exists what pre msg,
    ((is_archive (EExec c r) = true /\ what = "Failed to zip folder")
     \/ (is_upload (EExec c r) = true
         /\ what = "Failed to upload backup to GCS"))
    /\ fst run = Ret (mkProjectStatus "p" "Failed"
                        (what ++ ": " ++ "exit status 1"))
    /\ snd run = (pre ++ [EExec c r; ELog msg])%list
    /\ Forall (silent_event "b" "p") (snd run).
Proof.
  apply (archive_failure_is_silent Examples.both_sinks "p" "b" "token" 30
           MoreExamples.zip_fails_world []).
  - in_list.
  - reflexivity.
  - left. reflexivity.
Defined.

(** Today's folder is found: [Complete]. *)
Lemma complete_means_found_or_swept_witness :
  let run := backupProject Examples.both_sinks "p" "b" "token" 30
                           Examples.found_world [] in
  Status (mkProjectStatus "p" "Complete" "no issue") = "Complete"
  <-> probe_found "b" "p" (snd run) \/ listing_succeeded "b" "p" (snd run).
Proof.
  apply (complete_means_found_or_swept Examples.both_sinks "p" "b" "token" 30
           Examples.found_world []).
  vm_compute. reflexivity.
Defined.

(** The export fails with the precondition payload. *)
Lemma structured_precondition_continues_witness :
  parseError Examples.precondition_payload = precondition_message
  /\ continues_to_archive
       (snd (backupProject Examples.both_sinks "p" "b" "token" 30
               (Examples.export_fails_world Examples.precondition_payload)
               [])).
Proof.
  apply (structured_precondition_continues Examples.both_sinks "p" "b"
           "token" 30
           (Examples.export_fails_world Examples.precondition_payload) []
           Examples.the_export
           (Examples.exit_status_1 Examples.precondition_payload)
           "exit status 1"
           [("status", Json.Str "FAILED_PRECONDITION")]).
  - in_list.
  - reflexivity.
  - reflexivity.
  - vm_compute. reflexivity.
  - vm_compute. reflexivity.
Defined.

(** The export fails without a word on its error stream. *)
Lemma empty_reason_is_posted_as_no_issue_witness :
  let g := Examples.both_sinks in
  let run := backupProject g "p" "b" "token" 30
               (Examples.export_fails_world EmptyString) [] in
  fst run = Ret (mkProjectStatus "p" "Failed" EmptyString)
  /\ (is_empty (webhookURL g) = false ->
      exists today resp,
        In (EPost (webhookURL g)
                  (discord_message g "p" today "Failed" "no issue") resp)
           (snd run))
  /\ (is_empty (workspaceWebhookURL g) = false ->
      exists now resp,
        In (EPost (workspaceWebhookURL g)
                  (workspace_message now "p" ("apigee-" ++ "p")
                                     "Failed" "no issue") resp)
           (snd run)).
Proof.
  apply (empty_reason_is_posted_as_no_issue Examples.both_sinks "p" "b"
           "token" 30 (Examples.export_fails_world EmptyString) []
           Examples.the_export (Examples.exit_status_1 EmptyString)
           "exit status 1").
  - in_list.
  - reflexivity.
  - reflexivity.
  - vm_compute. reflexivity.
Defined.

End ArchiveProps.

(** ** Dates: day numbers, the layout, day arithmetic *)

Module TimeFacts.

Import GoTime Backup Traces.

(** The calendar date of a day number converts back to that day number. *)
Lemma days_roundtrip (z : Z) :
  let '(y, m, d) := civil_from_days z in days_from_civil y m d = z.
Proof.
  unfold civil_from_days, days_from_civil.
  set (z0 := z + 719468).
  set (era := z0 / 146097).
  set (doe := z0 - era * 146097).
  assert (Hdoe : 0 <= doe < 146097).
  { subst doe era. pose proof (Z.div_mod z0 146097).
    pose proof (Z.mod_pos_bound z0 146097). lia. }
  set (yoe := (doe - doe / 1460 + doe / 36524 - doe / 146096) / 365).
  set (doy := doe - (365 * yoe + yoe / 4 - yoe / 100)).
  assert (Hb : 0 <= yoe <= 399 /\ 0 <= doy <= 365).
  { subst yoe doy. Z.div_mod_to_equations. lia. }
  set (mp := (5 * doy + 2) / 153).
  assert (Hmp : 0 <= mp <= 11).
  { subst mp. Z.div_mod_to_equations. lia. }
  destruct (mp <? 10) eqn:Hlt.
  - apply Z.ltb_lt in Hlt.
    replace (mp + 3 <=? 2) with false by (symmetry; apply Z.leb_gt; lia).
    replace ((mp + 3 - 1) / 12) with 0 by (Z.div_mod_to_equations; lia).
    replace ((mp + 3 - 1) mod 12 + 1) with (mp + 3)
      by (Z.div_mod_to_equations; lia).
    replace (mp + 3 <=? 2) with false by (symmetry; apply Z.leb_gt; lia).
    replace ((yoe + era * 400 + 0) / 400) with era
      by (Z.div_mod_to_equations; lia).
    subst doy z0. fold doe. Z.div_mod_to_equations. lia.
  - apply Z.ltb_ge in Hlt.
    replace (mp - 9 <=? 2) with true by (symmetry; apply Z.leb_le; lia).
    replace ((mp - 9 - 1) / 12) with 0 by (Z.div_mod_to_equations; lia).
    replace ((mp - 9 - 1) mod 12 + 1) with (mp - 9)
      by (Z.div_mod_to_equations; lia).
    replace (mp - 9 <=? 2) with true by (symmetry; apply Z.leb_le; lia).
    replace ((yoe + era * 400 + 1 + 0 - 1) / 400) with era
      by (Z.div_mod_to_equations; lia).
    subst doy z0. fold doe. Z.div_mod_to_equations. lia.
Qed.

(** The calendar date of a day number is a date of the calendar. *)
Lemma civil_from_days_valid (z : Z) :
  let '(y, m, d) := civil_from_days z in
  1 <= m <= 12 /\ 1 <= d <= days_in m y.
Proof.
  unfold civil_from_days.
  set (z0 := z + 719468).
  set (era := z0 / 146097).
  set (doe := z0 - era * 146097).
  assert (Hdoe : 0 <= doe < 146097).
  { subst doe era. pose proof (Z.div_mod z0 146097).
    pose proof (Z.mod_pos_bound z0 146097). lia. }
  clearbody doe. clearbody era.
  set (yoe := (doe - doe / 1460 + doe / 36524 - doe / 146096) / 365).
  set (doy := doe - (365 * yoe + yoe / 4 - yoe / 100)).
  assert (Hb : 0 <= yoe <= 399 /\ 0 <= doy <= 365).
  { subst yoe doy. Z.div_mod_to_equations. lia. }
  assert (Hleap : doy = 365 ->
                  (yoe + 1) mod 4 = 0
                  /\ ((yoe + 1) mod 100 <> 0 \/ yoe = 399)).
  { subst yoe doy. Z.div_mod_to_equations. lia. }
  clearbody doy. clearbody yoe. clear doe Hdoe.
  set (mp := (5 * doy + 2) / 153).
  assert (Hmp : 0 <= mp <= 11).
  { subst mp. Z.div_mod_to_equations. lia. }
  assert (Hd : 1 <= doy - (153 * mp + 2) / 5 + 1 <= 31
               /\ (mp = 1 \/ mp = 3 \/ mp = 6 \/ mp = 8 ->
                   doy - (153 * mp + 2) / 5 + 1 <= 30)
               /\ (mp = 11 -> doy - (153 * mp + 2) / 5 + 1 <= 29
                              /\ (doy - (153 * mp + 2) / 5 + 1 = 29 ->
                                  doy = 365))).
  { subst mp. Z.div_mod_to_equations. lia. }
  set (d := doy - (153 * mp + 2) / 5 + 1) in *.
  clearbody d. clearbody mp.
  unfold days_in, is_leap.
  destruct (mp <? 10) eqn:Hlt.
  - apply Z.ltb_lt in Hlt.
    replace (mp + 3 <=? 2) with false by (symmetry; apply Z.leb_gt; lia).
    replace (mp + 3 =? 2) with false by (symmetry; apply Z.eqb_neq; lia).
    split; [clear - Hmp Hlt; lia |]. clear Hleap.
    destruct (Z.eqb_spec (mp + 3) 4); destruct (Z.eqb_spec (mp + 3) 6);
      destruct (Z.eqb_spec (mp + 3) 9); destruct (Z.eqb_spec (mp + 3) 11);
      cbn [orb]; lia.
  - apply Z.ltb_ge in Hlt.
    replace (mp - 9 <=? 2) with true by (symmetry; apply Z.leb_le; lia).
    split; [clear - Hmp Hlt; lia |].
    destruct (Z.eqb_spec (mp - 9) 2) as [E2 | E2].
    + assert (H11 : mp = 11) by lia.
      destruct Hd as (Hd1 & _ & Hd3). destruct (Hd3 H11) as [Hd29 Hd365].
      destruct (Z.eq_dec d 29) as [E29 | N29].
      * destruct (Hleap (Hd365 E29)) as [H4 H100].
        replace ((yoe + era * 400 + 1) mod 4) with 0
          by (Z.div_mod_to_equations; lia).
        cbn [Z.eqb andb].
        destruct H100 as [H100 | H399].
        -- replace ((yoe + era * 400 + 1) mod 100 =? 0) with false
             by (symmetry; apply Z.eqb_neq; Z.div_mod_to_equations; lia).
           cbn. lia.
        -- replace ((yoe + era * 400 + 1) mod 400 =? 0) with true
             by (symmetry; apply Z.eqb_eq; Z.div_mod_to_equations; lia).
           rewrite orb_true_r. lia.
      * destruct ((_ =? 0) && _); lia.
    + replace (mp - 9 =? 4) with false by (symmetry; apply Z.eqb_neq; lia).
      replace (mp - 9 =? 6) with false by (symmetry; apply Z.eqb_neq; lia).
      replace (mp - 9 =? 9) with false by (symmetry; apply Z.eqb_neq; lia).
      replace (mp - 9 =? 11) with false by (symmetry; apply Z.eqb_neq; lia).
      cbn [orb]. lia.
Qed.

(** The day number is linear in the day of the month. *)
Lemma days_from_civil_shift (y m d k : Z) :
  days_from_civil y m (d + k) = days_from_civil y m d + k.
Proof. unfold days_from_civil. lia. Qed.

(** [AddDate] by days alone moves the instant by whole days. *)
Lemma AddDate_whole_days (t : Time) (k : Z) :
  AddDate t 0 0 k = mkTime (sec t + k * 86400) (nsec t) (offset t).
Proof.
  unfold AddDate, Date_of.
  pose proof (days_roundtrip ((sec t + offset t) / 86400)) as Hrt.
  destruct (civil_from_days ((sec t + offset t) / 86400)) as [[y m] d].
  rewrite !Z.add_0_r, days_from_civil_shift, Hrt.
  f_equal. pose proof (Z.div_mod (sec t + offset t) 86400). lia.
Qed.

Lemma neg64_small (z : Z) : - 2 ^ 63 < z < 2 ^ 63 -> neg64 z = - z.
Proof.
  intros H. unfold neg64, wrap64. rewrite Z.mod_small; lia.
Qed.

(** The cut-off of the sweep: [retentionDays] times 24 hours before now. *)
Lemma cutoff_days_before (now : Time) (retentionDays : Z) :
  - 2 ^ 63 < retentionDays < 2 ^ 63 ->
  AddDate now 0 0 (neg64 retentionDays) = days_before retentionDays now.
Proof.
  intros H. rewrite (neg64_small _ H), AddDate_whole_days. unfold days_before.
  f_equal. lia.
Qed.

(** *** Digits *)

Lemma code_dig (k : Z) : 0 <= k <= 9 -> code (dig k) = 48 + k.
Proof.
  intros H. unfold code, dig.
  rewrite nat_ascii_embedding by lia. lia.
Qed.

Lemma is_digit_dig (k : Z) : 0 <= k <= 9 -> is_digit (dig k) = true.
Proof.
  intros H. unfold is_digit. rewrite (code_dig k H).
  apply andb_true_intro. split; apply Z.leb_le; lia.
Qed.

Lemma digit_val_dig (k : Z) : 0 <= k <= 9 -> digit_val (dig k) = k.
Proof. intros H. unfold digit_val. rewrite (code_dig k H). lia. Qed.

Lemma digits_fuel_lt10 (f : nat) (n : Z) (acc : string) :
  0 <= n < 10 -> digits_fuel (S f) n acc = String (dig n) acc.
Proof.
  intros H. cbn [digits_fuel].
  replace (n <? 10) with true by (symmetry; apply Z.ltb_lt; lia).
  rewrite Z.mod_small by lia. reflexivity.
Qed.

Lemma digits_fuel_ge10 (f : nat) (n : Z) (acc : string) :
  10 <= n ->
  digits_fuel (S f) n acc
  = digits_fuel f (n / 10) (String (dig (n mod 10)) acc).
Proof.
  intros H. cbn [digits_fuel].
  replace (n <? 10) with false by (symmetry; apply Z.ltb_ge; lia).
  reflexivity.
Qed.

Lemma digits_fuel_enough (n : Z) :
  10 <= n -> exists f, S (Z.to_nat (Z.log2 n)) = S (S (S (S f))).
Proof.
  intros H.
  assert (3 <= Z.log2 n).
  { change 3 with (Z.log2 8). apply Z.log2_le_mono. lia. }
  exists (Z.to_nat (Z.log2 n) - 3)%nat. lia.
Qed.

(** A year of up to four digits prints as four digits. *)
Lemma appendInt_4 (y : Z) :
  0 <= y <= 9999 ->
  appendInt y 4
  = String (dig (y / 1000)) (String (dig (y / 100 mod 10))
      (String (dig (y / 10 mod 10)) (String (dig (y mod 10)) EmptyString))).
Proof.
  intros H. unfold appendInt.
  replace (y <? 0) with false by (symmetry; apply Z.ltb_ge; lia).
  rewrite Z.abs_eq by lia. unfold digits.
  destruct (Z_lt_le_dec y 10) as [H1 | H1].
  { rewrite digits_fuel_lt10 by lia. cbn [String.length Nat.sub zeros append].
    replace (y / 1000) with 0 by (Z.div_mod_to_equations; lia).
    replace (y / 100 mod 10) with 0 by (Z.div_mod_to_equations; lia).
    replace (y / 10 mod 10) with 0 by (Z.div_mod_to_equations; lia).
    replace (y mod 10) with y by (Z.div_mod_to_equations; lia).
    reflexivity. }
  destruct (digits_fuel_enough y H1) as [f ->].
  rewrite digits_fuel_ge10 by lia.
  destruct (Z_lt_le_dec y 100) as [H2 | H2].
  { rewrite digits_fuel_lt10 by (Z.div_mod_to_equations; lia).
    cbn [String.length Nat.sub zeros append].
    replace (y / 1000) with 0 by (Z.div_mod_to_equations; lia).
    replace (y / 100 mod 10) with 0 by (Z.div_mod_to_equations; lia).
    replace (y / 10 mod 10) with (y / 10) by (Z.div_mod_to_equations; lia).
    reflexivity. }
  rewrite digits_fuel_ge10 by (Z.div_mod_to_equations; lia).
  destruct (Z_lt_le_dec y 1000) as [H3 | H3].
  { rewrite digits_fuel_lt10 by (Z.div_mod_to_equations; lia).
    cbn [String.length Nat.sub zeros append].
    replace (y / 1000) with 0 by (Z.div_mod_to_equations; lia).
    replace (y / 100 mod 10) with (y / 10 / 10)
      by (Z.div_mod_to_equations; lia).
    reflexivity. }
  rewrite digits_fuel_ge10 by (Z.div_mod_to_equations; lia).
  rewrite digits_fuel_lt10 by (Z.div_mod_to_equations; lia).
  cbn [String.length Nat.sub zeros append].
  replace (y / 1000) with (y / 10 / 10 / 10) by (Z.div_mod_to_equations; lia).
  replace (y / 100 mod 10) with (y / 10 / 10 mod 10)
    by (Z.div_mod_to_equations; lia).
  reflexivity.
Qed.

(** A month or a day prints as two digits. *)
Lemma appendInt_2 (m : Z) :
  0 <= m <= 99 ->
  appendInt m 2 = String (dig (m / 10)) (String (dig (m mod 10)) EmptyString).
Proof.
  intros H. unfold appendInt.
  replace (m <? 0) with false by (symmetry; apply Z.ltb_ge; lia).
  rewrite Z.abs_eq by lia. unfold digits.
  destruct (Z_lt_le_dec m 10) as [H1 | H1].
  { rewrite digits_fuel_lt10 by lia. cbn [String.length Nat.sub zeros append].
    replace (m / 10) with 0 by (Z.div_mod_to_equations; lia).
    replace (m mod 10) with m by (Z.div_mod_to_equations; lia).
    reflexivity. }
  destruct (digits_fuel_enough m H1) as [f ->].
  rewrite digits_fuel_ge10 by lia.
  rewrite digits_fuel_lt10 by (Z.div_mod_to_equations; lia).
  reflexivity.
Qed.

(** What [Format] prints parses back to midnight UTC of the same calendar
    day, for every instant whose local year has four digits. *)
Lemma Parse_Format (t : Time) :
  four_digit_year t = true -> Parse (Format t) = Some (day_start t).
Proof.
  unfold four_digit_year, Format, day_start, Date_of.
  pose proof (days_roundtrip ((sec t + offset t) / 86400)) as Hrt.
  pose proof (civil_from_days_valid ((sec t + offset t) / 86400)) as Hv.
  destruct (civil_from_days ((sec t + offset t) / 86400)) as [[y m] d].
  intros Hy. apply andb_prop in Hy. destruct Hy as [Hy0 Hy1].
  apply Z.leb_le in Hy0, Hy1. destruct Hv as [Hm Hd].
  assert (Hd31 : d <= 31).
  { unfold days_in in Hd.
    destruct (m =? 2); [destruct (is_leap y) |];
      [lia | lia | destruct (_ || _); lia]. }
  rewrite (appendInt_4 y) by lia.
  rewrite (appendInt_2 m), (appendInt_2 d) by lia.
  cbn [append Parse].
  rewrite !is_digit_dig by (Z.div_mod_to_equations; lia).
  rewrite !digit_val_dig by (Z.div_mod_to_equations; lia).
  cbn [andb]. change (Ascii.eqb "-" "-") with true. cbn [andb].
  replace (y / 1000 * 1000 + y / 100 mod 10 * 100 + y / 10 mod 10 * 10
           + y mod 10) with y by (Z.div_mod_to_equations; lia).
  replace (m / 10 * 10 + m mod 10) with m by (Z.div_mod_to_equations; lia).
  replace (d / 10 * 10 + d mod 10) with d by (Z.div_mod_to_equations; lia).
  replace (1 <=? m) with true by (symmetry; apply Z.leb_le; lia).
  replace (m <=? 12) with true by (symmetry; apply Z.leb_le; lia).
  replace (1 <=? d) with true by (symmetry; apply Z.leb_le; lia).
  replace (d <=? days_in m y) with true by (symmetry; apply Z.leb_le; lia).
  cbn [andb]. unfold Date_utc. now rewrite Hrt.
Qed.

(** A parsed date is a midnight UTC. *)
Lemma Parse_midnight (s : string) (t : Time) :
  Parse s = Some t -> nsec t = 0 /\ offset t = 0.
Proof.
  unfold Parse.
  repeat match goal with
         | |- match ?x with _ => _ end = _ -> _ =>
             destruct x; try discriminate
         end.
  intros [= <-]. split; reflexivity.
Qed.

End TimeFacts.

(** ** Paths and names *)

Module PathFacts.

Import GoTime Spec Backup StringFacts BucketProps Traces.

Lemma take_while_until_sep (a t : string) :
  has_sep a = false ->
  take_while (fun c => negb (FilePath.is_sep c)) (a ++ String "/" t) = a.
Proof.
  induction a as [|c a IH]; cbn [append take_while has_sep]; intros H.
  - reflexivity.
  - apply orb_false_elim in H. destruct H as [Hc Ha].
    rewrite Hc. cbn [negb]. now rewrite IH.
Qed.

Lemma has_sep_head (s : string) :
  has_sep s = false -> s <> EmptyString ->
  exists c s', s = String c s' /\ FilePath.is_sep c = false.
Proof.
  destruct s as [|c s']; intros H Hne; [now elim Hne |].
  cbn [has_sep] in H. apply orb_false_elim in H.
  exists c, s'. now split.
Qed.

Lemma rev_nonempty (s : string) : s <> EmptyString -> rev s <> EmptyString.
Proof.
  intros Hne H. apply Hne. rewrite <- (rev_involutive s), H. reflexivity.
Qed.

(** The base name of [dir/name] is [name], for a name without separator. *)
Lemma Base_of_join (dir name : string) :
  name <> EmptyString ->
  has_sep name = false ->
  FilePath.Base (dir ++ "/" ++ name) = name.
Proof.
  intros Hne Hsep. unfold FilePath.Base.
  replace (is_empty (dir ++ "/" ++ name)) with false
    by (now destruct dir).
  rewrite rev_append, rev_append. change (rev "/") with "/".
  rewrite append_assoc.
  assert (Hr : has_sep (rev name) = false) by now rewrite has_sep_rev.
  destruct (has_sep_head (rev name) Hr (rev_nonempty name Hne))
    as (c & r' & Hrev & Hc).
  rewrite Hrev. cbn [append drop_while]. rewrite Hc.
  change (String c (r' ++ String "/" (rev dir)))
    with (String c r' ++ String "/" (rev dir)).
  rewrite <- Hrev, take_while_until_sep by exact Hr.
  rewrite Hrev. cbn [is_empty]. rewrite <- Hrev.
  apply rev_involutive.
Qed.

(** *** Substrings *)

Lemma substring_skip (x s : string) (n m : nat) :
  substring (String.length x + n) m (x ++ s) = substring n m s.
Proof. induction x as [|c x IH]; [reflexivity | exact IH]. Qed.

Lemma substring_prefix (d y : string) :
  substring 0 (String.length d) (d ++ y) = d.
Proof.
  induction d as [|c d IH]; cbn [String.length append substring].
  - now destruct y.
  - now rewrite IH.
Qed.

Lemma substring_middle (x d y : string) :
  substring (String.length x) (String.length d) (x ++ d ++ y) = d.
Proof.
  rewrite <- (Nat.add_0_r (String.length x)), substring_skip.
  apply substring_prefix.
Qed.

(** *** Splitting and cleaning *)

Lemma split_acc_no_sep (s cur : string) :
  has_sep s = false -> split_acc "/" s cur = [rev cur ++ s].
Proof.
  revert cur. induction s as [|c s IH]; intros cur H; cbn [split_acc].
  - now rewrite append_nil_r.
  - cbn [has_sep] in H. apply orb_false_elim in H. destruct H as [Hc Hs].
    unfold FilePath.is_sep in Hc. rewrite Hc.
    rewrite (IH _ Hs), rev_cons, append_assoc. reflexivity.
Qed.

Lemma split_acc_app (a b cur : string) :
  split_acc "/" (a ++ String "/" b) cur
  = (split_acc "/" a cur ++ split_acc "/" b EmptyString)%list.
Proof.
  revert cur. induction a as [|c a IH]; intros cur; cbn [append split_acc].
  - reflexivity.
  - destruct (Ascii.eqb c "/"); [cbn [app]; now rewrite IH | apply IH].
Qed.

Lemma plain_elem_true (e : string) :
  plain_elem e = true ->
  is_empty e = false /\ String.eqb e "." = false
  /\ String.eqb e ".." = false /\ has_sep e = false.
Proof.
  unfold plain_elem. intros H.
  repeat (apply andb_prop in H; destruct H as [H ?]).
  repeat split; now apply negb_true_iff.
Qed.

Lemma Split_Join (elems : list string) :
  forallb plain_elem elems = true ->
  elems <> [] ->
  Split (GoString.Join elems "/") "/" = elems.
Proof.
  unfold Split.
  induction elems as [|e rest IH]; intros H Hne; [now elim Hne |].
  cbn [forallb] in H. apply andb_prop in H. destruct H as [He Hrest].
  apply plain_elem_true in He. destruct He as (_ & _ & _ & Hsep).
  destruct rest as [|e' rest'].
  - cbn [GoString.Join]. now rewrite split_acc_no_sep.
  - change (GoString.Join (e :: e' :: rest') "/")
      with (e ++ String "/" (GoString.Join (e' :: rest') "/")).
    rewrite split_acc_app, split_acc_no_sep by exact Hsep.
    rewrite IH by (exact Hrest || discriminate). reflexivity.
Qed.

Lemma clean_elems_plain (rooted : bool) (elems out : list string) :
  forallb plain_elem elems = true ->
  FilePath.clean_elems rooted elems out = (List.rev out ++ elems)%list.
Proof.
  revert out. induction elems as [|e rest IH]; intros out H;
    cbn [FilePath.clean_elems].
  - now rewrite app_nil_r.
  - cbn [forallb] in H. apply andb_prop in H. destruct H as [He Hrest].
    apply plain_elem_true in He. destruct He as (He & Hd & Hdd & _).
    rewrite He, Hd, Hdd. cbn [orb].
    rewrite (IH _ Hrest). cbn [List.rev]. now rewrite <- app_assoc.
Qed.

(** A rooted path of plain elements is clean already. *)
Lemma Clean_rooted (elems : list string) :
  forallb plain_elem elems = true ->
  elems <> [] ->
  FilePath.Clean ("/" ++ GoString.Join elems "/")
  = "/" ++ GoString.Join elems "/".
Proof.
  intros H Hne. unfold FilePath.Clean. cbn [append].
  change (FilePath.is_sep "/") with true. cbv iota.
  change (Split (String "/" (GoString.Join elems "/")) "/")
    with (EmptyString :: Split (GoString.Join elems "/") "/").
  rewrite (Split_Join elems H Hne).
  cbn [FilePath.clean_elems is_empty orb].
  now rewrite clean_elems_plain.
Qed.

(** *** The names the program builds *)

Lemma has_sep_zeros (k : nat) : has_sep (zeros k) = false.
Proof. induction k as [|k IH]; [reflexivity | exact IH]. Qed.

Lemma is_sep_dig (k : Z) : 0 <= k <= 9 -> FilePath.is_sep (dig k) = false.
Proof.
  intros H. unfold FilePath.is_sep.
  destruct (Ascii.eqb_spec (dig k) "/") as [E | _]; [| reflexivity].
  pose proof (TimeFacts.code_dig k H) as Hc. rewrite E in Hc.
  change (code "/") with 47 in Hc. lia.
Qed.

Lemma has_sep_digits_fuel (fuel : nat) (n : Z) (acc : string) :
  has_sep acc = false -> has_sep (digits_fuel fuel n acc) = false.
Proof.
  revert n acc. induction fuel as [|f IH]; intros n acc H; [exact H |].
  cbn [digits_fuel].
  assert (Hacc : has_sep (String (dig (n mod 10)) acc) = false).
  { cbn [has_sep]. rewrite H, orb_false_r. apply is_sep_dig.
    pose proof (Z.mod_pos_bound n 10). lia. }
  destruct (n <? 10); [exact Hacc | now apply IH].
Qed.

Lemma has_sep_appendInt (x : Z) (width : nat) :
  has_sep (appendInt x width) = false.
Proof.
  unfold appendInt, digits.
  rewrite !has_sep_append, has_sep_zeros, has_sep_digits_fuel by reflexivity.
  now destruct (x <? 0).
Qed.

(** A formatted date is a plain path element. *)
Lemma plain_Format (t : Time) : plain_elem (Format t) = true.
Proof.
  unfold plain_elem, Format.
  destruct (Date_of t) as [[y m] d].
  assert (Hsep : has_sep (appendInt y 4 ++ "-" ++ appendInt m 2 ++ "-"
                          ++ appendInt d 2) = false).
  { rewrite !has_sep_append, !has_sep_appendInt. reflexivity. }
  rewrite Hsep. clear Hsep.
  destruct (appendInt y 4) as [|c [|c' a]];
    cbn [append is_empty negb String.eqb];
    try destruct (Ascii.eqb c "."); try destruct (Ascii.eqb c' ".");
    try destruct a; reflexivity.
Qed.

Lemma has_sep_archive_name (project today : string) :
  has_sep project = false -> has_sep today = false ->
  has_sep (archive_name project today) = false.
Proof.
  intros Hp Ht. unfold archive_name.
  rewrite !has_sep_append, Hp, Ht. reflexivity.
Qed.

Lemma plain_archive_name (project today : string) :
  has_sep project = false -> has_sep today = false ->
  plain_elem (archive_name project today) = true.
Proof.
  intros Hp Ht. unfold plain_elem.
  rewrite (has_sep_archive_name _ _ Hp Ht). reflexivity.
Qed.

(** The staging folder of a day and the archive in it. *)
Lemma staging_date_plain (today : string) :
  plain_elem today = true ->
  staging_date today = "/tmp/apigee_backup/" ++ today.
Proof.
  intros H. unfold staging_date, FilePath.Join, apigeeBackupDir.
  cbn [is_empty].
  change (GoString.Join ["/tmp/apigee_backup"; today] "/")
    with ("/" ++ GoString.Join ["tmp"; "apigee_backup"; today] "/").
  rewrite Clean_rooted; [reflexivity | | discriminate].
  cbn [forallb]. rewrite H. reflexivity.
Qed.

Lemma archive_path_plain (project today : string) :
  has_sep project = false ->
  plain_elem today = true ->
  archive_path project today
  = "/tmp/apigee_backup/" ++ today ++ "/" ++ archive_name project today.
Proof.
  intros Hp Ht. unfold archive_path.
  rewrite (staging_date_plain today Ht).
  fold (archive_name project today).
  transitivity
    (FilePath.Clean
       ("/" ++ GoString.Join ["tmp"; "apigee_backup"; today;
                              archive_name project today] "/"));
    [reflexivity |].
  rewrite Clean_rooted; [reflexivity | | discriminate].
  cbn [forallb]. rewrite Ht.
  apply plain_elem_true in Ht. destruct Ht as (_ & _ & _ & Ht).
  rewrite (plain_archive_name _ _ Hp Ht). reflexivity.
Qed.

Lemma archive_name_nonempty (project today : string) :
  archive_name project today <> EmptyString.
Proof. discriminate. Qed.

(** Where an archive is uploaded to. *)
Lemma upload_dest_plain (gcsBucket project today : string) :
  has_sep project = false ->
  plain_elem today = true ->
  upload_dest gcsBucket (archive_path project today) project
  = "gs://" ++ gcsBucket ++ "/" ++ project ++ "/"
    ++ archive_name project today.
Proof.
  intros Hp Ht. unfold upload_dest.
  rewrite (archive_path_plain _ _ Hp Ht).
  change ("/tmp/apigee_backup/" ++ today ++ "/" ++ archive_name project today)
    with (("/tmp/apigee_backup/" ++ today) ++ "/"
          ++ archive_name project today).
  rewrite Base_of_join; [reflexivity | apply archive_name_nonempty |].
  apply plain_elem_true in Ht. destruct Ht as (_ & _ & _ & Ht).
  now apply has_sep_archive_name.
Qed.

End PathFacts.

(** ** Retention Manager: what the sweep deletes *)

Module SweepProps.

Import GoTime Spec Backup StringFacts RetentionProps ShapeFacts BucketProps
       Traces TimeFacts PathFacts.

Lemma deleted_app (es1 es2 : list Event) :
  deleted (es1 ++ es2) = (deleted es1 ++ deleted es2)%list.
Proof.
  induction es1 as [|e es1 IH]; [reflexivity |].
  destruct e as [| | | | | | | c r | | | |]; cbn [app deleted];
    try exact IH.
  destruct c as [name args dir].
  destruct args as [|verb [|line [|x rest]]]; try exact IH.
  destruct (String.eqb name "gsutil" && String.eqb verb "rm");
    [cbn [app]; now rewrite IH | exact IH].
Qed.

(** The loop deletes an initial part of the due lines, in order. It runs
    to its end, having deleted all of them, when no line has a short name,
    and panics at the first such line otherwise. *)
Lemma cleanup_loop_run (lines : list string) (cutoff : Time)
      (env : string) (w : World) (h : list Event) :
  exists rest,
    due env cutoff lines
    = (deleted (snd (cleanup_loop lines cutoff env w h)) ++ rest)%list
    /\ ((fst (cleanup_loop lines cutoff env w h) = Ret tt
         /\ rest = [] /\ ~ Exists (short_name env) lines)
        \/ (fst (cleanup_loop lines cutoff env w h) = Panic slice_panic
            /\ Exists (short_name env) lines)).
Proof.
  revert h. induction lines as [|line ls IH]; intros h.
  - exists []. split; [reflexivity |]. left.
    repeat split. intros H. inversion H.
  - cbn [cleanup_loop]. unfold due. cbn [filter]. fold (due env cutoff ls).
    destruct (is_empty line) eqn:He; cbn [negb andb].
    + advance. cbn [app].
      match goal with
      | |- context [cleanup_loop ls cutoff env w ?h'] =>
          destruct (IH h') as (rest & Hdue & Hend)
      end.
      exists rest. split; [exact Hdue |].
      destruct Hend as [(Hr & Hn & Hs) | (Hp & Hs)]; [left | right].
      * repeat split; try assumption. intros H.
        inversion H as [? ? [Hx _] | ? ? Hx]; subst; [congruence | auto].
      * split; [exact Hp | now apply Exists_cons_tl].
    + destruct (long_enough env line) eqn:Hl.
      * pose proof (isOlderThanRetention_long line env cutoff w h Hl) as Hold.
        set (plog := match embedded_date env line with
                     | Some _ => [] | None => _ end) in Hold.
        assert (Hplog : deleted plog = []).
        { subst plog. now destruct (embedded_date env line). }
        match goal with
        | |- context [bind ?m ?f w h] =>
            assert (Hhead :
              exists evs,
                m w h = (Ret tt, evs)
                /\ deleted evs
                   = if expired env cutoff line then [line] else [])
        end.
        { unfold bind. rewrite Hold.
          destruct (expired env cutoff line).
          - unfold_calls. unfold ask, tell.
            match goal with
            | |- context [cmd_err ?r] => destruct (cmd_err r)
            end;
              (eexists; split; [reflexivity |]);
              rewrite deleted_app, Hplog; reflexivity.
          - cbn [ret]. eexists. split; [reflexivity |].
            rewrite deleted_app, Hplog. reflexivity. }
        destruct Hhead as (evs & Hrun & Hdel).
        advance. rewrite deleted_app, Hdel.
        match goal with
        | |- context [cleanup_loop ls cutoff env w ?h'] =>
            destruct (IH h') as (rest & Hdue & Hend)
        end.
        exists rest. split.
        { destruct (expired env cutoff line); cbn [app]; now rewrite Hdue. }
        destruct Hend as [(Hr & Hn & Hs) | (Hp & Hs)]; [left | right].
        -- repeat split; try assumption. intros H.
           inversion H as [? ? [_ Hx] | ? ? Hx]; subst; [congruence | auto].
        -- split; [exact Hp | now apply Exists_cons_tl].
      * pose proof (isOlderThanRetention_short line env cutoff w h Hl) as Hp.
        unfold bind. rewrite Hp. cbn [fst snd deleted app].
        eexists. split; [reflexivity |]. right.
        split; [reflexivity |]. apply Exists_cons_hd. now split.
Qed.


(** The sweep panics in exactly one situation: the listing succeeded and
    holds a non-empty line whose base name is shorter than [backup_<env>_]
    plus four bytes (a folder placeholder, a stray object). In every other
    case it returns; it never exits the process. *)
Theorem sweep_panics_iff_short_name (gcsBucket env : string)
        (retentionDays : Z) (w : World) (h : list Event) :
  let r := w_Exec w h (listing_cmd gcsBucket env) in
  let run := cleanupOldBackups gcsBucket retentionDays env w h in
  (fst run = Panic slice_panic
   <-> cmd_err r = None
       /\ Exists (short_name env) (Split (cmd_stdout r) LF))
  /\ (fst run = Panic slice_panic \/ exists err, fst run = Ret err).
Proof.
  cbv zeta.
  unfold cleanupOldBackups. unfold_calls. advance.
  destruct (cmd_err (w_Exec w h (listing_cmd gcsBucket env))) as [e|] eqn:He.
  - cbn [ret fst snd]. split; [| right; now eexists].
    split; [discriminate | intros [H _]; discriminate H].
  - advance.
    match goal with
    | |- context [bind (cleanup_loop ?ls ?c env) _ w ?h'] =>
        destruct (cleanup_loop_run ls c env w h') as (rest & Hdue & Hend);
        destruct (cleanup_loop ls c env w h') as [o es] eqn:Hl
    end; cbn [fst snd] in Hdue, Hend.
    destruct Hend as [(-> & -> & Hno) | (-> & Hyes)].
    + advance. cbn [ret fst snd]. split; [| right; now eexists].
      split; [discriminate | intros [_ H]; now elim Hno].
    + erewrite BindFacts.run_bind_panic by exact Hl.
      cbn [fst snd]. split; [| now left].
      split; [intros _; now split | reflexivity].
Qed.


(** *** The date is read by position *)

Lemma embedded_date_position (env dir x d y : string) :
  String.length x = String.length ("backup_" ++ env ++ "_") ->
  String.length y = 4%nat ->
  has_sep (x ++ d ++ y) = false ->
  long_enough env (dir ++ "/" ++ x ++ d ++ y) = true
  /\ embedded_date env (dir ++ "/" ++ x ++ d ++ y) = Parse d.
Proof.
  intros Hx Hy Hsep.
  assert (Hne : x ++ d ++ y <> EmptyString).
  { destruct x; [discriminate Hx | discriminate]. }
  unfold long_enough, embedded_date.
  rewrite (Base_of_join dir _ Hne Hsep).
  unfold slice, len. rewrite <- Hx. rewrite !length_append, Hy.
  change (String.length ".zip") with 4%nat.
  replace (Z.of_nat (String.length x + (String.length d + 4)) - Z.of_nat 4)
    with (Z.of_nat (String.length x) + Z.of_nat (String.length d)) by lia.
  split; [apply Z.leb_le; lia |].
  replace (0 <=? Z.of_nat (String.length x)) with true
    by (symmetry; apply Z.leb_le; lia).
  replace (Z.of_nat (String.length x)
           <=? Z.of_nat (String.length x) + Z.of_nat (String.length d))
    with true by (symmetry; apply Z.leb_le; lia).
  replace (Z.of_nat (String.length x) + Z.of_nat (String.length d)
           <=? Z.of_nat (String.length x + (String.length d + 4)))
    with true by (symmetry; apply Z.leb_le; lia).
  cbn [andb].
  rewrite Nat2Z.id.
  replace (Z.to_nat (Z.of_nat (String.length x) + Z.of_nat (String.length d)
                     - Z.of_nat (String.length x)))
    with (String.length d) by lia.
  now rewrite substring_middle.
Qed.

(** [isOlderThanRetention] never looks at the text around the date: of the
    base name [x ++ d ++ y] it parses [d], whatever [x] and [y] are, as long
    as [x] has the length of [backup_<env>_] and [y] four bytes. An object
    that is no backup of this project is swept like one when a date sits at
    that position. *)
Theorem isOlderThanRetention_reads_by_position (env dir x d y : string)
        (cutoff : Time) (w : World) (h : list Event) :
  String.length x = String.length ("backup_" ++ env ++ "_") ->
  String.length y = 4%nat ->
  has_sep (x ++ d ++ y) = false ->
  fst (isOlderThanRetention (dir ++ "/" ++ x ++ d ++ y) cutoff env w h)
  = Ret (match Parse d with
         | Some backupDate => Before backupDate cutoff
         | None => false
         end).
Proof.
  intros Hx Hy Hsep.
  destruct (embedded_date_position env dir x d y Hx Hy Hsep) as [Hl Hd].
  rewrite (isOlderThanRetention_long _ _ cutoff w h Hl). cbn [fst].
  unfold expired. now rewrite Hd.
Qed.

(** A tar file of another project in the folder of project [p]. *)
Lemma isOlderThanRetention_reads_by_position_witness :
  fst (isOlderThanRetention
         ("gs://b/p" ++ "/" ++ "backup_q_" ++ "2020-01-01" ++ ".tar")
         Examples.noon_2024_03_01 "p" Examples.placeholder_world [])
  = Ret (match Parse "2020-01-01" with
         | Some backupDate => Before backupDate Examples.noon_2024_03_01
         | None => false
         end).
Proof.
  apply (isOlderThanRetention_reads_by_position "p" "gs://b/p" "backup_q_"
           "2020-01-01" ".tar"); reflexivity.
Defined.

(** *** The archive of the day *)





End SweepProps.

(** ** Where archives go *)

Module UploadProps.

Import GoTime Spec Backup StringFacts RetentionProps ShapeFacts
       OrchestratorProps BucketProps Traces TimeFacts PathFacts.

Section Runs.

Variables (g : Globals) (project gcsBucket token : string).

Lemma archive_shape_uploads today out sw e :
  archive_shape g project gcsBucket today out sw ->
  In e sw ->
  is_upload e = true ->
  exists ur,
    e = EExec (upload_cmd gcsBucket (archive_path project today) project) ur.
Proof.
  intros H Hin Hup.
  inversion H as [zr err msg Hz
                 | zr ur err msg Hz Hu
                 | zr ur n cl out' Hz Hu Hn Hret]; subst;
    in_cases Hin; try (subst e; cbn in Hup; discriminate Hup);
    try (eexists; symmetry; exact Hin).
  - apply (notified_class g project gcsBucket) in Hn.
    rewrite Forall_forall in Hn. apply Hn in Hin.
    destruct Hin as (_ & _ & Hin & _). congruence.
  - apply retention_shape_class in Hret.
    rewrite Forall_forall in Hret. apply Hret in Hin.
    destruct Hin as (_ & _ & Hin & _). congruence.
Qed.

(** For a project identifier without a slash, every upload of a run copies
    the archive [/tmp/apigee_backup/<date>/backup_<project>_<date>.zip] to
    [gs://<bucket>/<project>/backup_<project>_<date>.zip], where [<date>]
    is the date the run read from the clock: archives sit directly in the
    project's folder, not in a folder of the date. *)
Theorem uploads_go_to_the_project_folder (retentionDays : Z) (w : World)
        (h : list Event) (e : Event) :
  let run := backupProject g project gcsBucket token retentionDays w h in
  has_sep project = false ->
  In e (snd run) ->
  is_upload e = true ->
  exists now r,
    In (ENow now) (snd run)
    /\ e = EExec
             (simple_cmd "gsutil"
                ["cp";
                 "/tmp/apigee_backup/" ++ Format now ++ "/"
                 ++ archive_name project (Format now);
                 "gs://" ++ gcsBucket ++ "/" ++ project ++ "/"
                 ++ archive_name project (Format now)]) r.
Proof.
  cbv zeta. intros Hp Hin Hup.
  pose proof (backupProject_shape g project gcsBucket token retentionDays w h)
    as Hshape.
  destruct (backupProject g project gcsBucket token retentionDays w h)
    as [out es].
  cbn [fst snd] in *.
  assert (Hreset : forall l, Forall reset_event l -> In e l -> False).
  { intros l Hl Hi. rewrite Forall_forall in Hl. apply Hl in Hi.
    apply reset_event_class in Hi. destruct Hi as [(_ & _ & Hi & _) _].
    congruence. }
  assert (Hnote : forall today st reason n,
             notified g project today st reason n -> In e n -> False).
  { intros today st reason n Hn Hi.
    apply (notified_class g project gcsBucket) in Hn.
    rewrite Forall_forall in Hn. apply Hn in Hi.
    destruct Hi as (_ & _ & Hi & _). congruence. }
  inversion Hshape as [pre reason msg Hpre | pre now r0 msg Hpre Hr0
                      | pre now r0 err0 out' rest Hpre Hr0 Hex]; subst.
  - exfalso. in_cases Hin; try (subst e; cbn in Hup; discriminate Hup). eauto.
  - exfalso. in_cases Hin; try (subst e; cbn in Hup; discriminate Hup). eauto.
  - assert (Hnow : In (ENow now)
                      (pre ++ ENow now
                           :: EExec (probe_cmd gcsBucket (Format now) project)
                                    r0 :: rest)).
    { apply in_or_app. right. now left. }
    assert (Hfound : forall out sw,
               archive_shape g project gcsBucket (Format now) out sw ->
               In e sw ->
               exists now0 r,
                 In (ENow now0)
                    (pre ++ ENow now
                         :: EExec (probe_cmd gcsBucket (Format now) project)
                                  r0 :: rest)
                 /\ e = EExec
                          (simple_cmd "gsutil"
                             ["cp";
                              "/tmp/apigee_backup/" ++ Format now0 ++ "/"
                              ++ archive_name project (Format now0);
                              "gs://" ++ gcsBucket ++ "/" ++ project ++ "/"
                              ++ archive_name project (Format now0)]) r).
    { intros o sw Ha Hi.
      destruct (archive_shape_uploads _ _ _ _ Ha Hi Hup) as [ur ->].
      exists now, ur. split; [exact Hnow |].
      unfold upload_cmd.
      rewrite (upload_dest_plain _ _ _ Hp (plain_Format now)).
      rewrite (archive_path_plain _ _ Hp (plain_Format now)).
      reflexivity. }
    in_cases Hin; try (subst e; cbn in Hup; discriminate Hup); [exfalso; eauto |].
    inversion Hex; subst; in_cases Hin; try (subst e; cbn in Hup; discriminate Hup);
      try (exfalso; eauto; fail); eauto.
Qed.

End Runs.

(** The second project of the two-project run. *)
Lemma uploads_go_to_the_project_folder_witness :
  let run := backupProject Examples.no_sinks "proj-b" "b" "token" 30
                           Examples.two_project_world [] in
  exists now r,
    In (ENow now) (snd run)
    /\ EExec (upload_cmd "b"
                "/tmp/apigee_backup/2024-03-01/backup_proj-b_2024-03-01.zip"
                "proj-b") Examples.succeeded
       = EExec
           (simple_cmd "gsutil"
              ["cp";
               "/tmp/apigee_backup/" ++ Format now ++ "/"
               ++ archive_name "proj-b" (Format now);
               "gs://" ++ "b" ++ "/" ++ "proj-b" ++ "/"
               ++ archive_name "proj-b" (Format now)]) r.
Proof.
  apply (uploads_go_to_the_project_folder Examples.no_sinks "proj-b" "b"
           "token" 30 Examples.two_project_world []).
  - reflexivity.
  - in_list.
  - reflexivity.
Defined.

End UploadProps.

(** ** Project List Reader: what an identifier looks like *)

Module IdentifierProps.

Import Spec Backup StringFacts TrimFacts ReaderProps Traces MainProps.

Lemma has_LF_append (a b : string) :
  has_LF (a ++ b) = has_LF a || has_LF b.
Proof.
  induction a as [|c a IH]; cbn [append has_LF]; [reflexivity |].
  now rewrite IH, orb_assoc.
Qed.

Lemma has_LF_rev (s : string) : has_LF (rev s) = has_LF s.
Proof.
  induction s as [|c s IH]; [reflexivity |].
  rewrite rev_cons, has_LF_append, IH. cbn [has_LF str1].
  rewrite orb_false_r. apply orb_comm.
Qed.

Lemma has_LF_drop (k : nat) (s : string) :
  has_LF s = false -> has_LF (drop k s) = false.
Proof.
  revert s. induction k as [|k IH]; intros s H; [exact H |].
  destruct s as [|c s]; [reflexivity |].
  cbn [has_LF] in H. apply orb_false_elim in H. cbn [drop]. now apply IH.
Qed.

(** The pieces between line feeds hold no line feed. *)
Lemma split_acc_no_LF (s cur : string) :
  has_LF cur = false ->
  Forall (fun p => has_LF p = false) (split_acc LF s cur).
Proof.
  revert cur. induction s as [|c s IH]; intros cur H; cbn [split_acc].
  - constructor; [now rewrite has_LF_rev | constructor].
  - destruct (Ascii.eqb c LF) eqn:Hc.
    + constructor; [now rewrite has_LF_rev | now apply IH].
    + apply IH. cbn [has_LF]. now rewrite Hc, H.
Qed.

Lemma dropCR_no_LF (p : string) :
  has_LF p = false -> has_LF (Bufio.dropCR p) = false.
Proof.
  intros H. unfold Bufio.dropCR.
  destruct (rev p) as [|c r] eqn:Hr; [exact H |].
  destruct (Ascii.eqb c CR); [| exact H].
  rewrite has_LF_rev.
  rewrite <- has_LF_rev, Hr in H. cbn [has_LF] in H.
  now apply orb_false_elim in H.
Qed.

Lemma scan_lines_no_LF (pieces : list string) (read_err : option error) :
  Forall (fun p => has_LF p = false) pieces ->
  Forall (fun p => has_LF p = false)
         (fst (Bufio.scan_lines pieces read_err)).
Proof.
  induction 1 as [|p rest Hp Hrest IH]; cbn [Bufio.scan_lines];
    [constructor |].
  destruct (Bufio.MaxScanTokenSize <=? len p); [constructor |].
  destruct rest as [|q rest'].
  - destruct (is_empty p); cbn [fst]; [constructor |].
    constructor; [now apply dropCR_no_LF | constructor].
  - destruct (Bufio.scan_lines (q :: rest') read_err) as [ts e].
    cbn [fst] in *. constructor; [now apply dropCR_no_LF | exact IH].
Qed.

(** *** Trimming reaches a fixed point *)

Lemma trim_left_done (fuel : nat) (s : string) :
  (String.length s <= fuel)%nat ->
  leading_space (trim_left_fuel fuel s) = 0%nat.
Proof.
  revert s. induction fuel as [|fuel IH]; intros s H.
  - destruct s; [reflexivity | cbn in H; lia].
  - cbn [trim_left_fuel].
    destruct (leading_space s) as [|k] eqn:Hk; [exact Hk |].
    apply IH. rewrite length_drop.
    destruct s; cbn in *; [discriminate Hk | lia].
Qed.

Lemma trim_right_done (fuel : nat) (r : string) :
  (String.length r <= fuel)%nat ->
  trailing_space (trim_right_fuel fuel r) = 0%nat.
Proof.
  revert r. induction fuel as [|fuel IH]; intros r H.
  - destruct r; [reflexivity | cbn in H; lia].
  - cbn [trim_right_fuel].
    destruct (trailing_space r) as [|k] eqn:Hk; [exact Hk |].
    apply IH. rewrite length_drop.
    destruct r; cbn in *; [discriminate Hk | lia].
Qed.

Lemma trim_left_no_LF (fuel : nat) (s : string) :
  has_LF s = false -> has_LF (trim_left_fuel fuel s) = false.
Proof.
  revert s. induction fuel as [|fuel IH]; intros s H; [exact H |].
  cbn [trim_left_fuel].
  destruct (leading_space s); [exact H |].
  apply IH. now apply has_LF_drop.
Qed.

Lemma trim_right_no_LF (fuel : nat) (r : string) :
  has_LF r = false -> has_LF (trim_right_fuel fuel r) = false.
Proof.
  revert r. induction fuel as [|fuel IH]; intros r H; [exact H |].
  cbn [trim_right_fuel].
  destruct (trailing_space r); [exact H |].
  apply IH. now apply has_LF_drop.
Qed.

(** What the right trim keeps is a front part of the string. *)
Lemma drop_suffix (k : nat) (r : string) :
  exists d, r = d ++ drop k r.
Proof.
  revert r. induction k as [|k IH]; intros r; [now exists EmptyString |].
  destruct r as [|c r]; [now exists EmptyString |].
  destruct (IH r) as [d Hd]. exists (String c d). cbn [append drop].
  now rewrite <- Hd.
Qed.

Lemma trim_right_suffix (fuel : nat) (r : string) :
  exists d, r = d ++ trim_right_fuel fuel r.
Proof.
  revert r. induction fuel as [|fuel IH]; intros r;
    [now exists EmptyString |].
  cbn [trim_right_fuel].
  destruct (trailing_space r) as [|k]; [now exists EmptyString |].
  destruct (drop_suffix (S k) r) as [d1 Hd1].
  destruct (IH (drop (S k) r)) as [d2 Hd2].
  exists (d1 ++ d2). rewrite append_assoc, <- Hd2. exact Hd1.
Qed.

Lemma TrimRightSpace_prefix (t : string) :
  exists v, t = TrimRightSpace t ++ v.
Proof.
  unfold TrimRightSpace.
  destruct (trim_right_suffix (String.length t) (rev t)) as [d Hd].
  exists (rev d).
  rewrite <- rev_append, <- Hd. symmetry. apply rev_involutive.
Qed.

Lemma HasPrefix_append (u v x : string) :
  HasPrefix u x = true -> HasPrefix (u ++ v) x = true.
Proof.
  revert u. induction x as [|a x IH]; intros u H;
    [now destruct (u ++ v) |].
  destruct u as [|b u]; cbn [append HasPrefix] in *; [discriminate |].
  apply andb_prop in H. destruct H as [Hab Hu].
  now rewrite Hab, IH.
Qed.

(** A front part of a string without leading white space has none. *)
Lemma leading_space_prefix (u v : string) :
  leading_space (u ++ v) = 0%nat -> leading_space u = 0%nat.
Proof.
  destruct u as [|c u]; [reflexivity |].
  cbn [append]. unfold leading_space.
  destruct (ascii_space c); [discriminate |].
  destruct (find (HasPrefix (String c u)) unicode_spaces) as [x|] eqn:Hf;
    [| reflexivity].
  apply find_some in Hf. destruct Hf as [Hin Hx].
  pose proof (HasPrefix_append (String c u) v x Hx) as Hx'.
  cbn [append] in Hx'.
  destruct (find (HasPrefix (String c (u ++ v))) unicode_spaces) as [y|] eqn:Hg.
  - apply find_some in Hg. destruct Hg as [Hy _]. intros Hlen. exfalso.
    revert Hy Hlen. clear.
    unfold unicode_spaces. cbn [In]. intros Hy Hlen.
    repeat (destruct Hy as [<- | Hy]; [discriminate Hlen |]). exact Hy.
  - intros _. exfalso.
    eapply find_none in Hg; [| exact Hin]. congruence.
Qed.

(** What [TrimSpace] returns has no white-space rune at either end. *)
Lemma TrimSpace_ends (s : string) :
  leading_space (TrimSpace s) = 0%nat
  /\ trailing_space (rev (TrimSpace s)) = 0%nat.
Proof.
  unfold TrimSpace. split.
  - destruct (TrimRightSpace_prefix (TrimLeftSpace s)) as [v Hv].
    apply (leading_space_prefix _ v). rewrite <- Hv.
    unfold TrimLeftSpace. now apply trim_left_done.
  - unfold TrimRightSpace at 1. rewrite rev_involutive.
    apply trim_right_done. clear.
    induction (TrimLeftSpace s) as [|c t IH]; [cbn; lia |].
    rewrite rev_cons, length_append. cbn. lia.
Qed.

Lemma TrimSpace_no_LF (s : string) :
  has_LF s = false -> has_LF (TrimSpace s) = false.
Proof.
  intros H. unfold TrimSpace, TrimRightSpace, TrimLeftSpace.
  rewrite has_LF_rev. apply trim_right_no_LF. rewrite has_LF_rev.
  now apply trim_left_no_LF.
Qed.



End IdentifierProps.

(** ** Orchestrator: which projects are exported *)

Module ExportProps.

Import GoTime Spec Backup RunFacts StringFacts ShapeFacts OrchestratorProps
       Traces BindFacts LoggingProps NotifyProps MainProps.

Lemma exported_app (es1 es2 : list Event) :
  exported (es1 ++ es2) = (exported es1 ++ exported es2)%list.
Proof. apply flat_map_app. Qed.

Lemma exported_none (es : list Event) :
  Forall (fun e => is_export e = false) es -> exported es = [].
Proof.
  induction 1 as [|e es He _ IH]; [reflexivity |].
  unfold exported in *. cbn [flat_map]. rewrite IH, app_nil_r.
  destruct e; try reflexivity. now rewrite He.
Qed.

Lemma in_order_empty {A} (l : list A) : in_order [] l.
Proof. induction l; now constructor. Qed.

Section Runs.

Variables (g : Globals) (project gcsBucket token : string).

Lemma archive_shape_exported today out sw :
  archive_shape g project gcsBucket today out sw -> exported sw = [].
Proof.
  intros H. apply exported_none.
  eapply Forall_impl; [| eapply archive_shape_class; exact H].
  cbn. now intros e [He _].
Qed.

Lemma notified_exported today st reason n :
  notified g project today st reason n -> exported n = [].
Proof.
  intros H. apply exported_none.
  eapply Forall_impl; [| eapply (notified_class g project gcsBucket); exact H].
  cbn. now intros e [He _].
Qed.

Lemma reset_exported pre :
  Forall reset_event pre -> exported pre = [].
Proof.
  intros H. apply exported_none.
  eapply Forall_impl; [| exact H].
  intros e He. apply reset_event_class in He. now destruct He as [[He _] _].
Qed.

Lemma export_shape_exported today out ex :
  export_shape g project gcsBucket token today out ex ->
  exported ex = [] \/ exported ex = [export_cmd staging_export project token].
Proof.
  assert (Hhead : forall r rest,
    exported (EMkdirAll (staging_date today) None
              :: EMkdirAll staging_export None
              :: EExec (export_cmd staging_export project token) r :: rest)
    = export_cmd staging_export project token :: exported rest)
    by reflexivity.
  intros H. inversion H; subst; [now left | now left | right ..];
    rewrite Hhead; f_equal.
  - eapply archive_shape_exported; eassumption.
  - change (exported (ELog msg :: n)) with (exported n).
    eapply notified_exported; eassumption.
  - change (exported (ELog msg1 :: ELog msg2 :: rest)) with (exported rest).
    eapply archive_shape_exported; eassumption.
Qed.

(** One run of [backupProject] runs the export at most once, for its own
    project and with the token it was given. *)
Lemma backupProject_exported (retentionDays : Z) (w : World)
      (h : list Event) :
  let es := snd (backupProject g project gcsBucket token retentionDays w h) in
  exported es = []
  \/ exported es = [export_cmd staging_export project token].
Proof.
  cbv zeta.
  pose proof (backupProject_shape g project gcsBucket token retentionDays w h)
    as Hshape.
  destruct (backupProject g project gcsBucket token retentionDays w h)
    as [out es].
  cbn [fst snd] in *.
  inversion Hshape; subst; rewrite exported_app, reset_exported by assumption;
    cbn [app].
  - now left.
  - now left.
  - match goal with
    | |- context [exported (ENow ?n :: EExec ?c ?r :: ?rest)] =>
        change (exported (ENow n :: EExec c r :: rest)) with (exported rest)
    end.
    eapply export_shape_exported; eassumption.
Qed.

End Runs.

Lemma main_loop_exported (g : Globals) (projects : list string)
      (gcsBucket token : string) (retentionDays : Z)
      (acc : list ProjectStatus) (w : World) (h : list Event) :
  in_order
    (exported (snd (main_loop g projects gcsBucket token retentionDays
                              acc w h)))
    (map (fun p => export_cmd staging_export p token) projects).
Proof.
  revert acc h. induction projects as [|p rest IH]; intros acc h.
  - cbn. constructor.
  - cbn [main_loop map].
    pose proof (backupProject_exported g p gcsBucket token retentionDays w h)
      as Hex. cbv zeta in Hex.
    destruct (backupProject g p gcsBucket token retentionDays w h)
      as [[st | msg | code] es] eqn:Hrun; cbn [snd] in Hex.
    + advance. rewrite exported_app.
      destruct Hex as [-> | ->]; cbn [app];
        [apply in_order_skip | apply in_order_take]; apply IH.
    + rewrite (run_bind_panic _ _ _ _ _ _ Hrun). cbn [snd].
      destruct Hex as [-> | ->];
        [apply in_order_empty | apply in_order_take, in_order_empty].
    + rewrite (run_bind_exit _ _ _ _ _ _ Hrun). cbn [snd].
      destruct Hex as [-> | ->];
        [apply in_order_empty | apply in_order_take, in_order_empty].
Qed.

Lemma final_no_export (g : Globals) (statuses : list ProjectStatus)
      (w : World) (h : list Event) :
  exported (snd (sendFinalNotification g statuses w h)) = [].
Proof.
  apply exported_none.
  summary_cases g statuses w h.
  all: repeat match goal with
         | |- Forall _ (_ :: _) => constructor
         | |- Forall _ (_ ++ _) => apply Forall_app; split
         | |- Forall _ [] => constructor
         | |- is_export _ = false => reflexivity
         | L : log_only ?l |- Forall _ ?l =>
             eapply Forall_impl; [| exact L];
             intros [] He; try discriminate He; reflexivity
         end.
Qed.

Lemma housekeeping_exported (hk : list Event) :
  Forall housekeeping_event hk -> exported hk = [].
Proof.
  intros H. apply exported_none.
  eapply Forall_impl; [| exact H].
  intros [] He; cbn in He; try contradiction; try reflexivity.
  now subst.
Qed.

(** Whatever happens in a run of the program, the export tool is run only
    for projects of the project file, in the order of the file, at most
    once for each of its lines, in the export folder of the workspace and
    with the token of the command line. Nothing is exported before the
    project file has been read to its end. *)
Theorem exports_follow_the_project_file (f : Flags) (w : World)
        (h : list Event) :
  exported (snd (main f w h)) = []
  \/ exists data,
       In (EOpen (projectFile f) (Opened data None)) (snd (main f w h))
       /\ in_order
            (exported (snd (main f w h)))
            (map (fun p => export_cmd staging_export p (token f))
                 (trimmed_nonblank_lines data)).
Proof.
  destruct (main_cases f w h)
    as [[Hm Hrun]
       | [[Hm (e & msg & Hrun)]
         | [[Hm (hk & r & msg & Hrun & Hhk)]
           | [Hm (hk & data & Hhk & Hloop)]]]].
  - left. now rewrite Hrun.
  - left. now rewrite Hrun.
  - left. rewrite Hrun. cbn [snd].
    now rewrite exported_app, housekeeping_exported.
  - right. exists data. cbv zeta in Hloop.
    destruct Hloop as [[_ Hrun] | (sts & _ & _ & _ & Hrun)];
      rewrite Hrun; cbn [snd].
    + split; [apply in_or_app; right; now left |].
      rewrite exported_app, housekeeping_exported by assumption.
      cbn [app].
      match goal with
      | |- in_order (exported (?o :: ?l)) _ =>
          change (exported (o :: l)) with (exported l)
      end.
      apply main_loop_exported.
    + split; [apply in_or_app; right; now left |].
      rewrite exported_app, housekeeping_exported by assumption.
      cbn [app].
      match goal with
      | |- in_order (exported (?o :: (?l ++ ?s)%list)) _ =>
          change (exported (o :: (l ++ s)%list)) with (exported (l ++ s)%list)
      end.
      rewrite exported_app, final_no_export, app_nil_r.
      apply main_loop_exported.
Qed.

End ExportProps.
